(** * Bubble-diagram compiler and mask-refinement schedule of AnyHome

    A shallow embedding of [FloorplanGenerator.generate_bubble_diagram]
    and [FloorplanGenerator.generate_layout_masks]
    (src/floorplan/floorplan_generator.py), with the properties of the
    constraint graph and of the freeze schedule; and of their callers,
    [generate_floorplan], [generate_house_mesh] and the batch script
    src/bb/floorplan_graph_gen.py, over the calls into code that the
    sources do not hold. *)

From Stdlib Require Import Ascii.
From stdpp Require Import gmap strings list pretty sorting.

Local Open Scope Z_scope.
Local Open Scope nat_scope.

(** ** Python exceptions and the result monad *)

Inductive exn : Type :=
  | KeyError (key : string)      (* dict[key] with key absent *)
  | ValueError                   (* list.remove(x) with x absent *)
  | IndexError                   (* l[0] on an empty list *)
  | AttributeError               (* None.group() *)
  | JSONDecodeError.             (* json.loads on a text that is not JSON *)

Inductive result (A : Type) : Type :=
  | Ok (a : A)
  | Raise (e : exn).
Arguments Ok {A} a.
Arguments Raise {A} e.

#[global] Instance result_ret : MRet result := λ A a, Ok a.
#[global] Instance result_bind : MBind result := λ A B f m,
  match m with Ok a => f a | Raise e => Raise e end.

(** [for x in l: s = f(s, x)], stopping at the first exception. *)
Fixpoint foldM {A S} (f : S → A → result S) (s : S) (l : list A) : result S :=
  match l with
  | [] => Ok s
  | x :: l => s' ← f s x; foldM f s' l
  end.

(** [[f(x) for x in l]] where [f] may raise. *)
Fixpoint py_map {A B} (f : A → result B) (l : list A) : result (list B) :=
  match l with
  | [] => Ok []
  | x :: l => y ← f x; ys ← py_map f l; Ok (y :: ys)
  end.

(** ** Python containers *)

(** [dict(l)] for a list of key/value pairs: later pairs overwrite. *)
Definition py_dict `{Countable K} {V} (l : list (K * V)) : gmap K V :=
  foldl (λ m kv, <[kv.1 := kv.2]> m) ∅ l.

(** [d[k]] *)
Definition getitem {V} (d : gmap string V) (k : string) : result V :=
  match d !! k with
  | Some v => Ok v
  | None => Raise (KeyError k)
  end.

(** [l.remove(x)]: drops the first occurrence, [ValueError] if there is none. *)
Fixpoint list_remove `{EqDecision A} (x : A) (l : list A) : result (list A) :=
  match l with
  | [] => Raise ValueError
  | y :: l => if decide (x = y) then Ok l else l' ← list_remove x l; Ok (y :: l')
  end.

(** [l[0]] *)
Definition first {A} (l : list A) : result A :=
  match l with
  | [] => Raise IndexError
  | x :: _ => Ok x
  end.

(** [str(i)] for a natural number. *)
Definition str (i : nat) : string := pretty i.

(** [room[:-1]] *)
Fixpoint but_last (s : string) : string :=
  match s with
  | EmptyString => EmptyString
  | String c EmptyString => EmptyString
  | String c s' => String c (but_last s')
  end.

(** [sorted(l, key=key)] with keys compared by [leb]: a stable insertion
    sort (Python's sort is stable, and a stable sort has one result). *)
Section sorted.
Context {A K : Type} (key : A → K) (leb : K → K → bool).

Fixpoint insert_sorted (x : A) (l : list A) : list A :=
  match l with
  | [] => [x]
  | y :: l' => if leb (key x) (key y) then x :: l else y :: insert_sorted x l'
  end.

Definition sorted (l : list A) : list A := foldr insert_sorted [] l.
End sorted.

(** ** The response of the language model *)

(** The object that [json.loads] returns, when it has its four keys and
    every entry of [connection] is a list [[a, b]] of two names, read as
    [pair[0]] and [pair[1]]. [Object] below is the object when it may lack
    keys and hold entries of any length. *)
Record Response : Type := {
  complete_room_list : list string;
  modified_room_list : list string;
  connection : list (string * string);
  front_door : list string;
}.

(** An edge triple [(i, polarity, j)]. *)
Definition triple : Type := nat * Z * nat.

Definition triple_key (t : triple) : nat * nat := (t.1.1, t.2).

(** Tuple comparison of the sort key [(x[0], x[2])]. *)
Definition key_leb (k1 k2 : nat * nat) : bool :=
  (k1.1 <? k2.1) || ((k1.1 =? k2.1) && (k1.2 <=? k2.2)).

(** What [generate_bubble_diagram] returns. [graph_nodes] is the one-hot
    encoding of [room_list_indices] (see [graph_nodes] below); the fifth
    component, [str(response)], is left out. *)
Record Diagram : Type := {
  room_list_indices : list nat;        (* type code of every node *)
  graph_edges : list triple;           (* organized_triples *)
  room_name_dict : gmap string string;
  room_list : list string;             (* real rooms, interior doors, front doors *)
}.

(** ** generate_bubble_diagram, from the parsed response on *)

Definition type_list : gmap string nat :=
  py_dict [("living_room", 1); ("kitchen", 2); ("bedroom", 3); ("bathroom", 4);
           ("balcony", 5); ("entrance", 6); ("dining_room", 7); ("study_room", 8);
           ("storage", 10); ("front_door", 15); ("unknown", 16);
           ("interior_door", 17)]%string.

(** [type_list[room[:-1]] if room[:-1] in type_list else type_list["unknown"]] *)
Definition room_type_index (room : string) : nat :=
  match type_list !! but_last room with
  | Some c => c
  | None => 16
  end.

(** [[prefix + str(i) for i in range(1, n + 1)]] *)
Definition door_list (prefix : string) (n : nat) : list string :=
  (λ i, prefix +:+ str i) <$> seq 1 n.

(** [{room: i for i, room in enumerate(room_list)}] *)
Definition make_room_dict (room_list : list string) : gmap string nat :=
  py_dict (imap (λ i room, (room, i)) room_list).

(** The initial edge set: every pair [i < j] at polarity [-1]. *)
Definition initial_triples (n : nat) : list triple :=
  i ← seq 0 n; j ← seq 0 n; if i <? j then [(i, (-1)%Z, j)] else [].

(** [(i in e_map) and (j in e_map)] for a tuple [e_map] of three indices. *)
Definition links (i j : nat) (e_map : nat * nat * nat) : bool :=
  bool_decide (i ∈ [e_map.1.1; e_map.1.2; e_map.2]) &&
  bool_decide (j ∈ [e_map.1.1; e_map.1.2; e_map.2]).

Definition is_adjacent (connection : list (nat * nat * nat)) (i j : nat) : bool :=
  existsb (links i j) connection.

(** [[pair[1] for pair in connection if (pair[0] == i and pair[2] == j) or
     (pair[0] == j and pair[2] == i)]] *)
Definition edge_doors (connection : list (nat * nat * nat)) (i j : nat) : list nat :=
  (λ pair, pair.1.2) <$>
    filter (λ pair : nat * nat * nat,
              (pair.1.1 = i ∧ pair.2 = j) ∨ (pair.1.1 = j ∧ pair.2 = i)) connection.

(** The body of the loop over pairs of real rooms. *)
Definition connect_pair (connection : list (nat * nat * nat)) (i j : nat)
    (triples : list triple) : result (list triple) :=
  if is_adjacent connection i j then
    e ← first (edge_doors connection i j);
    triples ← list_remove (i, (-1)%Z, e) triples;
    triples ← list_remove (j, (-1)%Z, e) triples;
    triples ← list_remove (i, (-1)%Z, j) triples;
    Ok (triples ++ [(i, 1%Z, e); (j, 1%Z, e); (i, 1%Z, j)])
  else Ok triples.

Definition connect_rooms (real_nodes_len : nat) (connection : list (nat * nat * nat))
    (triples : list triple) : result (list triple) :=
  foldM (λ triples i,
    foldM (λ triples j,
      if i <? j then connect_pair connection i j triples
      else Ok triples) triples (seq 0 real_nodes_len))
    triples (seq 0 real_nodes_len).

(** The body of the loop over [enumerate(front_door, 1)]. *)
Definition add_front_door (room_dict : gmap string nat) (triples : list triple)
    (entry : nat * string) : result (list triple) :=
  let '(i, room) := entry in
  r ← getitem room_dict room;
  f ← getitem room_dict ("front_door" +:+ str i);
  triples ← list_remove (r, (-1)%Z, f) triples;
  Ok (triples ++ [(r, 1%Z, f)]).

(** [enumerate(l, 1)] *)
Definition enumerate1 {A} (l : list A) : list (nat * A) := imap (λ i x, (S i, x)) l.

(** The element of the comprehension of line 269:
    [[room_name_dict[pair[0]], room_name_dict[pair[1]]]] *)
Definition translate_pair (room_name_dict : gmap string string)
    (pair : string * string) : result (string * string) :=
  a ← getitem room_name_dict pair.1;
  b ← getitem room_name_dict pair.2;
  Ok (a, b).

(** Line 279: [[(pair[0], "interior_door" + str(i), pair[1])
    for i, pair in enumerate(connection, 1)]] *)
Definition with_doors (connection : list (string * string))
    : list (string * string * string) :=
  (λ e : nat * (string * string), (e.2.1, "interior_door" +:+ str e.1, e.2.2))
    <$> enumerate1 connection.

(** The element of the comprehension of line 289:
    [(room_dict[pair[0]], room_dict[pair[1]], room_dict[pair[2]])] *)
Definition index_triple (room_dict : gmap string nat)
    (pair : string * string * string) : result (nat * nat * nat) :=
  a ← getitem room_dict pair.1.1;
  d ← getitem room_dict pair.1.2;
  b ← getitem room_dict pair.2;
  Ok (a, d, b).

Definition generate_bubble_diagram (response : Response) : result Diagram :=
  let room_list := modified_room_list response in
  let room_name_dict := py_dict (zip (complete_room_list response) room_list) in
  let real_nodes_len := length room_list in
  connection ← py_map (translate_pair room_name_dict) (connection response);
  front_door ← py_map (getitem room_name_dict) (front_door response);
  let interior_door_list := door_list "interior_door" (length connection) in
  let room_list := room_list ++ interior_door_list in
  let front_door_list := door_list "front_door" (length front_door) in
  let room_list := room_list ++ front_door_list in
  let connection := with_doors connection in
  let room_list_indices := room_type_index <$> room_list in
  let room_dict := make_room_dict room_list in
  connection ← py_map (index_triple room_dict) connection;
  let triples := initial_triples (length room_list) in
  triples ← connect_rooms real_nodes_len connection triples;
  triples ← foldM (add_front_door room_dict) triples (enumerate1 front_door);
  let organized_triples := sorted triple_key key_leb triples in
  Ok {| room_list_indices := room_list_indices;
        graph_edges := organized_triples;
        room_name_dict := room_name_dict;
        room_list := room_list |}.

(** The scenario of the spec: a kitchen and a bedroom, connected, and a
    front door in the kitchen. *)
Definition scenario : Response :=
  {| complete_room_list := ["kitchen1"; "bedroom1"];
     modified_room_list := ["kitchen1"; "bedroom1"];
     connection := [("kitchen1", "bedroom1")];
     front_door := ["kitchen1"] |}%string.

(** ** generate_bubble_diagram, from the object that json.loads returns *)

(** The object as lines 261-272 read it: any of the four keys can be
    missing, and an entry of [connection] is a list of names of any
    length, of which the code reads [pair[0]] and [pair[1]]. *)
Record Object : Type := {
  object_complete_room_list : option (list string);
  object_modified_room_list : option (list string);
  object_connection : option (list (list string));
  object_front_door : option (list string);
}.

(** [response[key]] *)
Definition object_getitem {A} (key : string) (value : option A) : result A :=
  match value with
  | Some v => Ok v
  | None => Raise (KeyError key)
  end.

(** [pair[i]] *)
Definition list_getitem {A} (l : list A) (i : nat) : result A :=
  match l !! i with
  | Some x => Ok x
  | None => Raise IndexError
  end.

(** The element of the comprehension of line 269, on an entry of any
    length: [[room_name_dict[pair[0]], room_name_dict[pair[1]]]],
    evaluated from left to right. *)
Definition translate_entry (room_name_dict : gmap string string)
    (pair : list string) : result (string * string) :=
  p0 ← list_getitem pair 0;
  a ← getitem room_name_dict p0;
  p1 ← list_getitem pair 1;
  b ← getitem room_name_dict p1;
  Ok (a, b).

(** Lines 261-322, with the four keys read where the code reads them. *)
Definition generate_bubble_diagram_object (response : Object) : result Diagram :=
  complete_room_list ←
    object_getitem "complete_room_list" (object_complete_room_list response);
  room_list ← object_getitem "modified_room_list" (object_modified_room_list response);
  let room_name_dict := py_dict (zip complete_room_list room_list) in
  let real_nodes_len := length room_list in
  connection ← object_getitem "connection" (object_connection response);
  connection ← py_map (translate_entry room_name_dict) connection;
  front_door ← object_getitem "front_door" (object_front_door response);
  front_door ← py_map (getitem room_name_dict) front_door;
  let interior_door_list := door_list "interior_door" (length connection) in
  let room_list := room_list ++ interior_door_list in
  let front_door_list := door_list "front_door" (length front_door) in
  let room_list := room_list ++ front_door_list in
  let connection := with_doors connection in
  let room_list_indices := room_type_index <$> room_list in
  let room_dict := make_room_dict room_list in
  connection ← py_map (index_triple room_dict) connection;
  let triples := initial_triples (length room_list) in
  triples ← connect_rooms real_nodes_len connection triples;
  triples ← foldM (add_front_door room_dict) triples (enumerate1 front_door);
  let organized_triples := sorted triple_key key_leb triples in
  Ok {| room_list_indices := room_list_indices;
        graph_edges := organized_triples;
        room_name_dict := room_name_dict;
        room_list := room_list |}.

(** The two names that the code reads in a connection entry. *)
Definition entry_pair (pair : list string) : option (string * string) :=
  match pair with
  | a :: b :: _ => Some (a, b)
  | _ => None
  end.

(** The response that an object holds when it has the four keys and at
    least two names in every connection entry. *)
Definition response_of (o : Object) : option Response :=
  complete ← object_complete_room_list o;
  modified ← object_modified_room_list o;
  entries ← object_connection o;
  front ← object_front_door o;
  pairs ← mapM entry_pair entries;
  Some {| complete_room_list := complete; modified_room_list := modified;
          connection := pairs; front_door := front |}.

(** A response as the object that holds it. *)
Definition object_of (r : Response) : Object :=
  {| object_complete_room_list := Some (complete_room_list r);
     object_modified_room_list := Some (modified_room_list r);
     object_connection := Some ((λ p, [p.1; p.2]) <$> connection r);
     object_front_door := Some (front_door r) |}.

(** ** Locating the JSON object in the response text *)

Abbreviation text := (list ascii).

Definition lbrace : ascii := "{"%char.
Definition rbrace : ascii := "}"%char.
Definition newline : ascii := "010"%char.
Definition space : ascii := " "%char.

(** [s.replace(c, '')] for a one-character [c] *)
Definition remove_char (c : ascii) (s : text) : text := filter (λ x, x ≠ c) s.

(** [response_str.replace('\n', '').replace(' ', '')] *)
Definition raw_response_of (response_str : text) : text :=
  remove_char space (remove_char newline response_str).

(** The language of the pattern [\{(?:[^{}]|(?R))*\}] of line 255:
    [body] is what [(?:[^{}]|(?R))*] matches, a sequence of characters
    other than braces and of whole matches; [balanced] is what the whole
    pattern, and so [(?R)], matches. *)
Inductive body : text → Prop :=
  | body_nil : body []
  | body_char c b : c ≠ lbrace → c ≠ rbrace → body b → body (c :: b)
  | body_group b1 b2 : body b1 → body b2 → body (lbrace :: b1 ++ rbrace :: b2).

Definition balanced (m : text) : Prop := ∃ b, m = lbrace :: b ++ [rbrace] ∧ body b.

(** The matcher at one position, after the opening brace: [scan d s] is
    the number of characters up to and including the brace that closes the
    opening one, [d] further braces being open. *)
Fixpoint scan (d : nat) (s : text) : option nat :=
  match s with
  | [] => None
  | c :: s' =>
      if decide (c = lbrace) then S <$> scan (S d) s'
      else if decide (c = rbrace) then
        match d with
        | 0 => Some 1
        | S d' => S <$> scan d' s'
        end
      else S <$> scan d s'
  end.

(** The match of the pattern at the start of [s], if there is one. *)
Definition match_here (s : text) : option text :=
  match s with
  | c :: s' => if decide (c = lbrace) then n ← scan 0 s'; Some (take (S n) s) else None
  | [] => None
  end.

(** [regex.search(pattern, s)]: the match at the first position that has one. *)
Fixpoint regex_search (s : text) : option text :=
  match match_here s with
  | Some m => Some m
  | None =>
      match s with
      | [] => None
      | _ :: s' => regex_search s'
      end
  end.

(** [regex.search(pattern, raw_response).group()]: [search] returns [None]
    when nothing matches, and [None.group()] raises [AttributeError]. *)
Definition locate_json (response_str : text) : result text :=
  match regex_search (raw_response_of response_str) with
  | Some m => Ok m
  | None => Raise AttributeError
  end.

Section parse.
(** [json.loads], and reading the four keys of the object. *)
Context (json_loads : text → result Response).

Definition parse_response (response_str : text) : result Response :=
  m ← locate_json response_str; json_loads m.

(** [generate_bubble_diagram] from the text of the response on. *)
Definition bubble_diagram_of_text (response_str : text) : result Diagram :=
  response ← parse_response response_str; generate_bubble_diagram response.
End parse.

(** ** generate_layout_masks *)

(** [np.where(l == t)[0]] for a one-dimensional [l]: the positions that
    hold [t], ascending. *)
Definition where_eq `{EqDecision A} (l : list A) (t : A) : list nat :=
  fst <$> filter (λ ix : nat * A, ix.2 = t) (imap (λ i x, (i, x)) l).

(** [np.where(nodes == 1)[-1]]: the column of every entry equal to 1, row
    by row. On one-hot rows this is one column per node, its type. *)
Definition real_nodes_of (nodes : list (list Z)) : list nat :=
  row ← nodes; where_eq row 1%Z.

(** [sorted(list(set(l)))] *)
Definition sorted_set (l : list nat) : list nat :=
  sorted id Nat.leb (remove_dups l).

(** [[_types[:k+1] for k in range(10)]] *)
Definition selected_types (_types : list nat) : list (list nat) :=
  (λ k, take (k + 1) _types) <$> seq 0 10.

(** [np.concatenate([np.where(real_nodes == _t)[0] for _t in _types])
     if len(_types) > 0 else np.array([])] *)
Definition fixed_nodes_of (real_nodes _types : list nat) : list nat :=
  if bool_decide (0 < length _types) then _types ≫= where_eq real_nodes else [].

Section layout.
(** The generator is a black box: [_infer] takes the graph and the state
    and returns masks; [World] stands for what it reads besides (weights,
    noise). *)
Context {Masks World : Type}.

Record State : Type := {
  masks : option Masks;            (* None before the first pass *)
  fixed_nodes : list nat;
}.

Definition Graph : Type := list (list Z) * list triple.

Context (_infer : Graph → State → World → Masks * World).

(** A call of [_infer], recorded in a log of the states it was given. *)
Definition call_infer (graph : Graph) (state : State) (w : World * list State)
    : Masks * (World * list State) :=
  let '(m, w') := _infer graph state w.1 in (m, (w', w.2 ++ [state])).

Definition generate_layout_masks (nodes : list (list Z)) (edges : list triple)
    (w : World * list State) : Masks * (World * list State) :=
  let real_nodes := real_nodes_of nodes in
  let graph := (nodes, edges) in
  let _types := sorted_set real_nodes in
  let selected_types := selected_types _types in
  let state := {| masks := None; fixed_nodes := [] |} in
  let '(masks, w) := call_infer graph state w in
  foldl (λ (acc : Masks * (World * list State)) _types,
           let _fixed_nodes := fixed_nodes_of real_nodes _types in
           let state := {| masks := Some acc.1; fixed_nodes := _fixed_nodes |} in
           call_infer graph state acc.2)
        (masks, w) selected_types.
End layout.

Arguments State : clear implicits.

(** Modelled from the spec: [utils.one_hot_embedding] (floorplan/utils.py is
    not in the sources); each type code becomes a one-hot row over
    [num_classes] codes. *)
Definition one_hot_embedding (num_classes : nat) (labels : list nat) : list (list Z) :=
  (λ c, (λ j, if decide (j = c) then 1%Z else 0%Z) <$> seq 0 num_classes) <$> labels.

(** [utils.one_hot_embedding(room_list_indices)[:, 1:]] *)
Definition graph_nodes (num_classes : nat) (d : Diagram) : list (list Z) :=
  drop 1 <$> one_hot_embedding num_classes (room_list_indices d).

(** The fixed nodes of round [k] as the spec words them: the real-room
    nodes (nodes whose type is not a door type) whose type is among the
    first [k + 1] of [types], the ascending list of distinct types.
    Columns are type codes less one, so the doors are the columns 14 and
    16. *)
Definition is_door_type (t : nat) : Prop := t = 14 ∨ t = 16.

Definition spec_fixed_nodes (real_nodes types : list nat) (k : nat) : list nat :=
  fst <$> filter (λ ix : nat * nat, ¬ is_door_type ix.2 ∧ ix.2 ∈ take (k + 1) types)
                 (imap (λ i x, (i, x)) real_nodes).

(** The distinct types of the real rooms alone. *)
Definition room_types (real_nodes : list nat) : list nat :=
  sorted_set (filter (λ t, ¬ is_door_type t) real_nodes).

(** * Vocabulary of the statements *)

(** [signed_complete n P l]: the triples [l] hold exactly one triple
    [(i, s, j)] for every pair [i < j < n], its polarity [s] is [-1] or
    [+1], and it is [+1] exactly on the pairs in [P]. *)
Record signed_complete (n : nat) (P : nat → nat → Prop) (l : list triple) : Prop := {
  sc_nodup : NoDup (triple_key <$> l);
  sc_range : ∀ i s j, (i, s, j) ∈ l → i < j < n ∧ (s = (-1)%Z ∨ s = 1%Z);
  sc_total : ∀ i j, i < j < n → ∃ s, (i, s, j) ∈ l;
  sc_pos : ∀ i j, (i, 1%Z, j) ∈ l ↔ P i j;
}.

(** [t1] comes before [t2] in the order of the sort key. *)
Definition key_le (t1 t2 : triple) : Prop :=
  key_leb (triple_key t1) (triple_key t2) = true.

(** The pairs made [+1] by the connection loop: a pair [i < j] of real
    rooms named by some connection, and both rooms with the door of the
    first such connection. *)
Definition door_edge (L : nat) (conn : list (nat * nat * nat)) (u v : nat) : Prop :=
  ∃ i j e, i < j < L ∧ head (edge_doors conn i j) = Some e ∧
    ((u = i ∧ v = e) ∨ (u = j ∧ v = e) ∨ (u = i ∧ v = j)).

(** The pairs flipped before the loop reaches [(i0, j0)]. *)
Definition connected_upto (L : nat) (conn : list (nat * nat * nat))
    (i0 j0 u v : nat) : Prop :=
  ∃ i j e, (i < i0 ∨ (i = i0 ∧ j < j0)) ∧ i < j < L ∧
    head (edge_doors conn i j) = Some e ∧
    ((u = i ∧ v = e) ∨ (u = j ∧ v = e) ∨ (u = i ∧ v = j)).

(** The pairs made [+1] by the front-door loop: the node of the [k]-th
    entry with the node named [front_door<k+1>]. *)
Definition front_edge (room_dict : gmap string nat) (fd : list string) (u v : nat) : Prop :=
  ∃ k room, fd !! k = Some room ∧ room_dict !! room = Some u ∧
    room_dict !! ("front_door" +:+ str (S k)) = Some v.

(** The pairs flipped before the loop reaches the [m]-th entry. *)
Definition front_upto (room_dict : gmap string nat) (fd : list string)
    (m u v : nat) : Prop :=
  ∃ k room, k < m ∧ fd !! k = Some room ∧ room_dict !! room = Some u ∧
    room_dict !! ("front_door" +:+ str (S k)) = Some v.

(** [room_list] after the two [extend]s: the real rooms, [C] interior
    doors, [F] front doors. *)
Definition nodes_of (modified : list string) (C F : nat) : list string :=
  modified ++ door_list "interior_door" C ++ door_list "front_door" F.

(** [room_dict[room_name_dict[name]]]: the node a room name resolves to. *)
Definition room_node (d : Diagram) (name : string) : option nat :=
  room_name_dict d !! name ≫= λ room, make_room_dict (room_list d) !! room.

(** The [k]-th connection links the nodes [i] and [j]. *)
Definition connects (r : Response) (d : Diagram) (k i j : nat) : Prop :=
  ∃ a b, connection r !! k = Some (a, b) ∧
    ((room_node d a = Some i ∧ room_node d b = Some j) ∨
     (room_node d a = Some j ∧ room_node d b = Some i)).

#[global] Instance connects_dec r d k i j : Decision (connects r d k i j).
Proof.
  unfold connects. destruct (connection r !! k) as [[a b]|].
  - destruct (decide ((room_node d a = Some i ∧ room_node d b = Some j) ∨
                      (room_node d a = Some j ∧ room_node d b = Some i))) as [Hab|Hab].
    + left. by exists a, b.
    + right. by intros (a' & b' & [= <- <-] & Hab').
  - right. by intros (a' & b' & [=] & _).
Defined.

(** The pairs at polarity [+1]: for real rooms [i < j] and the first
    connection [k] that links them, the pairs room-room and room-door;
    for the [k]-th front-door entry, the pair room-front door. *)
Definition positive_edge (r : Response) (d : Diagram) (u v : nat) : Prop :=
  let L := length (modified_room_list r) in
  let C := length (connection r) in
  (∃ i j k, i < j < L ∧ connects r d k i j ∧ (∀ k', k' < k → ¬ connects r d k' i j) ∧
     ((u = i ∧ v = L + k) ∨ (u = j ∧ v = L + k) ∨ (u = i ∧ v = j))) ∨
  (∃ k name, front_door r !! k = Some name ∧ room_node d name = Some u ∧ v = L + C + k).

(** No room carries the name of a synthesized door node (the standardized
    types are the ten room types, never [interior_door] or [front_door]). *)
Definition door_free (r : Response) : Prop :=
  ∀ room, room ∈ modified_room_list r →
    room ∉ door_list "interior_door" (length (connection r)) ++
           door_list "front_door" (length (front_door r)).

(** Every connection and front-door entry names a room of
    [complete_room_list], which lines up with [modified_room_list]. *)
Definition references_resolve (r : Response) : Prop :=
  length (complete_room_list r) = length (modified_room_list r) ∧
  (∀ a b, (a, b) ∈ connection r →
     a ∈ complete_room_list r ∧ b ∈ complete_room_list r) ∧
  (∀ name, name ∈ front_door r → name ∈ complete_room_list r).

(** Two entries of the connection list name the same unordered pair. *)
Definition same_pair (p q : string * string) : Prop :=
  (p.1 = q.1 ∧ p.2 = q.2) ∨ (p.1 = q.2 ∧ p.2 = q.1).

Record well_formed (r : Response) : Prop := {
  wf_refs : references_resolve r;
  wf_door_free : door_free r;
  wf_distinct : NoDup (modified_room_list r);
  wf_no_self_loop : ∀ a b, (a, b) ∈ connection r → a ≠ b;
  wf_no_duplicate : ∀ k k' p q,
    connection r !! k = Some p → connection r !! k' = Some q → same_pair p q → k = k';
}.

#[global] Instance same_pair_dec p q : Decision (same_pair p q).
Proof. unfold same_pair. apply _. Defined.

(** The edge triple of the unordered pair [{u, v}] carries polarity [s]. *)
Definition polarity (edges : list triple) (u v : nat) (s : Z) : Prop :=
  (u `min` v, s, u `max` v) ∈ edges.


Definition no_duplicate_at (r : Response) (k k' : nat) : Prop :=
  match connection r !! k, connection r !! k' with
  | Some p, Some q => same_pair p q → k = k'
  | _, _ => True
  end.

#[global] Instance no_duplicate_at_dec r k k' : Decision (no_duplicate_at r k k').
Proof.
  unfold no_duplicate_at.
  destruct (connection r !! k), (connection r !! k'); apply _.
Defined.

(** [well_formed], with every quantifier bounded by a list. *)
Definition well_formed_check (r : Response) : Prop :=
  length (complete_room_list r) = length (modified_room_list r) ∧
  Forall (λ p, p.1 ∈ complete_room_list r ∧ p.2 ∈ complete_room_list r) (connection r) ∧
  Forall (λ name, name ∈ complete_room_list r) (front_door r) ∧
  Forall (λ room, room ∉ door_list "interior_door" (length (connection r)) ++
                         door_list "front_door" (length (front_door r)))
    (modified_room_list r) ∧
  NoDup (modified_room_list r) ∧
  Forall (λ p, p.1 ≠ p.2) (connection r) ∧
  Forall (λ k, Forall (no_duplicate_at r k) (seq 0 (length (connection r))))
    (seq 0 (length (connection r))).

#[global] Instance well_formed_check_dec r : Decision (well_formed_check r).
Proof. unfold well_formed_check. apply _. Defined.

Definition dangling : Response :=
  {| complete_room_list := ["kitchen1"; "bedroom1"];
     modified_room_list := ["kitchen1"; "bedroom1"];
     connection := [("kitchen1", "garage1")];
     front_door := ["kitchen1"] |}%string.

Definition twin_bedrooms : Response :=
  {| complete_room_list := ["master bedroom"; "guest bedroom"; "kitchen"];
     modified_room_list := ["bedroom1"; "bedroom1"; "kitchen1"];
     connection := [("master bedroom", "kitchen")];
     front_door := ["master bedroom"] |}%string.

(** Five rooms, every two of them connected: ten connections. *)
Definition ten_connections : Response :=
  let rooms := ["living_room1"; "kitchen1"; "bedroom1"; "bathroom1"; "balcony1"]%string in
  {| complete_room_list := rooms;
     modified_room_list := rooms;
     connection :=
       [("living_room1", "kitchen1"); ("living_room1", "bedroom1");
        ("living_room1", "bathroom1"); ("living_room1", "balcony1");
        ("kitchen1", "bedroom1"); ("kitchen1", "bathroom1"); ("kitchen1", "balcony1");
        ("bedroom1", "bathroom1"); ("bedroom1", "balcony1");
        ("bathroom1", "balcony1")]%string;
     front_door := ["living_room1"]%string |}.

(** The response without its [k]-th connection. *)
Definition remove_connection (k : nat) (r : Response) : Response :=
  {| complete_room_list := complete_room_list r;
     modified_room_list := modified_room_list r;
     connection := delete k (connection r);
     front_door := front_door r |}.




(** The graph of the scenario: a kitchen, a bedroom, their interior door
    and a front door, with a generator that returns nothing of interest. *)
Definition scenario_diagram : Diagram :=
  match generate_bubble_diagram scenario with
  | Ok d => d
  | Raise _ => {| room_list_indices := []; graph_edges := [];
                  room_name_dict := ∅; room_list := [] |}
  end.

Definition scenario_nodes : list (list Z) := graph_nodes 18 scenario_diagram.

Definition stub_infer : Graph → State unit → unit → unit * unit := λ _ _ w, (tt, w).

Definition scenario_log : list (State unit) :=
  (generate_layout_masks stub_infer scenario_nodes (graph_edges scenario_diagram) (tt, [])).2.2.

(** [closes d w]: [w] closes [d + 1] open braces, nothing left over. *)
Inductive closes : nat → text → Prop :=
  | closes_O b : body b → closes 0 (b ++ [rbrace])
  | closes_S d b w : body b → closes d w → closes (S d) (b ++ rbrace :: w).

(** Response texts, written with ['] for the double quote. *)
Definition json_text (s : string) : text :=
  (λ c, if decide (c = "'"%char) then "034"%char else c) <$> String.list_ascii_of_string s.

Definition first_object : text :=
  json_text ("{'complete_room_list':['kitchen1','bedroom1']," +:+
             "'modified_room_list':['kitchen1','bedroom1']," +:+
             "'connection':[['kitchen1','bedroom1']],'front_door':['kitchen1']}").

Definition second_object : text :=
  json_text ("{'complete_room_list':['hall1'],'modified_room_list':['entrance1']," +:+
             "'connection':[],'front_door':['hall1']}").

Definition two_objects : text :=
  json_text "Here is the floorplan: " ++ first_object ++
  json_text " and here is another one: " ++ second_object.

(** ** Vocabulary of the further properties *)

(** The order of the sort key [(x[0], x[2])], strict. *)
Definition key_lt (t1 t2 : triple) : Prop :=
  t1.1.1 < t2.1.1 ∨ (t1.1.1 = t2.1.1 ∧ t1.2 < t2.2).

(** Every name that a connection or a front-door entry mentions is a key
    of [room_name_dict] (lines 269 and 272 find it). *)
Definition names_resolve (r : Response) : Prop :=
  let rnd := py_dict (zip (complete_room_list r) (modified_room_list r)) in
  (∀ a b, (a, b) ∈ connection r → is_Some (rnd !! a) ∧ is_Some (rnd !! b)) ∧
  (∀ name, name ∈ front_door r → is_Some (rnd !! name)).

(** The node of the room of the [k]-th front-door entry:
    [room_dict[room_name_dict[front_door[k]]]] (lines 272 and 315). *)
Definition front_room_node (r : Response) (k : nat) : option nat :=
  name ← front_door r !! k;
  room ← py_dict (zip (complete_room_list r) (modified_room_list r)) !! name;
  make_room_dict (nodes_of (modified_room_list r) (length (connection r))
                    (length (front_door r))) !! room.

(** The room of every front-door entry is a node before the node of that
    entry's front door. *)
Definition front_rooms_precede (r : Response) : Prop :=
  ∀ k i, front_room_node r k = Some i →
    i < length (modified_room_list r) + length (connection r) + k.

Definition front_room_precedes (r : Response) (k : nat) : Prop :=
  match front_room_node r k with
  | Some i => i < length (modified_room_list r) + length (connection r) + k
  | None => True
  end.

#[global] Instance front_room_precedes_dec r k : Decision (front_room_precedes r k).
Proof. unfold front_room_precedes. destruct (front_room_node r k); apply _. Defined.

(** The response with the two names of its [k]-th connection exchanged. *)
Definition swap_connection (k : nat) (r : Response) : Response :=
  {| complete_room_list := complete_room_list r;
     modified_room_list := modified_room_list r;
     connection := alter (λ p, (p.2, p.1)) k (connection r);
     front_door := front_door r |}.

(** The response object when [generate_bubble_diagram] returns.
    [room_list] is the list [response["modified_room_list"]] itself (line
    262), so the two [extend]s of lines 276 and 278 have grown it to the
    whole node list; lines 269, 272 and 279 build new lists and leave
    [response["connection"]] and [response["front_door"]] as they were.
    This is the object that [str(response)] prints on line 324. *)
Definition response_at_return (r : Response) (d : Diagram) : Response :=
  {| complete_room_list := complete_room_list r;
     modified_room_list := room_list d;
     connection := connection r;
     front_door := front_door r |}.

(** Node indices of a graph inside the graph of the response printed at
    its return and compiled again: the door nodes move up by [m]. *)
Definition lift (L m x : nat) : nat := if decide (x < L) then x else x + m.

(** A front-door entry whose room is standardized to the name of a front
    door node. *)
Definition porch : Response :=
  {| complete_room_list := ["porch"];
     modified_room_list := ["front_door1"];
     connection := [];
     front_door := ["porch"] |}%string.

(** A room connected to itself. *)
Definition self_loop : Response :=
  {| complete_room_list := ["kitchen1"; "bedroom1"];
     modified_room_list := ["kitchen1"; "bedroom1"];
     connection := [("kitchen1", "kitchen1")];
     front_door := ["kitchen1"] |}%string.

(** No room at all. *)
Definition empty_response : Response :=
  {| complete_room_list := []; modified_room_list := [];
     connection := []; front_door := [] |}.

(** A node that some connection or front-door entry resolves to. *)
Definition mentioned (r : Response) (d : Diagram) (x : nat) : Prop :=
  Exists (λ pair, room_node d pair.1 = Some x ∨ room_node d pair.2 = Some x)
    (connection r) ∨
  Exists (λ name, room_node d name = Some x) (front_door r).

(** The scenario of the spec with a storage room that nothing mentions. *)
Definition spare_room : Response :=
  {| complete_room_list := ["kitchen1"; "bedroom1"; "storage1"];
     modified_room_list := ["kitchen1"; "bedroom1"; "storage1"];
     connection := [("kitchen1", "bedroom1")];
     front_door := ["kitchen1"] |}%string.

(** The calls of [_infer] replayed on a list of states, from the world
    [w] on: what each call returns and the world it leaves. *)
Fixpoint passes {Masks World : Type} (_infer : Graph → State Masks → World → Masks * World)
    (graph : Graph) (w : World) (sts : list (State Masks)) : list (Masks * World) :=
  match sts with
  | [] => []
  | st :: sts =>
      let '(m, w') := _infer graph st w in (m, w') :: passes _infer graph w' sts
  end.

(** ** Vocabulary of the object before its keys are read *)

(** The key that the code looks up and the object lacks: the first such
    one in the order of the reads of lines 261, 262, 266 and 271. *)
Definition missing_key (o : Object) (key : string) : Prop :=
  match object_complete_room_list o, object_modified_room_list o,
        object_connection o, object_front_door o with
  | None, _, _, _ => key = "complete_room_list"%string
  | Some _, None, _, _ => key = "modified_room_list"%string
  | Some _, Some _, None, _ => key = "connection"%string
  | Some _, Some _, Some _, None => key = "front_door"%string
  | Some _, Some _, Some _, Some _ => False
  end.

(** A name that the code reads: one of the first two of a connection
    entry, or a front-door entry. *)
Definition object_mentions (o : Object) (name : string) : Prop :=
  (∃ entries pair, object_connection o = Some entries ∧ pair ∈ entries ∧
     (pair !! 0 = Some name ∨ pair !! 1 = Some name)) ∨
  (∃ front, object_front_door o = Some front ∧ name ∈ front).

(** [room_name_dict] of an object that has the two room lists. *)
Definition object_room_name_dict (o : Object) : gmap string string :=
  py_dict (zip (default [] (object_complete_room_list o))
               (default [] (object_modified_room_list o))).




(** A connection entry of one name before a connection to a room that is
    listed nowhere. *)
Definition short_entry : Object :=
  {| object_complete_room_list := Some ["kitchen1"; "bedroom1"];
     object_modified_room_list := Some ["kitchen1"; "bedroom1"];
     object_connection := Some [["kitchen1"]; ["kitchen1"; "garage1"]];
     object_front_door := Some ["kitchen1"] |}%string.

(** * The callers: generate_floorplan, generate_house_mesh and the batch script *)

(** The calls into code that these sources do not hold: the HouseGAN++
    generator behind [_infer], [floorplan/utils.py], the chat endpoint,
    [json] and [str]. [Outside] is all that they read and change besides
    their arguments (weights, noise, the endpoint, the screen); what they
    return and the program only hands on is of the one type [Value]. *)
Class Externals : Type := {
  Outside : Type;
  Tensor : Type;
  Value : Type;
  (* self._infer(graph, model, state) *)
  infer : Graph → State Tensor → Outside → Tensor * Outside;
  (* draw_graph([real_nodes, edges])[1], the image that line 344 saves *)
  draw_graph : list nat → list triple → Value;
  (* draw_masks(masks.copy(), real_nodes), the image that save_image writes *)
  draw_masks : Tensor → list nat → Value;
  (* utils.one_hot_embedding(room_list_indices) *)
  utils_one_hot_embedding : list nat → list (list Z);
  (* utils.check_post_processing(nodes, edges, masks, doors, img_size) *)
  utils_check_post_processing :
    list (list Z) → list triple → Tensor → list nat → nat → Outside →
    (bool * Value * Value * Value) * Outside;
  (* utils.generate_border_map_no_doors(result_map_no_doors, result_masks, doors, nodes, edges) *)
  utils_generate_border_map_no_doors :
    Value → Value → list nat → list (list Z) → list triple → Outside →
    (Value * Value) * Outside;
  (* utils.get_room_boundaries(border_map_no_doors, len(room_list) - 1, start_coors) *)
  utils_get_room_boundaries : Value → Z → Value → Outside → (Value * Value) * Outside;
  (* utils.visualize_map_with_centers(border_map_no_doors, boxes, centers) *)
  utils_visualize_map_with_centers : Value → Value → Value → Outside → Outside;
  (* utils.find_segments(border_map_no_doors) *)
  utils_find_segments : Value → Outside → Value * Outside;
  (* utils.write_to_obj(segments, border_map_no_doors) *)
  utils_write_to_obj : Value → Value → Outside → (Value * Value) * Outside;
  (* client.chat.completions.create(model="gpt-4", messages=[{"role": "user",
     "content": content}], ...).choices[0].message.content *)
  chat_completion : text → Outside → text * Outside;
  (* context_msg.format(description) *)
  context_msg_format : text → text;
  (* edit_context_msg.format(description, edit_fp, edit_description) *)
  edit_context_msg_format : text → option text → option text → text;
  (* json.loads(text), read at its four keys *)
  json_loads : text → result Response;
  (* str(response) *)
  str_response : Response → text;
  (* str(value) of a value of the description file that is not a string *)
  str_value : Value → text;
}.

(** A value of an entry of floorplan_description.json. *)
Inductive json `{Externals} : Type :=
  | JStr (s : text)
  | JOther (v : Value).

(** floorplan_description.json as [json.load] reads it: the list under the
    key [floorplans], if there is one, and the rest of the object. *)
Record Description `{Externals} : Type := {
  floorplans : option (list (gmap string json));
  other_keys : Value;
}.

(** The three images that [generate_layout_masks] saves in [output_dir]
    (lines 344, 357 and 369). *)
Record Images `{Externals} : Type := {
  input_graph_png : option Value;            (* input_graph.png *)
  init_fp_png : option Value;                (* init_fp.png *)
  final_fp_png : option Value;               (* final_fp.png *)
}.

(** What the program changes: [Outside], the files it writes, and, as
    records of its calls, the states given to [_infer] and the contents
    sent to the chat endpoint. *)
Record Env `{Externals} : Type := {
  outside : Outside;
  infer_log : list (State Tensor);
  prompts : list text;
  debug_output : option text;                (* debug_output.txt *)
  description_file : option Description;     (* floorplan_description.json *)
  images : Images;
}.

Inductive failure : Type :=
  | Raised (e : exn)
  | EOFError                  (* input() at the end of the input *)
  | FileNotFoundError.        (* open(name, "r") of a file that is not there *)

Inductive outcome (E A : Type) : Type :=
  | Return (a : A) (env : E)
  | Raises (e : failure) (env : E)
  | OutOfFuel.                (* a while loop ran longer than the fuel allows *)
Arguments Return {E A} a env.
Arguments Raises {E A} e env.
Arguments OutOfFuel {E A}.

Definition M (E A : Type) : Type := E → outcome E A.

#[global] Instance M_ret {E} : MRet (M E) := λ A a env, Return a env.
#[global] Instance M_bind {E} : MBind (M E) := λ A B f m env,
  match m env with
  | Return a env' => f a env'
  | Raises e env' => Raises e env'
  | OutOfFuel => OutOfFuel
  end.

Section effects.
Context `{Externals}.

(** An exception of the program's own code. *)
Definition of_result {A} (r : result A) : M Env A := λ env,
  match r with
  | Ok a => Return a env
  | Raise e => Raises (Raised e) env
  end.

(** A call into [floorplan/utils.py]. *)
Definition call {A} (f : Outside → A * Outside) : M Env A := λ env,
  let '(a, w) := f (outside env) in
  Return a {| outside := w; infer_log := infer_log env; prompts := prompts env;
              debug_output := debug_output env;
              description_file := description_file env; images := images env |}.

(** [self.generate_layout_masks(nodes, edges)]: the passes of
    [generate_layout_masks] and the three images that the method saves,
    the graph (line 344), the masks of the first pass (line 357) and the
    masks that it returns (line 369). *)
Definition call_generate_layout_masks (nodes : list (list Z)) (edges : list triple)
    : M Env Tensor := λ env,
  let real_nodes := real_nodes_of nodes in
  let graph_im := draw_graph real_nodes edges in
  let state := {| masks := None; fixed_nodes := [] |} in
  let im0 := draw_masks (infer (nodes, edges) state (outside env)).1 real_nodes in
  let '(masks, (w, log)) :=
    generate_layout_masks infer nodes edges (outside env, infer_log env) in
  let imk := draw_masks masks real_nodes in
  Return masks {| outside := w; infer_log := log; prompts := prompts env;
                  debug_output := debug_output env;
                  description_file := description_file env;
                  images := {| input_graph_png := Some graph_im;
                               init_fp_png := Some im0;
                               final_fp_png := Some imk |} |}.

(** The chat request with the one user message [content], and reading the
    text of its answer. *)
Definition ask (content : text) : M Env text := λ env,
  let '(answer, w) := chat_completion content (outside env) in
  Return answer {| outside := w; infer_log := infer_log env;
                   prompts := prompts env ++ [content];
                   debug_output := debug_output env;
                   description_file := description_file env; images := images env |}.

(** [with open('debug_output.txt', 'w') as f: f.write(s)] *)
Definition write_debug_output (s : text) : M Env unit := λ env,
  Return () {| outside := outside env; infer_log := infer_log env;
               prompts := prompts env; debug_output := Some s;
               description_file := description_file env; images := images env |}.

(** [with open('floorplan_description.json', 'w') as f: json.dump(doc, f)] *)
Definition write_description_file (doc : Description) : M Env unit := λ env,
  Return () {| outside := outside env; infer_log := infer_log env;
               prompts := prompts env; debug_output := debug_output env;
               description_file := Some doc; images := images env |}.

(** [context_msg.format(description) if not is_edit else
     edit_context_msg.format(description, edit_fp, edit_description)] *)
Definition prompt_content (description : text) (is_edit : bool)
    (edit_description edit_fp : option text) : text :=
  if negb is_edit then context_msg_format description
  else edit_context_msg_format description edit_fp edit_description.

(** The two [f.write]s of lines 250 and 251. *)
Definition debug_text (raw_response response_str : text) : text :=
  String.list_ascii_of_string "Raw Response: " ++ raw_response ++ [space] ++
  String.list_ascii_of_string "Processed Response: " ++ response_str.

(** [list(range(len(room_name_dict), len(room_list)))] *)
Definition door_indices (room_name_dict : gmap string string) (room_list : list string)
    : list nat :=
  seq (size room_name_dict) (length room_list - size room_name_dict).
End effects.

Module FloorplanGenerator.
Section methods.
Context `{Externals}.

(** Lines 104-165. *)
Definition generate_floorplan_from_description (description : text) (is_edit : bool)
    (edit_description edit_fp : option text) : M Env (text * text) :=
  response_str ← ask (prompt_content description is_edit edit_description edit_fp);
  let raw_response := raw_response_of response_str in
  mret (response_str, raw_response).

(** Lines 167-324, the whole method: it returns the diagram and
    [str(response)]; [graph_nodes] is [graph_nodes_of] of the diagram. *)
Definition generate_bubble_diagram (description : text) (is_edit : bool)
    (edit_description edit_fp : option text) : M Env (Diagram * text) :=
  response_str ← ask (prompt_content description is_edit edit_description edit_fp);
  let raw_response := raw_response_of response_str in
  _ ← write_debug_output (debug_text raw_response response_str);
  response ← of_result (parse_response json_loads response_str);
  d ← of_result (generate_bubble_diagram response);
  mret (d, str_response (response_at_return response d)).

(** [utils.one_hot_embedding(room_list_indices)[:, 1:]] *)
Definition graph_nodes_of (d : Diagram) : list (list Z) :=
  drop 1 <$> utils_one_hot_embedding (room_list_indices d).

(** The loop of lines 85-92; it ends with the maps of the attempt that
    [check_post_processing] accepted. *)
Fixpoint generate_floorplan_loop (fuel : nat) (nodes : list (list Z))
    (edges : list triple) (room_name_dict : gmap string string)
    (room_list : list string) : M Env (Value * Value) :=
  match fuel with
  | 0 => λ _, OutOfFuel
  | S fuel =>
      masks ← call_generate_layout_masks nodes edges;
      let img_size := 256 in
      checked ← call (utils_check_post_processing nodes edges masks
                        (door_indices room_name_dict room_list) img_size);
      let '(status, result_map, result_map_no_doors, result_masks) := checked in
      if status : bool then mret (result_map_no_doors, result_masks)
      else generate_floorplan_loop fuel nodes edges room_name_dict room_list
  end.

(** Lines 83-102. *)
Definition generate_floorplan (fuel : nat) (nodes : list (list Z)) (edges : list triple)
    (room_name_dict : gmap string string) (room_list : list string)
    : M Env (Value * Value * Value) :=
  '(result_map_no_doors, result_masks) ←
    generate_floorplan_loop fuel nodes edges room_name_dict room_list;
  '(border_map_no_doors, start_coors) ←
    call (utils_generate_border_map_no_doors result_map_no_doors result_masks
            (door_indices room_name_dict room_list) nodes edges);
  '(boxes, centers) ←
    call (utils_get_room_boundaries border_map_no_doors
            (Z.of_nat (length room_list) - 1)%Z start_coors);
  _ ← call (λ w, ((), utils_visualize_map_with_centers border_map_no_doors boxes centers w));
  mret (border_map_no_doors, boxes, centers).

(** What [generate_house_mesh] keeps from one round to the next. *)
Record Round : Type := {
  round_room_name_dict : gmap string string;
  floorplan_str : text;
  border_map_no_doors : Value;
  boxes : Value;
  centers : Value;
}.

(** Lines 66 and 68, and again lines 74 and 75. *)
Definition bubble_diagram_and_floorplan (fuel : nat) (description : text) (is_edit : bool)
    (edit_description edit_fp : option text) : M Env Round :=
  '(d, floorplan_str) ← generate_bubble_diagram description is_edit edit_description edit_fp;
  '(border_map_no_doors, boxes, centers) ←
    generate_floorplan fuel (graph_nodes_of d) (graph_edges d) (room_name_dict d)
      (room_list d);
  mret {| round_room_name_dict := room_name_dict d; floorplan_str := floorplan_str;
          border_map_no_doors := border_map_no_doors; boxes := boxes;
          centers := centers |}.

(** The loop of lines 70-75, [edit] being true: [inputs] are the lines
    that [input()] has yet to read; it returns those it left unread. *)
Fixpoint edit_loop (fuel : nat) (description : text) (inputs : list text) (round : Round)
    : M Env (Round * list text) :=
  match inputs with
  | [] => λ env, Raises EOFError env
  | edit_description :: inputs =>
      if decide (edit_description = String.list_ascii_of_string "q" ∨ edit_description = [])
      then mret (round, inputs)
      else
        round ← bubble_diagram_and_floorplan fuel description true
                  (Some edit_description) (Some (floorplan_str round));
        edit_loop fuel description inputs round
  end.

(** Lines 23-81. [fuel] bounds the attempts of every call of
    [generate_floorplan]; [inputs] are the lines that [input()] can read,
    and the lines left unread are returned beside the six values of the
    method. *)
Definition generate_house_mesh (fuel : nat) (description : text) (edit : bool)
    (inputs : list text)
    : M Env (Value * Value * Value * gmap string string * Value * Value * list text) :=
  round ← bubble_diagram_and_floorplan fuel description false None None;
  '(round, inputs) ← (if edit then edit_loop fuel description inputs round
                      else mret (round, inputs));
  segments ← call (utils_find_segments (border_map_no_doors round));
  '(house_v, house_f) ← call (utils_write_to_obj segments (border_map_no_doors round));
  mret (house_v, house_f, border_map_no_doors round, round_room_name_dict round,
        boxes round, centers round, inputs).
End methods.
End FloorplanGenerator.

(** src/bb/floorplan_graph_gen.py. Its [print] and its [time.sleep] of a
    random time change nothing that the script reads. *)
Module floorplan_graph_gen.
Section script.
Context `{Externals}.

(** [floorplan[key]] *)
Definition entry_getitem (floorplan : gmap string json) (key : string) : result json :=
  match floorplan !! key with
  | Some v => Ok v
  | None => Raise (KeyError key)
  end.

(** A value as [str.format] prints it. *)
Definition format_value (v : json) : text :=
  match v with
  | JStr s => s
  | JOther v => str_value v
  end.

(** The body of the loop, lines 12-21, for the entry [floorplan] between
    the entries [before] and [after] of the list. *)
Definition process_entry (other : Value) (before : list (gmap string json))
    (floorplan : gmap string json) (after : list (gmap string json))
    : M Env (gmap string json) :=
  prompt ← of_result (entry_getitem floorplan "description");
  graph_pkg ← FloorplanGenerator.generate_floorplan_from_description
                (format_value prompt) false None None;
  let floorplan := <["graph_str" := JStr graph_pkg.1]> floorplan in
  let floorplan := <["graph_raw" := JStr graph_pkg.2]> floorplan in
  _ ← write_description_file
        {| floorplans := Some (before ++ floorplan :: after); other_keys := other |};
  _ ← of_result (entry_getitem floorplan "id");
  mret floorplan.

(** The loop of line 11: the entries are changed in place, so an entry
    that the loop has left is written again with every later entry. *)
Fixpoint process_entries (other : Value) (before after : list (gmap string json))
    : M Env unit :=
  match after with
  | [] => mret ()
  | floorplan :: after =>
      floorplan ← process_entry other before floorplan after;
      process_entries other (before ++ [floorplan]) after
  end.

Definition main : M Env unit := λ env,
  match description_file env with
  | None => Raises FileNotFoundError env
  | Some floorplan_description =>
      match floorplans floorplan_description with
      | None => Raises (Raised (KeyError "floorplans")) env
      | Some entries => process_entries (other_keys floorplan_description) [] entries env
      end
  end.
End script.
End floorplan_graph_gen.

(** Stand-ins for the calls from outside, for the examples: [Outside]
    counts the calls of the validator, which accepts from its second call
    on; the chat endpoint answers every request with the scenario. *)
Definition stub_externals : Externals :=
  {| Outside := nat; Tensor := unit; Value := unit;
     infer := λ _ _ w, ((), w);
     draw_graph := λ _ _, ();
     draw_masks := λ _ _, ();
     utils_one_hot_embedding := one_hot_embedding 19;
     utils_check_post_processing := λ _ _ _ _ _ w, ((1 <=? w, (), (), ()), S w);
     utils_generate_border_map_no_doors := λ _ _ _ _ _ w, (((), ()), w);
     utils_get_room_boundaries := λ _ _ _ w, (((), ()), w);
     utils_visualize_map_with_centers := λ _ _ _ w, w;
     utils_find_segments := λ _ w, ((), w);
     utils_write_to_obj := λ _ _ w, (((), ()), w);
     chat_completion := λ _ w, (first_object, w);
     context_msg_format := λ description, description;
     edit_context_msg_format := λ description edit_fp edit_description,
       description ++ default [] edit_fp ++ default [] edit_description;
     json_loads := λ _, Ok scenario;
     str_response := λ r, concat (String.list_ascii_of_string <$> modified_room_list r);
     str_value := λ _, [] |}.

Definition stub_env : @Env stub_externals :=
  @Build_Env stub_externals (0 : nat) [] [] None None
    (@Build_Images stub_externals None None None).

(** The environment after the loop of [generate_floorplan] on the empty
    graph: the validator has been called twice. *)
Definition stub_env_accepted : @Env stub_externals :=
  Eval vm_compute in
  match FloorplanGenerator.generate_floorplan_loop (H := stub_externals) 5 [] [] ∅ []
          stub_env with
  | Return _ env' => env'
  | _ => stub_env
  end.



(** An editing session on the stand-ins: one request, then [q], and a
    line that is never read. *)
Definition stub_inputs : list text :=
  String.list_ascii_of_string <$> ["add a balcony"; "q"; "never read"]%string.


Definition stub_unedited :=
  Eval vm_compute in
  FloorplanGenerator.generate_house_mesh (H := stub_externals) 5 [] false stub_inputs stub_env.

(** The answers of the chat endpoint to the requests [contents], sent one
    after the other from [w] on, and [Outside] after them. *)
Fixpoint replies `{Externals} (contents : list text) (w : Outside) : list text :=
  match contents with
  | [] => []
  | content :: contents =>
      let '(answer, w') := chat_completion content w in answer :: replies contents w'
  end.

Fixpoint outside_after `{Externals} (contents : list text) (w : Outside) : Outside :=
  match contents with
  | [] => w
  | content :: contents => outside_after contents (chat_completion content w).2
  end.

(** An entry with the two keys that the script sets (lines 15 and 16). *)
Definition with_graph `{Externals} (floorplan : gmap string json) (answer : text)
    : gmap string json :=
  <["graph_raw" := JStr (raw_response_of answer)]> (<["graph_str" := JStr answer]> floorplan).

(** The prompt that the script sends for an entry, if the entry has a
    description. *)
Definition entry_prompt `{Externals} (floorplan : gmap string json) : option text :=
  (λ v, context_msg_format (floorplan_graph_gen.format_value v)) <$>
    floorplan !! "description".

(** An entry that the script can process: it has a description, whose
    prompt is [content], and an id. *)
Definition complete_entry `{Externals} (floorplan : gmap string json) (content : text)
    : Prop :=
  entry_prompt floorplan = Some content ∧ is_Some (floorplan !! "id").

(** A description file of two entries, the second without a description. *)
Definition stub_entries : list (gmap string (@json stub_externals)) :=
  [ {[ "id" := JStr (String.list_ascii_of_string "1");
       "description" := JStr (String.list_ascii_of_string "a flat") ]};
    {[ "id" := JStr (String.list_ascii_of_string "2") ]} ]%string.

Definition stub_description (entries : list (gmap string (@json stub_externals)))
    : @Env stub_externals :=
  @Build_Env stub_externals (0 : nat) [] [] None
    (Some {| floorplans := Some entries; other_keys := () |})
    (@Build_Images stub_externals None None None).


(** * Proofs *)

(** ** The result monad *)

Lemma bind_Ok {A B} (f : A → result B) (m : result A) (b : B) :
  m ≫= f = Ok b ↔ ∃ a, m = Ok a ∧ f a = Ok b.
Proof.
  destruct m as [a|e]; simpl.
  - split; [by exists a | by intros (? & [= <-] & ?)].
  - split; [done | by intros (? & ? & ?)].
Qed.


Lemma py_map_Ok {A B} (f : A → result B) l l' :
  py_map f l = Ok l' ↔ Forall2 (λ x y, f x = Ok y) l l'.
Proof.
  revert l'. induction l as [|x l IH]; intros l'; simpl.
  - split; [intros [= <-]; constructor | by inversion 1].
  - rewrite bind_Ok. split.
    + intros (y & Hy & H). apply bind_Ok in H as (ys & Hys & [= <-]).
      constructor; [done | by apply IH].
    + inversion 1 as [|? y ? ys Hy Hys]; subst. exists y. split; [done|].
      apply IH in Hys. by rewrite Hys.
Qed.

Lemma py_map_total {A B} (f : A → result B) l :
  (∀ x, x ∈ l → ∃ y, f x = Ok y) → ∃ l', py_map f l = Ok l'.
Proof.
  induction l as [|x l IH]; intros Hf; simpl; [by eexists|].
  destruct (Hf x) as [y Hy]; [by left|]. rewrite Hy. simpl.
  destruct IH as [ys Hys]; [intros; apply Hf; by right|].
  rewrite Hys. by eexists.
Qed.

(** Loop invariants for [foldM], indexed by the elements already visited. *)
Lemma foldM_can {A S} (f : S → A → result S) (I : list A → S → Prop) l s :
  I [] s →
  (∀ pre x post s, l = pre ++ x :: post → I pre s →
     ∃ s', f s x = Ok s' ∧ I (pre ++ [x]) s') →
  ∃ s', foldM f s l = Ok s' ∧ I l s'.
Proof.
  revert I s. induction l as [|x l IH]; intros I s H0 Hstep; simpl.
  - by exists s.
  - destruct (Hstep [] x l s) as (s1 & Hs1 & HI1); [done..|].
    rewrite Hs1. simpl.
    destruct (IH (λ pre, I (x :: pre)) s1) as (s' & Hs' & HI'); [done| |by eauto].
    intros pre y post s2 -> HI2. apply (Hstep (x :: pre) y post); by simpl.
Qed.

Lemma foldM_ok {A S} (f : S → A → result S) (I : list A → S → Prop) l s s' :
  I [] s →
  (∀ pre x post s s', l = pre ++ x :: post → I pre s → f s x = Ok s' →
     I (pre ++ [x]) s') →
  foldM f s l = Ok s' → I l s'.
Proof.
  revert I s. induction l as [|x l IH]; intros I s H0 Hstep; simpl.
  - by intros [= <-].
  - intros (s1 & Hs1 & Hrun)%bind_Ok.
    apply (IH (λ pre, I (x :: pre)) s1); [|intros pre y post s2 s3 -> HI2|done].
    + by apply (Hstep [] x l s).
    + apply (Hstep (x :: pre) y post); by simpl.
Qed.

Lemma seq_split_inv a n (pre : list nat) x post :
  seq a n = pre ++ x :: post → pre = seq a (length pre) ∧ x = a + length pre ∧ x < a + n.
Proof.
  intros Heq.
  assert (length pre < n) as Hlen.
  { apply (f_equal length) in Heq. rewrite length_seq, length_app in Heq.
    simpl in Heq. lia. }
  assert (x = a + length pre) as ->.
  { assert (seq a n !! length pre = Some x) as Hl
      by (rewrite Heq; apply list_lookup_middle; done).
    apply lookup_seq in Hl. lia. }
  split; [|lia].
  apply (f_equal (take (length pre))) in Heq.
  rewrite take_app_length, take_seq in Heq.
  etrans; [symmetry; exact Heq | f_equal; lia].
Qed.

Lemma imap_split_inv {A B} (g : nat → A → B) (l : list A) pre y post :
  imap g l = pre ++ y :: post →
  ∃ x, l !! length pre = Some x ∧ y = g (length pre) x ∧
       pre = imap g (take (length pre) l).
Proof.
  intros Heq.
  assert (imap g l !! length pre = Some y) as Hl
    by (rewrite Heq; apply list_lookup_middle; done).
  rewrite list_lookup_imap in Hl.
  destruct (l !! length pre) as [x|] eqn:Hx; simplify_eq/=.
  exists x. split_and!; [done..|].
  rewrite <- (take_drop (length pre) l) in Heq at 1.
  rewrite imap_app in Heq.
  apply (f_equal (take (length pre))) in Heq.
  rewrite (take_app_length pre) in Heq.
  etrans; [symmetry; exact Heq|].
  apply lookup_lt_Some in Hx.
  rewrite take_app_ge; rewrite length_imap, length_take; [|lia].
  replace (length pre - length pre `min` length l) with 0 by lia.
  by rewrite take_0, app_nil_r.
Qed.

(** ** [list.remove] *)

Lemma list_remove_Ok `{EqDecision A} (x : A) l l' :
  list_remove x l = Ok l' → l ≡ₚ x :: l'.
Proof.
  revert l'. induction l as [|y l IH]; intros l'; simpl; [done|].
  case_decide as Hxy.
  - intros [= <-]. by subst.
  - intros (l1 & Hl1 & [= <-])%bind_Ok. rewrite (IH _ Hl1). apply Permutation_swap.
Qed.

Lemma list_remove_elem `{EqDecision A} (x : A) l :
  x ∈ l → ∃ l', list_remove x l = Ok l'.
Proof.
  induction l as [|y l IH]; [by intros ?%elem_of_nil|].
  intros Hin. simpl. case_decide; [by eexists|].
  apply elem_of_cons in Hin as [?|Hin]; [done|].
  destruct (IH Hin) as [l' ->]. by eexists.
Qed.

(** ** [sorted] *)

Lemma insert_sorted_perm {A K} (key : A → K) leb x l :
  insert_sorted key leb x l ≡ₚ x :: l.
Proof.
  induction l as [|y l IH]; simpl; [done|].
  destruct (leb _ _); [done|]. rewrite IH. apply Permutation_swap.
Qed.

Lemma sorted_perm {A K} (key : A → K) leb l : sorted key leb l ≡ₚ l.
Proof.
  induction l as [|x l IH]; simpl; [done|].
  by rewrite insert_sorted_perm, IH.
Qed.

(** ** Complete signed graphs *)

Lemma NoDup_fmap_elem_inj {A B} (f : A → B) (l : list A) x y :
  NoDup (f <$> l) → x ∈ l → y ∈ l → f x = f y → x = y.
Proof.
  induction l as [|z l IH]; [by intros _ ?%elem_of_nil|].
  rewrite fmap_cons, NoDup_cons, !elem_of_cons.
  intros [Hz Hl] [->|Hx] [->|Hy] Hf; [done| | |by apply IH].
  - destruct Hz. rewrite Hf. by apply list_elem_of_fmap_2.
  - destruct Hz. rewrite <- Hf. by apply list_elem_of_fmap_2.
Qed.

Section signed_complete.
Context {n : nat} {P : nat → nat → Prop} {l : list triple}.
Hypothesis Hsc : signed_complete n P l.

Lemma sc_perm l' : l ≡ₚ l' → signed_complete n P l'.
Proof using Hsc.
  intros Hp. destruct Hsc as [Hnd Hr Ht Hpos]. split.
  - by rewrite <- Hp.
  - intros i s j. rewrite <- Hp. apply Hr.
  - intros i j Hij. destruct (Ht i j Hij) as [s Hs]. exists s. by rewrite <- Hp.
  - intros i j. rewrite <- Hp. apply Hpos.
Qed.

Lemma sc_iff P' : (∀ i j, P i j ↔ P' i j) → signed_complete n P' l.
Proof using Hsc.
  intros HP. destruct Hsc as [Hnd Hr Ht Hpos]. split; [done..|].
  intros i j. by rewrite <- HP.
Qed.

(** Two triples of the same pair are the same triple. *)
Lemma sc_key_inj i s s' j : (i, s, j) ∈ l → (i, s', j) ∈ l → s = s'.
Proof using Hsc.
  intros H1 H2.
  by assert ((i, s, j) = (i, s', j)) as [= ->]
    by (apply (NoDup_fmap_elem_inj triple_key l); [apply Hsc|done..]).
Qed.

Lemma sc_neg_elem i j : i < j < n → ¬ P i j → (i, (-1)%Z, j) ∈ l.
Proof using Hsc.
  intros Hij HP. destruct (sc_total _ _ _ Hsc i j Hij) as [s Hs].
  destruct (sc_range _ _ _ Hsc _ _ _ Hs) as [_ [->| ->]]; [done|].
  by apply (sc_pos _ _ _ Hsc) in Hs.
Qed.

Lemma sc_neg_not_pos i j : (i, (-1)%Z, j) ∈ l → ¬ P i j.
Proof using Hsc.
  intros Hneg HP%(sc_pos _ _ _ Hsc). by pose proof (sc_key_inj _ _ _ _ Hneg HP).
Qed.

(** Every pair has exactly one polarity. *)
Lemma sc_polarity i j : i < j < n → exists! s, (i, s, j) ∈ l.
Proof using Hsc.
  intros Hij. destruct (sc_total _ _ _ Hsc i j Hij) as [s Hs].
  exists s. split; [done|]. intros s' Hs'. by eapply sc_key_inj.
Qed.

Lemma sc_key_elem i j : (i, j) ∈ triple_key <$> l ↔ i < j < n.
Proof using Hsc.
  rewrite list_elem_of_fmap. split.
  - intros ([[i' s] j'] & [= -> ->] & Hin). by destruct (sc_range _ _ _ Hsc _ _ _ Hin).
  - intros [s Hs]%(sc_total _ _ _ Hsc). by exists (i, s, j).
Qed.
End signed_complete.

Lemma perm3 {A} (a b c : A) l : a :: b :: c :: l ≡ₚ c :: b :: a :: l.
Proof.
  etrans; [apply perm_swap|]. etrans; [apply perm_skip, perm_swap|]. apply perm_swap.
Qed.

(** Turning the pair [(i, j)] from [-1] to [+1]. *)
Lemma sc_flip_cons n P i j l :
  signed_complete n P ((i, (-1)%Z, j) :: l) →
  signed_complete n (λ u v, (u = i ∧ v = j) ∨ P u v) ((i, 1%Z, j) :: l).
Proof.
  intros Hsc. split.
  - apply (sc_nodup _ _ _ Hsc).
  - intros u s v [[= -> -> ->]|Hin]%elem_of_cons.
    + split; [|by right]. eapply (sc_range _ _ _ Hsc). by left.
    + eapply (sc_range _ _ _ Hsc). by right.
  - intros u v Huv. destruct (sc_total _ _ _ Hsc u v Huv) as [s Hs].
    apply elem_of_cons in Hs as [[= -> -> ->]|Hs].
    + exists 1%Z. by left.
    + exists s. by right.
  - intros u v. rewrite elem_of_cons, <- (sc_pos _ _ _ Hsc u v), elem_of_cons.
    split; intros [H|H];
      [left; by simplify_eq | by right; right | left; by destruct H as [-> ->] |].
    destruct H as [[=]|H]. by right.
Qed.

Lemma sc_flip n P i j l l' :
  signed_complete n P l → list_remove (i, (-1)%Z, j) l = Ok l' →
  signed_complete n (λ u v, (u = i ∧ v = j) ∨ P u v) (l' ++ [(i, 1%Z, j)]).
Proof.
  intros Hsc Hrm%list_remove_Ok.
  eapply sc_perm; [apply sc_flip_cons; eapply sc_perm; [exact Hsc|exact Hrm]|].
  by rewrite Permutation_app_comm.
Qed.

Lemma sc_flip_can n P i j l :
  signed_complete n P l → i < j < n → ¬ P i j →
  ∃ l', list_remove (i, (-1)%Z, j) l = Ok l'.
Proof. intros Hsc Hij HP. by eapply list_remove_elem, sc_neg_elem. Qed.

(** The three removals and three appends of [connect_pair]. *)
Lemma sc_flip3 n P l l1 l2 l3 i1 j1 i2 j2 i3 j3 :
  signed_complete n P l →
  list_remove (i1, (-1)%Z, j1) l = Ok l1 →
  list_remove (i2, (-1)%Z, j2) l1 = Ok l2 →
  list_remove (i3, (-1)%Z, j3) l2 = Ok l3 →
  signed_complete n
    (λ u v, (u = i1 ∧ v = j1) ∨ (u = i2 ∧ v = j2) ∨ (u = i3 ∧ v = j3) ∨ P u v)
    (l3 ++ [(i1, 1%Z, j1); (i2, 1%Z, j2); (i3, 1%Z, j3)]).
Proof.
  intros Hsc H1%list_remove_Ok H2%list_remove_Ok H3%list_remove_Ok.
  assert (signed_complete n P ((i1, (-1)%Z, j1) :: (i2, (-1)%Z, j2) ::
                                 (i3, (-1)%Z, j3) :: l3)) as Hsc0.
  { eapply sc_perm; [exact Hsc|]. by rewrite H1, H2, H3. }
  apply sc_flip_cons in Hsc0.
  eapply sc_perm in Hsc0; [|apply perm_swap]. apply sc_flip_cons in Hsc0.
  eapply sc_perm in Hsc0; [|apply perm3]. apply sc_flip_cons in Hsc0.
  eapply sc_perm; [eapply sc_iff; [exact Hsc0|]|].
  - intros u v. tauto.
  - rewrite Permutation_app_comm. simpl.
    apply (Permutation_middle [(i1, 1%Z, j1); (i2, 1%Z, j2)]).
Qed.

(** ** The initial edge set *)

Lemma elem_of_initial_triples n i s j :
  (i, s, j) ∈ initial_triples n ↔ i < j < n ∧ s = (-1)%Z.
Proof.
  unfold initial_triples. rewrite list_elem_of_bind. split.
  - intros (i' & (j' & Hin & Hj')%list_elem_of_bind & Hi').
    apply elem_of_seq in Hj'. destruct (Nat.ltb_spec i' j'); [|by apply elem_of_nil in Hin].
    apply list_elem_of_singleton in Hin as [= -> -> ->]. lia.
  - intros [Hij ->]. exists i. rewrite elem_of_seq, list_elem_of_bind. split; [|lia].
    exists j. rewrite elem_of_seq. split; [|lia].
    destruct (Nat.ltb_spec i j); [|lia]. by apply list_elem_of_singleton.
Qed.

Lemma NoDup_initial_triples n : NoDup (initial_triples n).
Proof.
  apply NoDup_bind; [| |apply NoDup_seq].
  - intros i1 i2 [[i s] j] _ _ (j1 & H1 & _)%list_elem_of_bind (j2 & H2 & _)%list_elem_of_bind.
    destruct (i1 <? j1); [|by apply elem_of_nil in H1].
    destruct (i2 <? j2); [|by apply elem_of_nil in H2].
    apply list_elem_of_singleton in H1, H2. congruence.
  - intros i _. apply NoDup_bind; [| |apply NoDup_seq].
    + intros j1 j2 t _ _ H1 H2.
      destruct (i <? j1); [|by apply elem_of_nil in H1].
      destruct (i <? j2); [|by apply elem_of_nil in H2].
      apply list_elem_of_singleton in H1, H2. congruence.
    + intros j _. destruct (i <? j); [apply NoDup_singleton|apply NoDup_nil_2].
Qed.

Lemma initial_triples_complete n : signed_complete n (λ _ _, False) (initial_triples n).
Proof.
  split.
  - apply NoDup_fmap_2_strong; [|apply NoDup_initial_triples].
    intros [[i1 s1] j1] [[i2 s2] j2] [_ ->]%elem_of_initial_triples
      [_ ->]%elem_of_initial_triples [= -> ->]. done.
  - intros i s j [? ->]%elem_of_initial_triples. auto.
  - intros i j Hij. exists (-1)%Z. by apply elem_of_initial_triples.
  - intros i j. rewrite elem_of_initial_triples. split; [by intros [_ [=]]|done].
Qed.

Lemma length_initial_row i n :
  length (seq 0 n ≫= λ j, if i <? j then [(i, (-1)%Z, j)] else []) = n - S i.
Proof.
  induction n as [|n IH]; [done|].
  rewrite seq_S, bind_app, length_app, IH, bind_singleton. simpl.
  destruct (Nat.ltb_spec i n); simpl; lia.
Qed.

Lemma length_initial_triples n : length (initial_triples n) = n * (n - 1) / 2.
Proof.
  unfold initial_triples.
  assert (∀ m, m ≤ n →
    2 * length (seq 0 m ≫= λ i, seq 0 n ≫= λ j,
                  if i <? j then [(i, (-1)%Z, j)] else []) = m * (2 * n - 1 - m)) as H.
  { induction m as [|m IH]; intros Hm; [done|].
    rewrite seq_S, bind_app, length_app, bind_singleton, length_initial_row.
    simpl (0 + m). nia. }
  specialize (H n (le_n _)).
  replace (n * (2 * n - 1 - n)) with (n * (n - 1)) in H by (f_equal; lia).
  rewrite <- H. by rewrite Nat.mul_comm, Nat.div_mul.
Qed.

(** A complete signed graph on [n] nodes has [n * (n - 1) / 2] edges. *)
Lemma sc_length n P l : signed_complete n P l → length l = n * (n - 1) / 2.
Proof.
  intros Hsc. rewrite <- length_initial_triples.
  rewrite <- (length_fmap triple_key l), <- (length_fmap triple_key (initial_triples n)).
  apply Permutation_length, NoDup_Permutation.
  - apply Hsc.
  - apply (initial_triples_complete n).
  - intros [i j]. by rewrite (sc_key_elem Hsc), (sc_key_elem (initial_triples_complete n)).
Qed.

(** ** The loop over pairs of real rooms *)

Lemma elem_of_edge_doors conn i j e :
  e ∈ edge_doors conn i j ↔
  ∃ a b, (a, e, b) ∈ conn ∧ ((a = i ∧ b = j) ∨ (a = j ∧ b = i)).
Proof.
  unfold edge_doors. rewrite list_elem_of_fmap. split.
  - intros ([[a d] b] & -> & [H Hin]%list_elem_of_filter). simpl in *. by exists a, b.
  - intros (a & b & Hin & H). exists (a, e, b). split; [done|].
    by apply list_elem_of_filter.
Qed.

Section connect_rooms.
Context (L n : nat) (conn : list (nat * nat * nat)).
Hypothesis Hdoor_range : ∀ a d b, (a, d, b) ∈ conn → L ≤ d < n.
Hypothesis Hdoor_nodup : NoDup ((λ pair, pair.1.2) <$> conn).

Lemma edge_doors_range i j e : e ∈ edge_doors conn i j → L ≤ e < n.
Proof using Hdoor_range.
  intros (a & b & Hin & _)%elem_of_edge_doors. by eapply Hdoor_range.
Qed.

Lemma is_adjacent_edge_doors i j :
  i < j < L → is_adjacent conn i j = true ↔ edge_doors conn i j ≠ [].
Proof using Hdoor_range.
  intros Hij. unfold is_adjacent. rewrite existsb_exists. split.
  - intros ([[a d] b] & Hin%list_elem_of_In & Hl).
    apply andb_prop in Hl as [Hi%bool_decide_eq_true Hj%bool_decide_eq_true].
    simpl in *. pose proof (Hdoor_range _ _ _ Hin).
    assert (d ∈ edge_doors conn i j) as Hd; [|by intros Heq; rewrite Heq in Hd; inv Hd].
    apply elem_of_edge_doors. exists a, b. split; [done|].
    rewrite !elem_of_cons, elem_of_nil in Hi, Hj. lia.
  - destruct (edge_doors conn i j) as [|e ?] eqn:Heq; [done|]. intros _.
    assert (e ∈ edge_doors conn i j) as (a & b & Hin & H)%elem_of_edge_doors
      by (rewrite Heq; left).
    exists (a, e, b). split; [by apply list_elem_of_In|].
    unfold links. simpl. apply andb_true_intro.
    split; apply bool_decide_eq_true; rewrite !elem_of_cons; lia.
Qed.

(** A door belongs to one pair of rooms. *)
Lemma edge_doors_inj i j i' j' e :
  i < j → i' < j' → e ∈ edge_doors conn i j → e ∈ edge_doors conn i' j' →
  i = i' ∧ j = j'.
Proof using Hdoor_nodup.
  intros Hij Hij' (a & b & Hin & H)%elem_of_edge_doors
    (a' & b' & Hin' & H')%elem_of_edge_doors.
  assert ((a, e, b) = (a', e, b')) as [= -> ->]
    by (by apply (NoDup_fmap_elem_inj (λ pair, pair.1.2) conn)).
  lia.
Qed.

Lemma connected_upto_fresh i j e u v :
  i < j < L → head (edge_doors conn i j) = Some e →
  (u = i ∧ v = e) ∨ (u = j ∧ v = e) ∨ (u = i ∧ v = j) →
  ¬ connected_upto L conn i j u v.
Proof using Hdoor_range Hdoor_nodup.
  intros Hij He Huv (i' & j' & e' & Hlt & Hij' & He' & Huv').
  apply head_Some_elem_of in He, He'.
  pose proof (edge_doors_range _ _ _ He). pose proof (edge_doors_range _ _ _ He').
  assert (e = e' → False).
  { intros <-. destruct (edge_doors_inj i j i' j' e); lia || done. }
  lia.
Qed.

Lemma connect_pair_step i j l :
  i < j < L → signed_complete n (connected_upto L conn i j) l →
  ∃ l', connect_pair conn i j l = Ok l' ∧
        signed_complete n (connected_upto L conn i (S j)) l'.
Proof using Hdoor_range Hdoor_nodup.
  intros Hij Hsc. unfold connect_pair.
  pose proof (is_adjacent_edge_doors i j Hij) as Hadj.
  destruct (edge_doors conn i j) as [|e es] eqn:Hdoors.
  - assert (is_adjacent conn i j = false) as ->
      by (destruct (is_adjacent conn i j); [by destruct (proj1 Hadj)|done]).
    exists l. split; [done|]. eapply sc_iff; [exact Hsc|].
    intros u v. split; intros (i' & j' & e' & Hlt & Hij' & He' & Huv').
    + exists i', j', e'. split; [lia|done].
    + exists i', j', e'. split; [|done].
      destruct (decide (i' = i ∧ j' = j)) as [[-> ->]|]; [|lia].
      by rewrite Hdoors in He'.
  - rewrite (proj2 Hadj) by done. simpl.
    assert (head (edge_doors conn i j) = Some e) as He by (by rewrite Hdoors).
    assert (L ≤ e < n) as Hrange
      by (apply (edge_doors_range i j); rewrite Hdoors; left).
    pose proof (connected_upto_fresh i j e) as Hfresh.
    destruct (sc_flip_can n _ i e l Hsc) as [l1 Hl1]; [lia|apply Hfresh; auto|].
    rewrite Hl1. simpl.
    assert ((j, (-1)%Z, e) ∈ l1) as Hin2.
    { assert ((j, (-1)%Z, e) ∈ l) as Hin
        by (apply (sc_neg_elem Hsc); [lia|apply Hfresh; auto]).
      rewrite (list_remove_Ok _ _ _ Hl1) in Hin.
      apply elem_of_cons in Hin as [[=]|]; [lia|done]. }
    destruct (list_remove_elem _ _ Hin2) as [l2 Hl2]. rewrite Hl2. simpl.
    assert ((i, (-1)%Z, j) ∈ l2) as Hin3.
    { assert ((i, (-1)%Z, j) ∈ l) as Hin
        by (apply (sc_neg_elem Hsc); [lia|apply Hfresh; auto]).
      rewrite (list_remove_Ok _ _ _ Hl1), (list_remove_Ok _ _ _ Hl2) in Hin.
      apply elem_of_cons in Hin as [[=]|Hin]; [lia|].
      apply elem_of_cons in Hin as [[=]|Hin]; [lia|done]. }
    destruct (list_remove_elem _ _ Hin3) as [l3 Hl3]. rewrite Hl3. simpl.
    eexists. split; [done|].
    eapply sc_iff; [exact (sc_flip3 _ _ _ _ _ _ _ _ _ _ _ _ Hsc Hl1 Hl2 Hl3)|].
    intros u v. split.
    + intros [H|[H|[H|(i' & j' & e' & Hlt & H)]]].
      1-3: exists i, j, e; (split; [lia|]); (split; [lia|]); (split; [done|tauto]).
      exists i', j', e'. split; [lia|done].
    + intros (i' & j' & e' & Hlt & Hij' & He' & Huv').
      destruct (decide (i' = i ∧ j' = j)) as [[-> ->]|].
      * assert (e' = e) as -> by congruence. tauto.
      * right; right; right. exists i', j', e'. split; [lia|done].
Qed.

Lemma connect_rooms_complete l :
  signed_complete n (λ _ _, False) l →
  ∃ l', connect_rooms L conn l = Ok l' ∧ signed_complete n (door_edge L conn) l'.
Proof using Hdoor_range Hdoor_nodup.
  intros Hsc. unfold connect_rooms.
  edestruct (foldM_can (A:=nat) (S:=list triple))
    with (I := λ (pre : list nat) l, signed_complete n (connected_upto L conn (length pre) 0) l)
    as (l' & Hrun & Hl'); [| |exists l'; split; [exact Hrun|]].
  - eapply sc_iff; [exact Hsc|]. intros u v. split; [done|].
    intros (i & j & e & Hlt & _). simpl in Hlt. lia.
  - intros pre i post l0 Hsplit Hl0.
    destruct (seq_split_inv _ _ _ _ _ Hsplit) as (_ & -> & Hi). simpl in Hi |- *.
    rewrite length_app. simpl. rewrite Nat.add_1_r.
    edestruct (foldM_can (A:=nat) (S:=list triple))
      with (I := λ (pre' : list nat) l,
              signed_complete n (connected_upto L conn (length pre) (length pre')) l)
      as (l1 & Hrun1 & Hl1); [| |exists l1; split; [exact Hrun1|]].
    + exact Hl0.
    + intros pre' j post' l1 Hsplit' Hl1.
      destruct (seq_split_inv _ _ _ _ _ Hsplit') as (_ & -> & Hj). simpl in Hj |- *.
      rewrite length_app. simpl. rewrite Nat.add_1_r.
      destruct (Nat.ltb_spec (length pre) (length pre')) as [Hlt|Hge].
      * by apply connect_pair_step.
      * exists l1. split; [done|]. eapply sc_iff; [exact Hl1|].
        intros u v.
        split; intros (i' & j' & e' & Hlt' & H); exists i', j', e'; (split; [lia|done]).
    + rewrite length_seq in Hl1. eapply sc_iff; [exact Hl1|].
      intros u v.
      split; intros (i' & j' & e' & Hlt' & H); exists i', j', e'; (split; [lia|done]).
  - rewrite length_seq in Hl'. eapply sc_iff; [exact Hl'|].
    intros u v. split.
    + intros (i' & j' & e' & Hlt' & H). by exists i', j', e'.
    + intros (i' & j' & e' & H). exists i', j', e'. split; [lia|done].
Qed.
End connect_rooms.

(** ** The loop over front doors *)

Section front_doors.
Context (n : nat) (P : nat → nat → Prop) (room_dict : gmap string nat).

Lemma add_front_door_ok Q l k room l' :
  signed_complete n Q l → add_front_door room_dict l (k, room) = Ok l' →
  ∃ r f, room_dict !! room = Some r ∧
         room_dict !! ("front_door" +:+ str k) = Some f ∧
         signed_complete n (λ u v, (u = r ∧ v = f) ∨ Q u v) l'.
Proof.
  intros Hsc Hrun. unfold add_front_door, getitem in Hrun.
  destruct (room_dict !! room) as [r|]; [|done].
  destruct (room_dict !! _) as [f|]; [|done]. simpl in Hrun.
  apply bind_Ok in Hrun as (l1 & Hl1 & [= <-]).
  exists r, f. split_and!; [done..|]. by eapply sc_flip.
Qed.

Lemma front_doors_ok fd l l' :
  signed_complete n P l →
  foldM (add_front_door room_dict) l (enumerate1 fd) = Ok l' →
  signed_complete n (λ u v, front_edge room_dict fd u v ∨ P u v) l'.
Proof.
  intros Hsc Hrun.
  eapply (foldM_ok _ (λ pre l, signed_complete n
            (λ u v, front_upto room_dict fd (length pre) u v ∨ P u v) l)) in Hrun.
  - eapply sc_iff; [exact Hrun|]. intros u v.
    unfold enumerate1. rewrite length_imap.
    split; (intros [Hf|?]; [left|by right]).
    + destruct Hf as (k & room & _ & H). by exists k, room.
    + destruct Hf as (k & room & Hk & H). exists k, room.
      split; [by eapply lookup_lt_Some|done].
  - eapply sc_iff; [exact Hsc|]. intros u v. split; [by right|].
    intros [(k & room & Hk & _)|?]; [simpl in Hk; lia|done].
  - intros pre [k room] post l0 l1 (room' & Hroom & [= -> ->] & _)%imap_split_inv Hl0 Hstep.
    destruct (add_front_door_ok _ _ _ _ _ Hl0 Hstep) as (r & f & Hr & Hf & Hl1).
    eapply sc_iff; [exact Hl1|]. intros u v. rewrite length_app. simpl. split.
    + intros [[-> ->]|[(k & room & Hk & H)|?]]; [left|left|by right].
      * exists (length pre), room'. split; [lia|done].
      * exists k, room. split; [lia|done].
    + intros [(k & room & Hk & Hroom' & Hu & Hv)|?]; [|by right; right].
      destruct (decide (k = length pre)) as [->|].
      * left. split; congruence.
      * right; left. exists k, room. split; [lia|done].
Qed.

Lemma front_doors_can F fd l :
  signed_complete n P l →
  F + length fd ≤ n →
  (∀ u v, P u v → v < F) →
  (∀ k, k < length fd → room_dict !! ("front_door" +:+ str (S k)) = Some (F + k)) →
  (∀ k room, fd !! k = Some room → ∃ r, room_dict !! room = Some r ∧ r < F + k) →
  ∃ l', foldM (add_front_door room_dict) l (enumerate1 fd) = Ok l'.
Proof.
  intros Hsc Hn HP Hdoors Hrooms.
  edestruct (foldM_can (add_front_door room_dict))
    with (I := λ (pre : list (nat * string)) l, signed_complete n
                  (λ u v, front_upto room_dict fd (length pre) u v ∨ P u v) l)
    as (l' & Hrun & _); [| |by exists l'].
  - eapply sc_iff; [exact Hsc|]. intros u v. split; [by right|].
    intros [(k & room & Hk & _)|?]; [simpl in Hk; lia|done].
  - intros pre [k room] post l0 (room' & Hroom & [= -> ->] & _)%imap_split_inv Hl0.
    destruct (Hrooms _ _ Hroom) as (r & Hr & Hlt).
    pose proof (lookup_lt_Some _ _ _ Hroom) as Hlen.
    pose proof (Hdoors _ Hlen) as Hf.
    assert (∃ l1, list_remove (r, (-1)%Z, F + length pre) l0 = Ok l1) as [l1 Hl1].
    { eapply sc_flip_can; [exact Hl0|lia|].
      intros [(k & room & Hk & Hkroom & _ & Hv)|HPr].
      - rewrite Hdoors in Hv by lia. simplify_eq. lia.
      - apply HP in HPr. lia. }
    assert (add_front_door room_dict l0 (S (length pre), room')
            = Ok (l1 ++ [(r, 1%Z, F + length pre)])) as Hstep.
    { unfold add_front_door, getitem. rewrite Hr, Hf. simpl. by rewrite Hl1. }
    exists (l1 ++ [(r, 1%Z, F + length pre)]). split; [done|].
    destruct (add_front_door_ok _ _ _ _ _ Hl0 Hstep) as (r' & f' & Hr' & Hf' & Hsc').
    eapply sc_iff; [exact Hsc'|]. intros u v. rewrite length_app. simpl. split.
    + intros [[-> ->]|[(k & room & Hk & H)|?]]; [left|left|by right].
      * exists (length pre), room'. split; [lia|done].
      * exists k, room. split; [lia|done].
    + intros [(k & room & Hk & Hroom' & Hu & Hv)|?]; [|by right; right].
      destruct (decide (k = length pre)) as [->|].
      * left. split; congruence.
      * right; left. exists k, room. split; [lia|done].
Qed.
End front_doors.

(** ** Dictionaries built from lists *)

Lemma py_dict_snoc `{Countable K} {V} (l : list (K * V)) k v :
  py_dict (l ++ [(k, v)]) = <[k := v]> (py_dict l).
Proof. unfold py_dict. by rewrite foldl_app. Qed.

(** A key is bound to the value of its last pair. *)
Lemma py_dict_lookup_Some `{Countable K} {V} (l : list (K * V)) k v :
  py_dict l !! k = Some v ↔
  ∃ i, l !! i = Some (k, v) ∧ ∀ j v', i < j → l !! j ≠ Some (k, v').
Proof.
  revert v. induction l as [|[k0 v0] l IH] using rev_ind; intros v.
  - unfold py_dict. simpl. rewrite lookup_empty. split; [done|by intros (? & ? & _)].
  - rewrite py_dict_snoc. destruct (decide (k0 = k)) as [->|Hne].
    + rewrite lookup_insert_eq. split.
      * intros [= ->]. exists (length l). split; [by apply list_lookup_middle|].
        intros j v' Hj. rewrite lookup_ge_None_2; [done|]. rewrite length_app. simpl. lia.
      * intros (i & Hi & Hlast). destruct (decide (i = length l)) as [->|].
        -- rewrite list_lookup_middle in Hi by done. congruence.
        -- pose proof (lookup_lt_Some _ _ _ Hi) as Hlt. rewrite length_app in Hlt.
           simpl in Hlt. destruct (Hlast (length l) v0); [lia|].
           by apply list_lookup_middle.
    + rewrite lookup_insert_ne by done. rewrite IH. split.
      * intros (i & Hi & Hlast). exists i. split; [by apply lookup_app_l_Some|].
        intros j v' Hj Hl. apply lookup_app_Some in Hl as [Hl|[_ Hl]].
        -- by eapply Hlast.
        -- apply list_lookup_singleton_Some in Hl as [_ [=]]. done.
      * intros (i & Hi & Hlast). apply lookup_app_Some in Hi as [Hi|[_ Hi]].
        -- exists i. split; [done|]. intros j v' Hj Hl.
           eapply Hlast; [done|]. by apply lookup_app_l_Some.
        -- apply list_lookup_singleton_Some in Hi as [_ [=]]. done.
Qed.

Lemma py_dict_is_Some `{Countable K} {V} (l : list (K * V)) k :
  is_Some (py_dict l !! k) ↔ k ∈ l.*1.
Proof.
  induction l as [|[k0 v0] l IH] using rev_ind.
  - unfold py_dict. simpl. rewrite lookup_empty, elem_of_nil. split; [by intros [??]|done].
  - rewrite py_dict_snoc, fmap_app, elem_of_app, lookup_insert_is_Some, IH. simpl.
    rewrite list_elem_of_singleton. destruct (decide (k0 = k)) as [->|Hne].
    + split; auto.
    + split; [intros [?|[_ ?]]; [done|by left] | intros [?|?]; [by right; split|]].
      by destruct Hne.
Qed.

Lemma py_dict_lookup_elem `{Countable K} {V} (l : list (K * V)) k v :
  py_dict l !! k = Some v → (k, v) ∈ l.
Proof. intros (i & Hi & _)%py_dict_lookup_Some. by eapply list_elem_of_lookup_2. Qed.

(** [room_dict[x]] is the last index at which [x] occurs. *)
Lemma make_room_dict_lookup (l : list string) x i :
  make_room_dict l !! x = Some i ↔ l !! i = Some x ∧ ∀ j, i < j → l !! j ≠ Some x.
Proof.
  unfold make_room_dict. rewrite py_dict_lookup_Some. split.
  - intros (i' & Hi' & Hlast). rewrite list_lookup_imap in Hi'.
    destruct (l !! i') as [y|] eqn:Hy; simplify_eq/=. split; [done|].
    intros j Hj Hl. apply (Hlast j j Hj). by rewrite list_lookup_imap, Hl.
  - intros [Hi Hlast]. exists i. rewrite list_lookup_imap, Hi. split; [done|].
    intros j v' Hj. rewrite list_lookup_imap.
    destruct (l !! j) as [y|] eqn:Hy; [|done]. simpl. intros [= -> <-].
    by eapply Hlast.
Qed.

Lemma make_room_dict_is_Some (l : list string) x :
  is_Some (make_room_dict l !! x) ↔ x ∈ l.
Proof.
  unfold make_room_dict. rewrite py_dict_is_Some.
  replace ((imap (λ i room, (room, i)) l).*1) with l; [done|].
  rewrite fmap_imap. unfold compose. simpl. induction l as [|y l IH]; [done|].
  rewrite imap_cons. f_equal. rewrite IH at 1. by apply imap_ext.
Qed.

(** ** Door names *)

Lemma door_list_lookup prefix m k :
  door_list prefix m !! k = Some (prefix +:+ str (S k)) ↔ k < m.
Proof.
  unfold door_list. rewrite list_lookup_fmap. split.
  - intros Hk. destruct (seq 1 m !! k) eqn:Hs; [|done].
    apply lookup_seq in Hs. lia.
  - intros Hk. by rewrite lookup_seq_lt.
Qed.

Lemma door_list_lookup_inv prefix m k j :
  door_list prefix m !! j = Some (prefix +:+ str k) → k = S j ∧ j < m.
Proof.
  unfold door_list. rewrite list_lookup_fmap. intros Hk.
  destruct (seq 1 m !! j) as [k'|] eqn:Hs; [|done].
  apply lookup_seq in Hs as [-> ?]. simpl in Hk.
  injection Hk as Hk%(inj (String.app prefix)). apply (inj pretty) in Hk. lia.
Qed.

Lemma length_door_list prefix m : length (door_list prefix m) = m.
Proof. unfold door_list. by rewrite length_fmap, length_seq. Qed.

Lemma interior_door_not_front_door i j :
  "interior_door" +:+ str i ≠ "front_door" +:+ str j.
Proof. done. Qed.

(** ** The layout of the node list *)

Section room_list.
Context (modified : list string) (C F : nat).

Lemma length_nodes_of : length (nodes_of modified C F) = length modified + C + F.
Proof. unfold nodes_of. rewrite !length_app, !length_door_list. lia. Qed.

(** [interior_door<k+1>] is node [len(modified) + k], whatever the rooms
    are called. *)
Lemma interior_door_node k :
  k < C →
  make_room_dict (nodes_of modified C F) !! ("interior_door" +:+ str (S k))
  = Some (length modified + k).
Proof.
  intros Hk. apply make_room_dict_lookup. unfold nodes_of. split.
  - rewrite lookup_app_r by lia. rewrite lookup_app_l by (rewrite length_door_list; lia).
    replace (length modified + k - length modified) with k by lia.
    by apply door_list_lookup.
  - intros j Hj. rewrite lookup_app_r by lia.
    intros [Hl|[Hlen Hl]]%lookup_app_Some.
    + apply door_list_lookup_inv in Hl. lia.
    + apply list_elem_of_lookup_2, list_elem_of_fmap in Hl as (i & Hl & _).
      by apply interior_door_not_front_door in Hl.
Qed.

(** [front_door<k+1>] is node [len(modified) + C + k]. *)
Lemma front_door_node k :
  k < F →
  make_room_dict (nodes_of modified C F) !! ("front_door" +:+ str (S k))
  = Some (length modified + C + k).
Proof.
  intros Hk. apply make_room_dict_lookup. unfold nodes_of. split.
  - rewrite lookup_app_r by lia. rewrite lookup_app_r by (rewrite length_door_list; lia).
    rewrite length_door_list.
    replace (length modified + C + k - length modified - C) with k by lia.
    by apply door_list_lookup.
  - intros j Hj. rewrite lookup_app_r by lia.
    rewrite lookup_app_r by (rewrite length_door_list; lia).
    intros Hl%door_list_lookup_inv. rewrite length_door_list in Hl. lia.
Qed.

(** A room whose name is not a door name is a node below [len(modified)]. *)
Lemma real_room_node x :
  x ∈ modified →
  x ∉ door_list "interior_door" C ++ door_list "front_door" F →
  ∃ i, make_room_dict (nodes_of modified C F) !! x = Some i ∧ i < length modified.
Proof.
  intros Hx Hdoor.
  destruct (proj2 (make_room_dict_is_Some (nodes_of modified C F) x)) as [i Hi].
  { unfold nodes_of. rewrite elem_of_app. by left. }
  exists i. split; [done|].
  apply make_room_dict_lookup in Hi as [Hi _]. unfold nodes_of in Hi.
  apply lookup_app_Some in Hi as [Hi|[_ Hi]]; [by eapply lookup_lt_Some|].
  by apply list_elem_of_lookup_2 in Hi.
Qed.

Lemma any_room_node x :
  x ∈ modified →
  ∃ i, make_room_dict (nodes_of modified C F) !! x = Some i ∧
       nodes_of modified C F !! i = Some x.
Proof.
  intros Hx.
  destruct (proj2 (make_room_dict_is_Some (nodes_of modified C F) x)) as [i Hi].
  { unfold nodes_of. rewrite elem_of_app. by left. }
  exists i. split; [done|]. by apply make_room_dict_lookup in Hi as [Hi _].
Qed.
End room_list.

(** ** generate_bubble_diagram *)

Lemma head_filter_first {A} (P : A → Prop) `{∀ x, Decision (P x)} (l : list A) x :
  head (filter P l) = Some x ↔
  ∃ k, l !! k = Some x ∧ P x ∧ ∀ k' x', k' < k → l !! k' = Some x' → ¬ P x'.
Proof.
  induction l as [|y l IH].
  - split; [done|]. by intros (k & Hk & _).
  - rewrite filter_cons. destruct (decide (P y)) as [Hy|Hy]; simpl.
    + split.
      * intros [= ->]. exists 0. split_and!; [done..|]. intros; lia.
      * intros ([|k] & Hk & HP & Hfirst); [by simplify_eq/=|].
        destruct (Hfirst 0 y); [lia|done..].
    + rewrite IH. split.
      * intros (k & Hk & HP & Hfirst). exists (S k). split_and!; [done..|].
        intros [|k'] x' Hlt; simpl; [by intros [= <-]|]. apply Hfirst. lia.
      * intros ([|k] & Hk & HP & Hfirst); [by simplify_eq/=|].
        exists k. split_and!; [done..|]. intros k' x' Hlt Hk'.
        apply (Hfirst (S k')); [lia|done].
Qed.

Lemma getitem_Ok {V} (m : gmap string V) k v : getitem m k = Ok v ↔ m !! k = Some v.
Proof. unfold getitem. destruct (m !! k); split; congruence. Qed.

(** The index triples of line 289: the door of the [k]-th connection is
    node [len(modified) + k]. *)
Lemma index_triples_inv modified C F (conn_std : list (string * string)) conn :
  length conn_std = C →
  py_map (index_triple (make_room_dict (nodes_of modified C F))) (with_doors conn_std)
    = Ok conn →
  length conn = C ∧
  ∀ k a e b, conn !! k = Some (a, e, b) →
    e = length modified + k ∧
    ∃ sa sb, conn_std !! k = Some (sa, sb) ∧
      make_room_dict (nodes_of modified C F) !! sa = Some a ∧
      make_room_dict (nodes_of modified C F) !! sb = Some b.
Proof.
  intros HC Hconn%py_map_Ok. split.
  { apply Forall2_length in Hconn. unfold with_doors, enumerate1 in Hconn.
    rewrite length_fmap, length_imap in Hconn. lia. }
  intros k a e b Hk.
  destruct (Forall2_lookup_r _ _ _ _ _ Hconn Hk) as ([[sa nm] sb] & Hx & Hres).
  unfold with_doors, enumerate1 in Hx. rewrite list_lookup_fmap, list_lookup_imap in Hx.
  destruct (conn_std !! k) as [[sa' sb']|] eqn:Hstd; simplify_eq/=.
  apply bind_Ok in Hres as (? & Ha%getitem_Ok & Hres).
  apply bind_Ok in Hres as (e' & He%getitem_Ok & Hres).
  apply bind_Ok in Hres as (? & Hb%getitem_Ok & [= <- <- <-]).
  cbn [fst snd] in Ha, He, Hb.
  rewrite interior_door_node in He by (by eapply lookup_lt_Some).
  injection He as <-. split; [done|]. by exists sa, sb.
Qed.

(** The stages of a successful run. *)
Lemma generate_bubble_diagram_inv r d :
  generate_bubble_diagram r = Ok d →
  let L := length (modified_room_list r) in
  let C := length (connection r) in
  let F := length (front_door r) in
  let rnd := py_dict (zip (complete_room_list r) (modified_room_list r)) in
  let nodes := nodes_of (modified_room_list r) C F in
  let rd := make_room_dict nodes in
  ∃ fd_std conn t1 t2,
    room_name_dict d = rnd ∧ room_list d = nodes ∧
    room_list_indices d = room_type_index <$> nodes ∧
    graph_edges d = sorted triple_key key_leb t2 ∧
    Forall2 (λ name room, rnd !! name = Some room) (front_door r) fd_std ∧
    length conn = C ∧
    (∀ k a e b, conn !! k = Some (a, e, b) →
       e = L + k ∧ ∃ ca cb, connection r !! k = Some (ca, cb) ∧
         room_node d ca = Some a ∧ room_node d cb = Some b) ∧
    connect_rooms L conn (initial_triples (L + C + F)) = Ok t1 ∧
    foldM (add_front_door rd) t1 (enumerate1 fd_std) = Ok t2.
Proof.
  intros Hrun L C F rnd nodes rd. unfold generate_bubble_diagram in Hrun.
  apply bind_Ok in Hrun as (conn_std & Hconn_std & Hrun).
  apply bind_Ok in Hrun as (fd_std & Hfd_std & Hrun).
  apply bind_Ok in Hrun as (conn & Hconn & Hrun).
  apply bind_Ok in Hrun as (t1 & Ht1 & Hrun).
  apply bind_Ok in Hrun as (t2 & Ht2 & [= <-]).
  apply py_map_Ok in Hconn_std, Hfd_std.
  pose proof (Forall2_length _ _ _ Hconn_std) as Hlen1.
  pose proof (Forall2_length _ _ _ Hfd_std) as Hlen2.
  rewrite <- Hlen1, <- Hlen2 in *.
  rewrite <- app_assoc in Ht1, Ht2, Hconn |- *.
  change (modified_room_list r ++ door_list "interior_door" (length (connection r)) ++
          door_list "front_door" (length (front_door r))) with nodes
    in Ht1, Ht2, Hconn |- *.
  change (make_room_dict nodes) with rd in Ht1, Ht2, Hconn |- *.
  destruct (index_triples_inv (modified_room_list r) C F conn_std conn)
    as [Hlen3 Hres]; [by symmetry|done|].
  exists fd_std, conn, t1, t2. simpl. split_and!; try done.
  - eapply Forall2_impl; [exact Hfd_std|]. intros name room. by rewrite getitem_Ok.
  - intros k a e b Hk. destruct (Hres _ _ _ _ Hk) as (-> & sa & sb & Hstd & Ha' & Hb').
    split; [done|].
    destruct (Forall2_lookup_r _ _ _ _ _ Hconn_std Hstd) as ([ca cb] & Hc & Hres').
    apply bind_Ok in Hres' as (? & Ha%getitem_Ok & Hres').
    apply bind_Ok in Hres' as (? & Hb%getitem_Ok & [= <- <-]).
    cbn [fst snd] in Ha, Hb.
    exists ca, cb. unfold room_node. simpl.
    split; [done|]. rewrite Ha, Hb. done.
  - unfold nodes in Ht1. by rewrite length_nodes_of in Ht1.
Qed.

(** The index triples of the connections, read back on the response. *)
Section resolved_connections.
Context (r : Response) (d : Diagram) (conn : list (nat * nat * nat)).
Let L := length (modified_room_list r).
Hypothesis Hlen : length conn = length (connection r).
Hypothesis Hconn : ∀ k a e b, conn !! k = Some (a, e, b) →
  e = L + k ∧ ∃ ca cb, connection r !! k = Some (ca, cb) ∧
    room_node d ca = Some a ∧ room_node d cb = Some b.

Lemma connects_conn k i j :
  connects r d k i j ↔
  ∃ a e b, conn !! k = Some (a, e, b) ∧ ((a = i ∧ b = j) ∨ (a = j ∧ b = i)).
Proof using Hlen Hconn.
  split.
  - intros (ca & cb & Hk & Hij).
    destruct (lookup_lt_is_Some_2 conn k) as [[[a e] b] Hc].
    { rewrite Hlen. by eapply lookup_lt_Some. }
    destruct (Hconn _ _ _ _ Hc) as (_ & ca' & cb' & Hk' & Ha & Hb).
    exists a, e, b. split; [done|]. simplify_eq. rewrite Ha, Hb in Hij.
    destruct Hij as [[[= ->] [= ->]]|[[= ->] [= ->]]]; auto.
  - intros (a & e & b & Hc & Hij).
    destruct (Hconn _ _ _ _ Hc) as (_ & ca & cb & Hk & Ha & Hb).
    exists ca, cb. split; [done|]. rewrite Ha, Hb.
    destruct Hij as [[-> ->]|[-> ->]]; auto.
Qed.

Lemma conn_doors : (λ pair, pair.1.2) <$> conn = seq L (length conn).
Proof using Hconn.
  apply list_eq. intros k. rewrite list_lookup_fmap.
  destruct (conn !! k) as [[[a e] b]|] eqn:Hc; simpl.
  - destruct (Hconn _ _ _ _ Hc) as [-> _]. symmetry. apply lookup_seq_lt.
    by eapply lookup_lt_Some.
  - symmetry. apply lookup_seq_ge. by apply lookup_ge_None.
Qed.

Lemma conn_door_range a e b : (a, e, b) ∈ conn → L ≤ e < L + length (connection r).
Proof using Hlen Hconn.
  intros [k Hk]%list_elem_of_lookup. destruct (Hconn _ _ _ _ Hk) as [-> _].
  apply lookup_lt_Some in Hk. lia.
Qed.

Lemma conn_door_nodup : NoDup ((λ pair, pair.1.2) <$> conn).
Proof using Hconn. rewrite conn_doors. apply NoDup_seq. Qed.

Lemma head_edge_doors i j e :
  head (edge_doors conn i j) = Some e ↔
  ∃ k, e = L + k ∧ connects r d k i j ∧ ∀ k', k' < k → ¬ connects r d k' i j.
Proof using Hlen Hconn.
  unfold edge_doors. rewrite head_lookup, list_lookup_fmap, <- head_lookup. split.
  - destruct (head _) as [[[a e'] b]|] eqn:Hhd; [|done]. simpl. intros [= ->].
    apply head_filter_first in Hhd as (k & Hk & HP & Hfirst). simpl in HP.
    destruct (Hconn _ _ _ _ Hk) as [-> _]. exists k. split_and!; [done| |].
    + apply connects_conn. by exists a, (L + k), b.
    + intros k' Hlt (a' & e' & b' & Hk' & HP')%connects_conn.
      by apply (Hfirst k' (a', e', b') Hlt Hk').
  - intros (k & -> & (a & e' & b & Hk & HP)%connects_conn & Hfirst).
    destruct (Hconn _ _ _ _ Hk) as [-> _].
    assert (head (filter (λ pair : nat * nat * nat,
              (pair.1.1 = i ∧ pair.2 = j) ∨ (pair.1.1 = j ∧ pair.2 = i)) conn)
            = Some (a, L + k, b)) as ->; [|done].
    apply head_filter_first. exists k. split_and!; [done..|].
    intros k' [[a' e'] b'] Hlt Hk' HP'. apply (Hfirst k' Hlt).
    apply connects_conn. by exists a', e', b'.
Qed.

Lemma door_edge_positive u v :
  door_edge L conn u v ↔
  ∃ i j k, i < j < L ∧ connects r d k i j ∧ (∀ k', k' < k → ¬ connects r d k' i j) ∧
    ((u = i ∧ v = L + k) ∨ (u = j ∧ v = L + k) ∨ (u = i ∧ v = j)).
Proof using Hlen Hconn.
  unfold door_edge. split.
  - intros (i & j & e & Hij & (k & -> & Hk & Hfirst)%head_edge_doors & Huv).
    by exists i, j, k.
  - intros (i & j & k & Hij & Hk & Hfirst & Huv). exists i, j, (L + k).
    split_and!; [lia..| |done]. apply head_edge_doors. by exists k.
Qed.
End resolved_connections.

(** Whenever the compiler returns, its edges form the complete signed
    graph whose [+1] pairs are the [positive_edge]s. *)
Lemma generate_bubble_diagram_graph r d :
  generate_bubble_diagram r = Ok d →
  signed_complete
    (length (modified_room_list r) + length (connection r) + length (front_door r))
    (positive_edge r d) (graph_edges d).
Proof.
  intros Hrun.
  destruct (generate_bubble_diagram_inv r d Hrun)
    as (fd_std & conn & t1 & t2 & Hrnd & Hnodes & _ & Hedges & Hfd & Hlen & Hconn & Ht1 & Ht2).
  set (L := length (modified_room_list r)) in *.
  set (C := length (connection r)) in *.
  set (F := length (front_door r)) in *.
  destruct (connect_rooms_complete L (L + C + F) conn) with (l := initial_triples (L + C + F))
    as (t1' & Ht1' & Hsc1).
  { intros a e b Hin. pose proof (conn_door_range r d conn Hlen Hconn a e b Hin).
    fold L C in H. lia. }
  { by eapply conn_door_nodup. }
  { apply initial_triples_complete. }
  rewrite Ht1 in Ht1'. injection Ht1' as <-.
  pose proof (front_doors_ok _ _ _ _ _ _ Hsc1 Ht2) as Hsc2.
  rewrite Hedges. eapply sc_perm; [|symmetry; apply sorted_perm].
  eapply sc_iff; [exact Hsc2|]. intros u v. unfold positive_edge. fold L C.
  pose proof (door_edge_positive r d conn Hlen Hconn u v) as Hde.
  change (length (modified_room_list r)) with L in Hde. rewrite Hde. clear Hde.
  split; [intros [Hf|Hd]; [right|by left] | intros [Hd|Hf]; [by right|left]].
  - destruct Hf as (k & room & Hk & Hu & Hv).
    destruct (Forall2_lookup_r _ _ _ _ _ Hfd Hk) as (name & Hname & Hroom).
    exists k, name. split; [done|]. unfold room_node. rewrite Hrnd, Hroom, Hnodes. simpl.
    split; [done|]. rewrite front_door_node in Hv; [by injection Hv|].
    unfold F. rewrite (Forall2_length _ _ _ Hfd). by eapply lookup_lt_Some.
  - destruct Hf as (k & name & Hk & Hu & ->).
    destruct (Forall2_lookup_l _ _ _ _ _ Hfd Hk) as (room & Hroom & Hname).
    exists k, room. split; [done|]. unfold room_node in Hu.
    rewrite Hrnd, Hname, Hnodes in Hu. simpl in Hu. split; [done|].
    apply front_door_node. by eapply lookup_lt_Some.
Qed.

Lemma room_name_dict_value (complete modified : list string) name room :
  py_dict (zip complete modified) !! name = Some room → room ∈ modified.
Proof. intros Hl%py_dict_lookup_elem. by eapply elem_of_zip_r. Qed.

(** Once the names of the response are translated, the compiler reaches
    the loop over the front doors: its lookups in [room_dict] find their
    keys and the loop over the pairs of rooms removes triples that are
    there. *)
Lemma generate_bubble_diagram_front r conn_std fd_std :
  let L := length (modified_room_list r) in
  let C := length (connection r) in
  let F := length (front_door r) in
  let rnd := py_dict (zip (complete_room_list r) (modified_room_list r)) in
  let rd := make_room_dict (nodes_of (modified_room_list r) C F) in
  py_map (translate_pair rnd) (connection r) = Ok conn_std →
  py_map (getitem rnd) (front_door r) = Ok fd_std →
  ∃ conn t1,
    signed_complete (L + C + F) (door_edge L conn) t1 ∧
    (∀ a e b, (a, e, b) ∈ conn → L ≤ e < L + C) ∧
    generate_bubble_diagram r =
      (t2 ← foldM (add_front_door rd) t1 (enumerate1 fd_std);
       Ok {| room_list_indices := room_type_index <$> nodes_of (modified_room_list r) C F;
             graph_edges := sorted triple_key key_leb t2;
             room_name_dict := rnd;
             room_list := nodes_of (modified_room_list r) C F |}).
Proof.
  intros L C F rnd rd Hconn_std Hfd_std.
  pose proof Hconn_std as Hconn_std'. pose proof Hfd_std as Hfd_std'.
  apply py_map_Ok in Hconn_std', Hfd_std'.
  pose proof (Forall2_length _ _ _ Hconn_std') as Hlen1.
  pose proof (Forall2_length _ _ _ Hfd_std') as Hlen2.
  assert (∀ sa sb, (sa, sb) ∈ conn_std →
            sa ∈ modified_room_list r ∧ sb ∈ modified_room_list r) as Hstd.
  { intros sa sb [k Hk]%list_elem_of_lookup.
    destruct (Forall2_lookup_r _ _ _ _ _ Hconn_std' Hk) as ([ca cb] & _ & Hres).
    apply bind_Ok in Hres as (? & Ha%getitem_Ok & Hres).
    apply bind_Ok in Hres as (? & Hb%getitem_Ok & [= <- <-]).
    split; by eapply room_name_dict_value. }
  destruct (py_map_total (index_triple rd) (with_doors conn_std)) as [conn Hconn].
  { intros [[sa nm] sb] [k Hk]%list_elem_of_lookup.
    unfold with_doors, enumerate1 in Hk. rewrite list_lookup_fmap, list_lookup_imap in Hk.
    destruct (conn_std !! k) as [[sa' sb']|] eqn:Hstdk; simplify_eq/=.
    destruct (Hstd sa sb) as [Hsa Hsb]; [by eapply list_elem_of_lookup_2|].
    destruct (any_room_node (modified_room_list r) C F sa Hsa) as (a & Ha & _).
    destruct (any_room_node (modified_room_list r) C F sb Hsb) as (b & Hb & _).
    exists (a, L + k, b). unfold index_triple, getitem. cbn [fst snd].
    fold rd in Ha, Hb. rewrite Ha, Hb. unfold rd.
    rewrite interior_door_node; [done|].
    unfold C. rewrite Hlen1. by eapply lookup_lt_Some. }
  destruct (index_triples_inv (modified_room_list r) C F conn_std conn)
    as [Hlen3 Hres]; [by symmetry|done|]. fold L in Hres.
  assert (∀ a e b, (a, e, b) ∈ conn → L ≤ e < L + C) as Hrange.
  { intros a e b [k Hk]%list_elem_of_lookup. destruct (Hres _ _ _ _ Hk) as [-> _].
    apply lookup_lt_Some in Hk. lia. }
  destruct (connect_rooms_complete L (L + C + F) conn) with (l := initial_triples (L + C + F))
    as (t1 & Ht1 & Hsc1).
  { intros a e b Hin. pose proof (Hrange a e b Hin). lia. }
  { replace ((λ pair, pair.1.2) <$> conn) with (seq L (length conn)); [apply NoDup_seq|].
    apply list_eq. intros k. rewrite list_lookup_fmap.
    destruct (conn !! k) as [[[a e] b]|] eqn:Hk; simpl.
    - destruct (Hres _ _ _ _ Hk) as [-> _]. apply lookup_seq_lt. by eapply lookup_lt_Some.
    - apply lookup_seq_ge. by apply lookup_ge_None. }
  { apply initial_triples_complete. }
  exists conn, t1. split_and!; [done..|].
  unfold generate_bubble_diagram. fold rnd. rewrite Hconn_std. simpl.
  rewrite Hfd_std. simpl. rewrite <- Hlen1, <- Hlen2, <- app_assoc.
  change (modified_room_list r ++ door_list "interior_door" (length (connection r)) ++
          door_list "front_door" (length (front_door r)))
    with (nodes_of (modified_room_list r) C F).
  fold rd. rewrite Hconn. simpl. rewrite length_nodes_of. fold L. by rewrite Ht1.
Qed.

(** The compiler returns when every name resolves and every front-door
    room is a node before its front door. *)
Lemma generate_bubble_diagram_total r :
  let L := length (modified_room_list r) in
  let C := length (connection r) in
  let F := length (front_door r) in
  let rnd := py_dict (zip (complete_room_list r) (modified_room_list r)) in
  let rd := make_room_dict (nodes_of (modified_room_list r) C F) in
  (∀ a b, (a, b) ∈ connection r → is_Some (rnd !! a) ∧ is_Some (rnd !! b)) →
  (∀ name, name ∈ front_door r → is_Some (rnd !! name)) →
  (∀ k name room i, front_door r !! k = Some name → rnd !! name = Some room →
     rd !! room = Some i → i < L + C + k) →
  ∃ d, generate_bubble_diagram r = Ok d.
Proof.
  intros L C F rnd rd Hc Hf Hfr.
  destruct (py_map_total (translate_pair rnd) (connection r)) as [conn_std Hconn_std].
  { intros [a b] Hin. destruct (Hc a b Hin) as [[sa Ha] [sb Hb]].
    exists (sa, sb). unfold translate_pair, getitem. simpl. by rewrite Ha, Hb. }
  destruct (py_map_total (getitem rnd) (front_door r)) as [fd_std Hfd_std].
  { intros name Hin. destruct (Hf name Hin) as [room Hroom].
    exists room. by apply getitem_Ok. }
  destruct (generate_bubble_diagram_front r conn_std fd_std Hconn_std Hfd_std)
    as (conn & t1 & Hsc1 & Hrange & ->).
  fold L C F rnd rd in Hsc1, Hrange |- *.
  pose proof Hfd_std as Hfd_std'. apply py_map_Ok in Hfd_std'.
  pose proof (Forall2_length _ _ _ Hfd_std') as Hlen2.
  destruct (front_doors_can (L + C + F) (door_edge L conn) rd (L + C) fd_std t1)
    as [t2 Ht2]; [done|lia| | | |].
  { intros u v (i & j & e & Hij & He%head_Some_elem_of & Huv).
    apply elem_of_edge_doors in He as (a & b & Hin & _). apply Hrange in Hin. lia. }
  { intros k Hk. apply front_door_node. lia. }
  { intros k room Hk.
    destruct (Forall2_lookup_r _ _ _ _ _ Hfd_std' Hk) as (name & Hname & Hroom%getitem_Ok).
    destruct (any_room_node (modified_room_list r) C F room) as (i & Hi & _).
    { by eapply room_name_dict_value. }
    exists i. split; [done|]. by eapply Hfr. }
  rewrite Ht2. by eexists.
Qed.

(** ** Well-formed responses *)


Section resolved.
Context (r : Response).
Hypothesis Hrefs : references_resolve r.
Hypothesis Hfree : door_free r.
Let L := length (modified_room_list r).
Let C := length (connection r).
Let F := length (front_door r).
Let rnd := py_dict (zip (complete_room_list r) (modified_room_list r)).
Let rd := make_room_dict (nodes_of (modified_room_list r) C F).



Context (d : Diagram).
Hypothesis Hrun : generate_bubble_diagram r = Ok d.


End resolved.

(** ** Polarity of an unordered pair *)


Lemma polarity_lt edges u v s : u < v → polarity edges u v s ↔ (u, s, v) ∈ edges.
Proof. intros. unfold polarity. by rewrite Nat.min_l, Nat.max_r by lia. Qed.



Lemma connects_sym r d k i j : connects r d k i j → connects r d k j i.
Proof. intros (a & b & Hk & H). exists a, b. tauto. Qed.


Section well_formed.
Context (r : Response) (d : Diagram).
Hypothesis Hwf : well_formed r.
Hypothesis Hrun : generate_bubble_diagram r = Ok d.
Let L := length (modified_room_list r).
Let C := length (connection r).
Let F := length (front_door r).




End well_formed.

(** One type code per node. *)
Lemma length_room_list_indices r d :
  generate_bubble_diagram r = Ok d →
  length (room_list_indices d)
  = length (modified_room_list r) + length (connection r) + length (front_door r).
Proof.
  intros Hrun.
  destruct (generate_bubble_diagram_inv r d Hrun) as (_ & _ & _ & _ & _ & _ & Hidx & _).
  by rewrite Hidx, length_fmap, length_nodes_of.
Qed.

(** * The claims about the constraint graph *)

(** C2: whenever [generate_bubble_diagram] returns, with
    [n = len(modified_room_list) + len(connection) + len(front_door)] nodes,
    every returned triple [(i, s, j)] has [i < j < n] and [s] in [{-1, +1}],
    every pair [i < j < n] has exactly one triple (no two triples share a
    pair), and the list has [n * (n - 1) / 2] triples. *)
Theorem edges_complete_signed_graph r d :
  generate_bubble_diagram r = Ok d →
  let n := length (modified_room_list r) + length (connection r) + length (front_door r) in
  length (room_list_indices d) = n ∧
  (∀ i s j, (i, s, j) ∈ graph_edges d → i < j < n ∧ (s = (-1)%Z ∨ s = 1%Z)) ∧
  (∀ i j, i < j < n → exists! s, (i, s, j) ∈ graph_edges d) ∧
  NoDup (triple_key <$> graph_edges d) ∧
  length (graph_edges d) = n * (n - 1) / 2.
Proof.
  intros Hrun n. pose proof (generate_bubble_diagram_graph r d Hrun) as Hsc. fold n in Hsc.
  split_and!.
  - by apply length_room_list_indices.
  - apply (sc_range _ _ _ Hsc).
  - apply (sc_polarity Hsc).
  - apply (sc_nodup _ _ _ Hsc).
  - by eapply sc_length.
Qed.



(** ** Deciding well-formedness *)

Lemma well_formed_check_correct r : well_formed_check r → well_formed r.
Proof.
  intros (Hlen & Hc & Hf & Hfree & Hnd & Hself & Hdup).
  rewrite Forall_forall in Hc. rewrite Forall_forall in Hf.
  rewrite Forall_forall in Hfree. rewrite Forall_forall in Hself.
  rewrite Forall_forall in Hdup. split.
  - split_and!; [done| |done]. intros a b Hin. apply (Hc _ Hin).
  - exact Hfree.
  - exact Hnd.
  - intros a b Hin. apply (Hself _ Hin).
  - intros k k' p q Hk Hk' Hsame.
    assert (no_duplicate_at r k k') as Hat.
    { eapply Forall_forall; [apply Hdup|]; apply elem_of_seq; split; try lia.
      - by eapply lookup_lt_Some.
      - simpl. by eapply lookup_lt_Some. }
    unfold no_duplicate_at in Hat. rewrite Hk, Hk' in Hat. auto.
Qed.


Lemma door_free_check r :
  Forall (λ room, room ∉ door_list "interior_door" (length (connection r)) ++
                         door_list "front_door" (length (front_door r)))
    (modified_room_list r) →
  door_free r.
Proof. intros Hfree. by rewrite Forall_forall in Hfree. Qed.


Lemma edges_complete_signed_graph_witness :
  ∃ d, generate_bubble_diagram scenario = Ok d ∧
    length (room_list_indices d) = 4 ∧ length (graph_edges d) = 6.
Proof.
  eexists. split; [by vm_compute|].
  pose proof (edges_complete_signed_graph scenario _ eq_refl) as (Hn & _ & _ & _ & Hlen).
  split; [exact Hn|exact Hlen].
Defined.



(** ** Dangling references *)

Lemma py_map_Raise_inv {A B} (f : A → result B) l e :
  py_map f l = Raise e → ∃ x, x ∈ l ∧ f x = Raise e.
Proof.
  induction l as [|x l IH]; simpl; [done|].
  destruct (f x) as [y|e'] eqn:Hx; simpl.
  - destruct (py_map f l) as [ys|e'] eqn:Hl; simpl; [done|].
    intros [= ->]. destruct IH as (x' & Hin & Hx'); [done|].
    exists x'. split; [by right|done].
  - intros [= ->]. exists x. split; [by left|done].
Qed.

Lemma translate_pair_Raise rnd (pair : string * string) e :
  translate_pair rnd pair = Raise e →
  ∃ key, e = KeyError key ∧ (key = pair.1 ∨ key = pair.2) ∧ rnd !! key = None.
Proof.
  unfold translate_pair, getitem.
  destruct (rnd !! pair.1) eqn:H1; simpl.
  - destruct (rnd !! pair.2) eqn:H2; simpl; [done|]. intros [= <-]. eauto.
  - intros [= <-]. eauto.
Qed.



Lemma foldM_Raise_inv {A S} (f : S → A → result S) l s e :
  foldM f s l = Raise e → ∃ s' x, x ∈ l ∧ f s' x = Raise e.
Proof.
  revert s. induction l as [|x l IH]; intros s; simpl; [done|].
  destruct (f s x) as [s1|e'] eqn:Hx; simpl.
  - intros (s' & y & Hin & Hy)%IH. exists s', y. split; [by right|done].
  - intros [= ->]. exists s, x. split; [by left|done].
Qed.

Lemma list_remove_Raise `{EqDecision A} (x : A) l e :
  list_remove x l = Raise e → e = ValueError.
Proof.
  induction l as [|y l IH]; simpl; [by intros [= <-]|].
  case_decide; [done|]. destruct (list_remove x l); simpl; [done|].
  intros [= <-]. by apply IH.
Qed.

(** [KeyError] is the error of dangling references only: its key is a
    name mentioned by a connection or a front-door entry and absent from
    [room_name_dict]. *)
Lemma key_error_is_dangling_reference r key :
  generate_bubble_diagram r = Raise (KeyError key) →
  ((∃ a b, (a, b) ∈ connection r ∧ (key = a ∨ key = b)) ∨ key ∈ front_door r) ∧
  py_dict (zip (complete_room_list r) (modified_room_list r)) !! key = None.
Proof.
  set (rnd := py_dict (zip (complete_room_list r) (modified_room_list r))).
  intros Hrun.
  destruct (py_map (translate_pair rnd) (connection r)) as [conn_std|e] eqn:Hconn.
  - destruct (py_map (getitem rnd) (front_door r)) as [fd_std|e] eqn:Hfd.
    + exfalso.
      destruct (generate_bubble_diagram_front r conn_std fd_std Hconn Hfd)
        as (conn & t1 & _ & _ & Heq).
      rewrite Heq in Hrun. clear Heq.
      destruct (foldM _ t1 _) as [t2|e] eqn:Hfold; [done|]. simpl in Hrun.
      injection Hrun as ->.
      apply foldM_Raise_inv in Hfold as (t & [i room] & [k Hk]%list_elem_of_lookup & Hstep).
      unfold enumerate1 in Hk. rewrite list_lookup_imap in Hk.
      destruct (fd_std !! k) as [room'|] eqn:Hroom; simplify_eq/=.
      apply py_map_Ok in Hfd.
      destruct (Forall2_lookup_r _ _ _ _ _ Hfd Hroom) as (name & Hname & Hres%getitem_Ok).
      apply room_name_dict_value in Hres.
      destruct (any_room_node _ (length (connection r)) (length (front_door r)) room Hres)
        as (i & Hi & _).
      unfold getitem in Hstep. rewrite Hi in Hstep. simpl in Hstep.
      rewrite front_door_node in Hstep.
      * simpl in Hstep.
        destruct (list_remove (i, (-1)%Z, _) t) as [t'|e] eqn:Hrm; [done|].
        simpl in Hstep. injection Hstep as ->. by apply list_remove_Raise in Hrm.
      * rewrite (Forall2_length _ _ _ Hfd). by eapply lookup_lt_Some.
    + assert (e = KeyError key) as ->.
      { unfold generate_bubble_diagram in Hrun. fold rnd in Hrun.
        rewrite Hconn in Hrun. simpl in Hrun. rewrite Hfd in Hrun. by injection Hrun. }
      destruct (py_map_Raise_inv _ _ _ Hfd) as (name & Hin & Hres).
      unfold getitem in Hres. destruct (rnd !! name) eqn:Hname; [done|].
      injection Hres as ->. split; [by right|done].
  - assert (e = KeyError key) as ->.
    { unfold generate_bubble_diagram in Hrun. fold rnd in Hrun.
      rewrite Hconn in Hrun. by injection Hrun. }
    destruct (py_map_Raise_inv _ _ _ Hconn) as ([a b] & Hin & Hres).
    apply translate_pair_Raise in Hres as (key' & [= <-] & Hkey & Hnone).
    split; [left; by exists a, b|done].
Qed.


Example dangling_key : generate_bubble_diagram dangling = Raise (KeyError "garage1").
Proof. by vm_compute. Qed.

(** ** Rooms with equal standardized names *)

(** Both ends of a [+1] pair are nodes that a name resolves to, or doors. *)
Lemma positive_edge_ends r d u v :
  positive_edge r d u v →
  (∃ name, room_node d name = Some u) ∧
  ((∃ name, room_node d name = Some v) ∨ length (modified_room_list r) ≤ v).
Proof.
  intros [(i & j & k & Hij & (ca & cb & Hk & Hn) & _ & Huv)|(k & name & Hk & Hu & ->)].
  - assert ((∃ name, room_node d name = Some i) ∧ (∃ name, room_node d name = Some j))
      as [Hi Hj] by (destruct Hn as [[??]|[??]]; eauto).
    destruct Huv as [[-> ->]|[[-> ->]|[-> ->]]]; (split; [done|]); auto; right; lia.
  - split; [eauto|right; lia].
Qed.

(** The first connection that links two nodes. *)
Lemma first_connects r d k i j :
  connects r d k i j →
  ∃ k', k' ≤ k ∧ connects r d k' i j ∧ ∀ k'', k'' < k' → ¬ connects r d k'' i j.
Proof.
  induction (lt_wf k) as [k _ IH]. intros Hk.
  destruct (decide (Exists (λ k', connects r d k' i j) (seq 0 k))) as [Hex|Hno].
  - apply Exists_exists in Hex as (k1 & [_ Hlt]%elem_of_seq & Hk1).
    destruct (IH k1 ltac:(lia) Hk1) as (k' & Hle & Hk' & Hfirst).
    exists k'. split_and!; [lia|done..].
  - exists k. split_and!; [done..|]. intros k'' Hlt Hk''. apply Hno, Exists_exists.
    exists k''. split; [apply elem_of_seq; lia|done].
Qed.

(** The nodes of the two names of a connection entry. *)
Lemma connection_room_nodes r d k a b :
  generate_bubble_diagram r = Ok d → connection r !! k = Some (a, b) →
  ∃ i j, room_node d a = Some i ∧ room_node d b = Some j.
Proof.
  intros Hrun Hk.
  destruct (generate_bubble_diagram_inv r d Hrun)
    as (fd_std & conn & t1 & t2 & _ & _ & _ & _ & _ & Hlen & Hconn & _).
  destruct (lookup_lt_is_Some_2 conn k) as [[[i e] j] Hc].
  { rewrite Hlen. by eapply lookup_lt_Some. }
  destruct (Hconn k i e j Hc) as (_ & ca & cb & Hk' & Hi & Hj).
  rewrite Hk in Hk'. injection Hk' as <- <-. eauto.
Qed.

(** C10: [room_dict] is keyed by standardized name, so when
    [modified_room_list] holds the same name at two positions [p < q] and
    the compiler returns, the name resolves to one node [last], the last
    position of the name in the node list ([q] or later, and inside
    [modified_room_list] unless the name is that of a door node); every
    room name standardized to it resolves to [last]; and the node [p] has
    polarity [-1] with every other node. The entries that mention such a
    name bind to [last]: a front-door entry puts [last] at polarity [+1]
    with the front door of that entry, and a connection entry links [last]
    with the node [j] of its other name, so that, [last] and [j] being two
    real rooms, the pair is at polarity [+1], as are both rooms with the
    interior door of the first connection that links them. *)
Theorem duplicate_name_binds_last r d p q room :
  generate_bubble_diagram r = Ok d →
  p < q →
  modified_room_list r !! p = Some room →
  modified_room_list r !! q = Some room →
  let L := length (modified_room_list r) in
  let n := L + length (connection r) + length (front_door r) in
  ∃ last,
    make_room_dict (room_list d) !! room = Some last ∧
    q ≤ last ∧ room_list d !! last = Some room ∧
    (∀ j, last < j → room_list d !! j ≠ Some room) ∧
    (room ∉ door_list "interior_door" (length (connection r)) ++
            door_list "front_door" (length (front_door r)) → last < L) ∧
    (∀ name, room_name_dict d !! name = Some room → room_node d name = Some last) ∧
    (∀ u, u < n → u ≠ p → polarity (graph_edges d) u p (-1)) ∧
    (∀ k name, front_door r !! k = Some name → room_name_dict d !! name = Some room →
       polarity (graph_edges d) last (L + length (connection r) + k) 1) ∧
    (∀ k a b, connection r !! k = Some (a, b) →
       room_name_dict d !! a = Some room ∨ room_name_dict d !! b = Some room →
       ∃ j, connects r d k last j ∧
         (last < L → j < L → j ≠ last →
          polarity (graph_edges d) last j 1 ∧
          ∃ k', k' ≤ k ∧ connects r d k' last j ∧
            (∀ k'', k'' < k' → ¬ connects r d k'' last j) ∧
            polarity (graph_edges d) last (L + k') 1 ∧
            polarity (graph_edges d) j (L + k') 1)).
Proof.
  intros Hrun Hpq Hp Hq L n.
  pose proof (generate_bubble_diagram_graph r d Hrun) as Hsc. fold L n in Hsc.
  destruct (generate_bubble_diagram_inv r d Hrun)
    as (_ & _ & _ & _ & Hrnd & Hnodes & _).
  set (C := length (connection r)) in *. set (F := length (front_door r)) in *.
  assert (∀ i, i < L → room_list d !! i = modified_room_list r !! i) as Hreal.
  { intros i Hi. rewrite Hnodes. unfold nodes_of. by rewrite lookup_app_l. }
  pose proof (lookup_lt_Some _ _ _ Hp) as HpL. pose proof (lookup_lt_Some _ _ _ Hq) as HqL.
  fold L in HpL, HqL.
  assert (room ∈ modified_room_list r) as Hin by (by eapply list_elem_of_lookup_2).
  destruct (any_room_node (modified_room_list r) C F room Hin) as (last & Hlast & Hl).
  rewrite <- Hnodes in Hlast, Hl.
  pose proof Hlast as [_ Hafter]%make_room_dict_lookup.
  assert (∀ name, room_name_dict d !! name = Some room → room_node d name = Some last)
    as Hnode.
  { intros name Hname. unfold room_node. by rewrite Hname. }
  exists last. split_and!; [done| |done|done| |done| | |].
  - destruct (decide (q ≤ last)); [done|]. destruct (Hafter q); [lia|]. by rewrite Hreal.
  - intros Hfree. rewrite Hnodes in Hlast.
    destruct (real_room_node _ C F room Hin Hfree) as (i & Hi & Hlt). by simplify_eq.
  - intros u Hu Hne. unfold polarity. apply (sc_neg_elem Hsc); [lia|].
    intros Hpos%positive_edge_ends.
    assert (∀ name, room_node d name ≠ Some p) as Hnot.
    { intros name Hname. unfold room_node in Hname.
      destruct (room_name_dict d !! name) as [room'|]; [|done]. simpl in Hname.
      apply make_room_dict_lookup in Hname as [Hp' Hafter'].
      rewrite Hreal in Hp' by done. assert (room' = room) as -> by congruence.
      apply (Hafter' q Hpq). by rewrite Hreal. }
    fold L in Hpos. destruct Hpos as [[name Hu'] [[name' Hv']|Hv']].
    + destruct (decide (u < p)).
      * rewrite Nat.max_r in Hv' by lia. by apply Hnot in Hv'.
      * rewrite Nat.min_r in Hu' by lia. by apply Hnot in Hu'.
    + destruct (decide (u < p)); [lia|].
      rewrite Nat.min_r in Hu' by lia. by apply Hnot in Hu'.
  - intros k name Hk Hname%Hnode.
    assert (positive_edge r d last (L + C + k)) as Hpos.
    { right. by exists k, name. }
    apply (sc_pos _ _ _ Hsc) in Hpos. pose proof (sc_range _ _ _ Hsc _ _ _ Hpos) as [Hlt _].
    by apply polarity_lt; [lia|].
  - intros k a b Hk Hab.
    destruct (connection_room_nodes r d k a b Hrun Hk) as (i & j & Hi & Hj).
    assert (∃ j', connects r d k last j') as [j' Hc].
    { destruct Hab as [Ha%Hnode|Hb%Hnode].
      - exists j. exists a, b. split; [done|]. left. split; congruence.
      - exists i. exists a, b. split; [done|]. right. split; congruence. }
    exists j'. split; [done|]. intros HlastL Hj'L Hne.
    destruct (first_connects r d k last j' Hc) as (k' & Hle & Hk' & Hfirst).
    assert (∀ u v, ((u = last ∨ u = j') ∧ v = L + k') ∨
                   (u = last `min` j' ∧ v = last `max` j') → (u, 1%Z, v) ∈ graph_edges d)
      as Hpos.
    { intros u v Huv. apply (sc_pos _ _ _ Hsc). left. fold L.
      destruct (decide (last < j')).
      - exists last, j', k'. split_and!; [lia..|done|done|].
        rewrite Nat.min_l, Nat.max_r in Huv by lia.
        destruct Huv as [[[-> | ->] ->]|[-> ->]]; auto.
      - exists j', last, k'. split_and!; [lia..|by apply connects_sym| |].
        + intros k'' Hlt Hk''%connects_sym. by apply (Hfirst k'').
        + rewrite Nat.min_r, Nat.max_l in Huv by lia.
          destruct Huv as [[[-> | ->] ->]|[-> ->]]; auto. }
    split; [unfold polarity; apply Hpos; auto|].
    exists k'. split_and!; [done..| |].
    + apply polarity_lt; [lia|]. apply Hpos. auto.
    + apply polarity_lt; [lia|]. apply Hpos. auto.
Qed.

Lemma duplicate_name_binds_last_witness :
  ∃ d, generate_bubble_diagram twin_bedrooms = Ok d ∧
  ∃ last,
    make_room_dict (room_list d) !! "bedroom1"%string = Some last ∧
    1 ≤ last ∧ room_list d !! last = Some "bedroom1"%string ∧
    (∀ j, last < j → room_list d !! j ≠ Some "bedroom1"%string) ∧
    ("bedroom1"%string ∉ door_list "interior_door" 1 ++ door_list "front_door" 1 →
     last < 3) ∧
    (∀ name, room_name_dict d !! name = Some "bedroom1"%string →
             room_node d name = Some last) ∧
    (∀ u, u < 5 → u ≠ 0 → polarity (graph_edges d) u 0 (-1)) ∧
    (∀ k name, front_door twin_bedrooms !! k = Some name →
       room_name_dict d !! name = Some "bedroom1"%string →
       polarity (graph_edges d) last (3 + 1 + k) 1) ∧
    (∀ k a b, connection twin_bedrooms !! k = Some (a, b) →
       room_name_dict d !! a = Some "bedroom1"%string ∨
       room_name_dict d !! b = Some "bedroom1"%string →
       ∃ j, connects twin_bedrooms d k last j ∧
         (last < 3 → j < 3 → j ≠ last →
          polarity (graph_edges d) last j 1 ∧
          ∃ k', k' ≤ k ∧ connects twin_bedrooms d k' last j ∧
            (∀ k'', k'' < k' → ¬ connects twin_bedrooms d k'' last j) ∧
            polarity (graph_edges d) last (3 + k') 1 ∧
            polarity (graph_edges d) j (3 + k') 1)).
Proof.
  eexists. split; [by vm_compute|].
  apply (duplicate_name_binds_last twin_bedrooms _ 0 1 "bedroom1"); [done|lia|done..].
Defined.

(** ** Type codes of the door nodes *)

(** With at most nine doors of a kind, [room[:-1]] strips the whole
    ordinal and the door names map to their dedicated codes. *)
Lemma one_digit_door_codes k :
  k < 9 →
  room_type_index ("interior_door" +:+ str (S k)) = 17 ∧
  room_type_index ("front_door" +:+ str (S k)) = 15.
Proof.
  intros Hk. do 9 (destruct k as [|k]; [by vm_compute|]). lia.
Qed.

Lemma unmatched_type_is_unknown room :
  type_list !! but_last room = None → room_type_index room = 16.
Proof. unfold room_type_index. by intros ->. Qed.

(** C8 fails on the code: the node of the tenth connection is named
    [interior_door10], [room[:-1]] is [interior_door1], which is not a key
    of [type_list], and the node gets the code of [unknown], 16, not 17. *)
Theorem tenth_interior_door_is_unknown :
  well_formed ten_connections ∧
  ∃ d, generate_bubble_diagram ten_connections = Ok d ∧
    room_list d !! 14 = Some "interior_door10"%string ∧
    but_last "interior_door10" = "interior_door1"%string ∧
    room_list_indices d !! 13 = Some 17 ∧
    room_list_indices d !! 14 = Some 16.
Proof.
  split.
  - apply well_formed_check_correct, (bool_decide_unpack _). by vm_compute.
  - eexists. split; [by vm_compute|]. by vm_compute.
Qed.

(** ** Repeated connections *)

Lemma sc_elem n P l i s j :
  signed_complete n P l →
  (i, s, j) ∈ l ↔ i < j < n ∧ ((s = 1%Z ∧ P i j) ∨ (s = (-1)%Z ∧ ¬ P i j)).
Proof.
  intros Hsc. split.
  - intros Hin. destruct (sc_range _ _ _ Hsc _ _ _ Hin) as [Hij [-> | ->]].
    + split; [done|]. right. split; [done|]. by apply (sc_neg_not_pos Hsc).
    + split; [done|]. left. split; [done|]. by apply (sc_pos _ _ _ Hsc).
  - intros [Hij [[-> HP]|[-> HP]]].
    + by apply (sc_pos _ _ _ Hsc).
    + by apply (sc_neg_elem Hsc).
Qed.

(** A room that is not named like a door has the index it has among the
    real rooms, however many doors there are. *)
Lemma real_room_lookup modified C F room :
  room ∈ modified →
  room ∉ door_list "interior_door" C ++ door_list "front_door" F →
  make_room_dict (nodes_of modified C F) !! room = make_room_dict modified !! room.
Proof.
  intros Hin Hfree.
  destruct (real_room_node modified C F room Hin Hfree) as (i & Hi & Hlt).
  rewrite Hi. symmetry. apply make_room_dict_lookup in Hi as [Hi Hafter].
  unfold nodes_of in Hi, Hafter. rewrite lookup_app_l in Hi by done.
  apply make_room_dict_lookup. split; [done|].
  intros j Hj Hl. apply (Hafter j Hj). by apply lookup_app_l_Some.
Qed.



Section repeated_connection.
Context (r' : Response) (k1 k2 : nat) (p q : string * string).
Hypothesis Hrefs : references_resolve r'.
Hypothesis Hfree : door_free r'.
Hypothesis Hk12 : k1 < k2.
Hypothesis Hk1 : connection r' !! k1 = Some p.
Hypothesis Hk2 : connection r' !! k2 = Some q.
Hypothesis Hsame : same_pair p q.
Let r := remove_connection k2 r'.
Let L := length (modified_room_list r').
Let C := length (connection r).
Let F := length (front_door r').




Context (d d' : Diagram).
Hypothesis Hrun : generate_bubble_diagram r = Ok d.
Hypothesis Hrun' : generate_bubble_diagram r' = Ok d'.





End repeated_connection.




(** * The freeze schedule of generate_layout_masks *)

Lemma elem_of_where_eq `{EqDecision A} (l : list A) t i :
  i ∈ where_eq l t ↔ l !! i = Some t.
Proof.
  unfold where_eq. rewrite list_elem_of_fmap. split.
  - intros ([i' x] & -> & [Hx [j Hj]%list_elem_of_lookup]%list_elem_of_filter).
    rewrite list_lookup_imap in Hj. simpl in *.
    destruct (l !! j) eqn:Hl; simplify_eq/=. done.
  - intros Hi. exists (i, t). split; [done|]. apply list_elem_of_filter. split; [done|].
    apply list_elem_of_lookup. exists i. by rewrite list_lookup_imap, Hi.
Qed.

Lemma elem_of_fixed_nodes_of real_nodes _types i :
  i ∈ fixed_nodes_of real_nodes _types ↔
  ∃ t, real_nodes !! i = Some t ∧ t ∈ _types.
Proof.
  unfold fixed_nodes_of. case_bool_decide as Hlen.
  - rewrite list_elem_of_bind. by setoid_rewrite elem_of_where_eq.
  - destruct _types; [|simpl in Hlen; lia]. split; [by intros ?%elem_of_nil|].
    by intros (t & _ & ?%elem_of_nil).
Qed.

Lemma insert_sorted_le x l :
  StronglySorted le l → StronglySorted le (insert_sorted id Nat.leb x l).
Proof.
  induction l as [|y l IH]; simpl; [by repeat constructor|].
  intros [Hy Hl]%StronglySorted_cons.
  destruct (Nat.leb_spec x y) as [Hxy|Hxy].
  - apply StronglySorted_cons. split; [|by apply StronglySorted_cons].
    constructor; [done|]. eapply Forall_impl; [exact Hy|]. intros; simpl in *; lia.
  - apply StronglySorted_cons. split; [|by apply IH].
    rewrite (insert_sorted_perm id Nat.leb x l). constructor; [lia|done].
Qed.

(** [sorted(list(set(l)))] is the strictly ascending list of the values of [l]. *)
Lemma sorted_set_spec l :
  StronglySorted lt (sorted_set l) ∧ ∀ t, t ∈ sorted_set l ↔ t ∈ l.
Proof.
  unfold sorted_set. split.
  - assert (StronglySorted le (sorted id Nat.leb (remove_dups l))) as Hle.
    { generalize (remove_dups l). intros l'. induction l' as [|x l' IH]; simpl;
        [constructor|by apply insert_sorted_le]. }
    assert (NoDup (sorted id Nat.leb (remove_dups l))) as Hnd.
    { rewrite sorted_perm. apply NoDup_remove_dups. }
    induction Hle as [|x l' Hl' IH Hx]; [constructor|].
    apply NoDup_cons in Hnd as [Hnotin Hnd]. constructor; [by apply IH|].
    apply Forall_forall. intros y Hy. rewrite Forall_forall in Hx.
    specialize (Hx y Hy). assert (x ≠ y) by (by intros ->). lia.
  - intros t. by rewrite sorted_perm, elem_of_remove_dups.
Qed.

Lemma StronglySorted_lt_NoDup (l : list nat) : StronglySorted lt l → NoDup l.
Proof.
  induction 1 as [|x l Hl IH Hx]; constructor; [|done].
  intros Hin. rewrite Forall_forall in Hx. specialize (Hx x Hin). lia.
Qed.

Section layout_schedule.
Context {Masks World : Type} (_infer : Graph → State Masks → World → Masks * World).
Context (nodes : list (list Z)) (edges : list triple).
Let real_nodes := real_nodes_of nodes.
Let _types := sorted_set real_nodes.

Lemma call_infer_log graph st (w : World * list (State Masks)) :
  (call_infer _infer graph st w).2.2 = w.2 ++ [st].
Proof using Type. unfold call_infer. by destruct (_infer graph st w.1). Qed.

(** The log after the run: the initial state, then one state per element
    of [selected_types]. *)
Lemma generate_layout_masks_log w :
  ∃ ms, length ms = 10 ∧
    (generate_layout_masks _infer nodes edges w).2.2 =
      w.2 ++ {| masks := None; fixed_nodes := [] |} ::
        zip_with (λ m ts, {| masks := Some m; fixed_nodes := fixed_nodes_of real_nodes ts |})
          ms (selected_types _types).
Proof using Type.
  unfold generate_layout_masks. fold real_nodes _types.
  pose proof (call_infer_log (nodes, edges) {| masks := None; fixed_nodes := [] |} w) as Hfirst.
  destruct (call_infer _ _ _ w) as [m0 w0]. simpl in Hfirst.
  assert (length (selected_types _types) = 10) as Hlen by done.
  revert Hlen. generalize (selected_types _types) as l. generalize 10 as len.
  intros len l Hlen.
  assert (∀ (acc : Masks * (World * list (State Masks))),
    ∃ ms, length ms = length l ∧
      (foldl (λ (acc : Masks * (World * list (State Masks))) ts,
                call_infer _infer (nodes, edges)
                  {| masks := Some acc.1; fixed_nodes := fixed_nodes_of real_nodes ts |}
                  acc.2) acc l).2.2 =
      acc.2.2 ++ zip_with (λ m ts, {| masks := Some m;
                                      fixed_nodes := fixed_nodes_of real_nodes ts |}) ms l)
    as Hfold.
  { clear Hlen. induction l as [|ts l IH]; intros acc; simpl.
    - exists []. by rewrite app_nil_r.
    - destruct (IH (call_infer _infer (nodes, edges)
                {| masks := Some acc.1; fixed_nodes := fixed_nodes_of real_nodes ts |}
                acc.2)) as (ms & Hlen & ->).
      exists (acc.1 :: ms). split; [simpl; lia|].
      rewrite call_infer_log. simpl. by rewrite <- app_assoc. }
  destruct (Hfold (m0, w0)) as (ms & Hms & ->).
  exists ms. split; [lia|]. simpl. rewrite Hfirst. by rewrite <- app_assoc.
Qed.
(** The state handed to [_infer] in round [k]. *)
Lemma generate_layout_masks_round w k :
  k < 10 →
  ∃ m, (generate_layout_masks _infer nodes edges (w, [])).2.2 !! S k =
    Some {| masks := Some m;
            fixed_nodes := fixed_nodes_of real_nodes (take (k + 1) _types) |}.
Proof using Type.
  intros Hk. destruct (generate_layout_masks_log (w, [])) as (ms & Hlen & ->). simpl.
  destruct (lookup_lt_is_Some_2 ms k) as [m Hm]; [lia|]. exists m.
  rewrite lookup_zip_with, Hm. simpl. unfold selected_types.
  by rewrite list_lookup_fmap, lookup_seq_lt.
Qed.
End layout_schedule.

(** C4, amended: [generate_layout_masks] calls the generator once with no
    masks and no fixed node and then exactly ten more times, for
    [k = 0 .. 9], whatever the number of distinct types; in round [k] the
    fixed nodes are exactly the nodes, rooms and doors alike, whose type is
    among the first [k + 1] of the ascending list of the distinct types of
    all nodes. *)
Theorem refinement_rounds {Masks World : Type}
    (_infer : Graph → State Masks → World → Masks * World) nodes edges w :
  let real_nodes := real_nodes_of nodes in
  let _types := sorted_set real_nodes in
  let log := (generate_layout_masks _infer nodes edges (w, [])).2.2 in
  length log = 11 ∧
  log !! 0 = Some {| masks := None; fixed_nodes := [] |} ∧
  StronglySorted lt _types ∧ (∀ t, t ∈ _types ↔ t ∈ real_nodes) ∧
  ∀ k, k < 10 →
    ∃ st, log !! S k = Some st ∧ is_Some (masks st) ∧
      ∀ i, i ∈ fixed_nodes st ↔
           ∃ t, real_nodes !! i = Some t ∧ t ∈ take (k + 1) _types.
Proof.
  intros real_nodes _types log.
  destruct (sorted_set_spec real_nodes) as [Hsorted Helem].
  split_and!; [| |done..|].
  - unfold log. destruct (generate_layout_masks_log _infer nodes edges (w, []))
      as (ms & Hlen & ->).
    simpl. rewrite length_zip_with. unfold selected_types.
    rewrite length_fmap, length_seq. lia.
  - unfold log. by destruct (generate_layout_masks_log _infer nodes edges (w, []))
      as (ms & Hlen & ->).
  - intros k Hk. destruct (generate_layout_masks_round _infer nodes edges w k Hk) as [m Hm].
    eexists. split; [exact Hm|]. split; [by eexists|]. simpl.
    intros i. apply elem_of_fixed_nodes_of.
Qed.

(** C5, amended: from one round to the next the fixed set never loses a
    node; it gains one exactly while types are left ([k + 1] below the
    number of distinct types) and stays the same from then on. *)
Theorem fixed_nodes_grow {Masks World : Type}
    (_infer : Graph → State Masks → World → Masks * World) nodes edges w k :
  k < 9 →
  let _types := sorted_set (real_nodes_of nodes) in
  let log := (generate_layout_masks _infer nodes edges (w, [])).2.2 in
  ∃ st st', log !! S k = Some st ∧ log !! S (S k) = Some st' ∧
    (∀ i, i ∈ fixed_nodes st → i ∈ fixed_nodes st') ∧
    (k + 1 < length _types → ∃ i, i ∈ fixed_nodes st' ∧ i ∉ fixed_nodes st) ∧
    (length _types ≤ k + 1 → fixed_nodes st' = fixed_nodes st).
Proof.
  intros Hk _types log.
  destruct (generate_layout_masks_round _infer nodes edges w k) as [m Hm]; [lia|].
  destruct (generate_layout_masks_round _infer nodes edges w (S k)) as [m' Hm']; [lia|].
  destruct (sorted_set_spec (real_nodes_of nodes)) as [Hsorted Helem].
  fold _types in Hm, Hm', Hsorted, Helem.
  eexists _, _. split; [exact Hm|]. split; [exact Hm'|]. simpl. split_and!.
  - intros i (t & Hi & Ht)%elem_of_fixed_nodes_of. apply elem_of_fixed_nodes_of.
    exists t. split; [done|]. apply list_elem_of_lookup in Ht as [j Hj].
    apply lookup_take_Some in Hj as [Hj Hlt]. apply list_elem_of_lookup. exists j.
    apply lookup_take_Some. split; [done|lia].
  - intros Hlen. destruct (lookup_lt_is_Some_2 _types (k + 1) Hlen) as [t Ht].
    assert (t ∈ real_nodes_of nodes) as [i Hi]%list_elem_of_lookup
      by (by eapply Helem, list_elem_of_lookup_2).
    exists i. split.
    + apply elem_of_fixed_nodes_of. exists t. split; [done|].
      apply list_elem_of_lookup. exists (k + 1). apply lookup_take_Some. split; [done|lia].
    + intros (t' & Hi' & [j Hj]%list_elem_of_lookup)%elem_of_fixed_nodes_of.
      apply lookup_take_Some in Hj as [Hj Hlt]. simplify_eq.
      pose proof (NoDup_lookup _ _ _ _ (StronglySorted_lt_NoDup _ Hsorted) Ht Hj). lia.
  - intros Hlen. by rewrite !take_ge by lia.
Qed.

Example scenario_types :
  room_list_indices scenario_diagram = [2; 3; 17; 15] ∧
  real_nodes_of scenario_nodes = [1; 2; 16; 14] ∧
  sorted_set (real_nodes_of scenario_nodes) = [1; 2; 14; 16].
Proof. by vm_compute. Qed.

(** C4 as stated fails: in round 2 of the scenario the fixed nodes are the
    kitchen, the bedroom and node 3, the front door, where the claim has
    the two real rooms only (whether the [k + 1] smallest types are taken
    among the types of the rooms or among those of all nodes). *)
Lemma door_node_is_fixed :
  let real_nodes := real_nodes_of scenario_nodes in
  fixed_nodes <$> scenario_log !! 3 = Some [0; 1; 3] ∧
  spec_fixed_nodes real_nodes (room_types real_nodes) 2 = [0; 1] ∧
  spec_fixed_nodes real_nodes (sorted_set real_nodes) 2 = [0; 1] ∧
  room_list scenario_diagram !! 3 = Some "front_door1"%string ∧
  fixed_nodes <$> scenario_log !! 3
    ≠ Some (spec_fixed_nodes real_nodes (room_types real_nodes) 2).
Proof. by vm_compute. Qed.

(** C5 as stated fails: the scenario has four distinct types, so round 4
    fixes the same nodes as round 3. *)
Lemma fixed_nodes_stall :
  ∃ st st', scenario_log !! 4 = Some st ∧ scenario_log !! 5 = Some st' ∧
    fixed_nodes st = [0; 1; 3; 2] ∧ fixed_nodes st' = [0; 1; 3; 2] ∧
    ¬ ∃ i, i ∈ fixed_nodes st' ∧ i ∉ fixed_nodes st.
Proof.
  eexists _, _. split; [by vm_compute|]. split; [by vm_compute|].
  split; [done|]. split; [done|]. by intros (i & Hi & Hni).
Qed.

Lemma fixed_nodes_grow_witness :
  ∃ st st', scenario_log !! 1 = Some st ∧ scenario_log !! 2 = Some st' ∧
    (∀ i, i ∈ fixed_nodes st → i ∈ fixed_nodes st') ∧
    (0 + 1 < length (sorted_set (real_nodes_of scenario_nodes)) →
     ∃ i, i ∈ fixed_nodes st' ∧ i ∉ fixed_nodes st) ∧
    (length (sorted_set (real_nodes_of scenario_nodes)) ≤ 0 + 1 →
     fixed_nodes st' = fixed_nodes st).
Proof.
  apply (fixed_nodes_grow stub_infer scenario_nodes (graph_edges scenario_diagram) tt 0).
  lia.
Defined.

(** * Locating the JSON object *)

Lemma scan_body b : body b → ∀ d rest,
  scan d (b ++ rest) = (λ n, length b + n) <$> scan d rest.
Proof.
  induction 1 as [|c b Hl Hr _ IH|b1 b2 _ IH1 _ IH2]; intros d rest; simpl.
  - by destruct (scan d rest).
  - rewrite decide_False, decide_False by done. rewrite IH.
    by destruct (scan d rest).
  - rewrite <- app_assoc. simpl. rewrite IH1. simpl. rewrite IH2.
    rewrite length_app. simpl. destruct (scan d rest); simpl; [f_equal; lia|done].
Qed.

(** The pattern matches a balanced text wherever it starts. *)
Lemma match_here_balanced m rest : balanced m → match_here (m ++ rest) = Some m.
Proof.
  intros (b & -> & Hb). simpl.
  rewrite <- app_assoc. simpl. rewrite (scan_body b Hb). simpl.
  f_equal. f_equal. rewrite Nat.add_1_r. simpl.
  rewrite (cons_middle rbrace), app_assoc.
  rewrite take_app_length'; [done|]. rewrite length_app. simpl. lia.
Qed.

Lemma closes_char c d w : c ≠ lbrace → c ≠ rbrace → closes d w → closes d (c :: w).
Proof.
  intros Hl Hr. destruct 1 as [b Hb|d b w Hb Hw].
  - apply (closes_O (c :: b)). by constructor.
  - apply (closes_S d (c :: b) w); [by constructor|done].
Qed.

Lemma closes_group d w : closes (S d) w → closes d (lbrace :: w).
Proof.
  inversion 1 as [|d' b w' Hb Hw']; subst. destruct Hw' as [b' Hb'|d' b' w'' Hb' Hw''].
  - replace (lbrace :: b ++ rbrace :: b' ++ [rbrace])
      with ((lbrace :: b ++ rbrace :: b') ++ [rbrace])
      by (simpl; by rewrite <- app_assoc).
    apply closes_O. by constructor.
  - replace (lbrace :: b ++ rbrace :: b' ++ rbrace :: w'')
      with ((lbrace :: b ++ rbrace :: b') ++ rbrace :: w'')
      by (simpl; by rewrite <- app_assoc).
    apply closes_S; [by constructor|done].
Qed.

Lemma scan_closes s : ∀ d n, scan d s = Some n → closes d (take n s) ∧ n ≤ length s.
Proof.
  induction s as [|c s IH]; intros d n; simpl; [done|].
  case_decide as Hl; [|case_decide as Hr].
  - destruct (scan (S d) s) as [n'|] eqn:Hscan; [|done]. intros [= <-].
    destruct (IH _ _ Hscan) as [Hc Hlen]. subst c. simpl.
    split; [by apply closes_group|lia].
  - destruct d as [|d].
    + intros [= <-]. simpl. rewrite take_0. subst c. split; [apply (closes_O []); constructor|lia].
    + destruct (scan d s) as [n'|] eqn:Hscan; [|done]. intros [= <-].
      destruct (IH _ _ Hscan) as [Hc Hlen]. subst c. simpl.
      split; [apply (closes_S d []); [constructor|done]|lia].
  - destruct (scan d s) as [n'|] eqn:Hscan; [|done]. intros [= <-].
    destruct (IH _ _ Hscan) as [Hc Hlen]. simpl. split; [by apply closes_char|lia].
Qed.

Lemma closes_O_inv w : closes 0 w → ∃ b, w = b ++ [rbrace] ∧ body b.
Proof. inversion 1; eauto. Qed.

(** What the pattern matches at a position is balanced. *)
Lemma match_here_Some s m :
  match_here s = Some m → balanced m ∧ ∃ rest, s = m ++ rest.
Proof.
  destruct s as [|c s]; simpl; [done|]. case_decide as Hc; [|done]. subst c.
  destruct (scan 0 s) as [n|] eqn:Hscan; [|done]. intros [= <-].
  destruct (scan_closes _ _ _ Hscan) as [Hcl Hlen]. split.
  - apply closes_O_inv in Hcl as (b & Heq & Hb). exists b. by rewrite Heq.
  - exists (drop n s). simpl. by rewrite take_drop.
Qed.

(** [regex.search] finds the first balanced text, and nothing exactly when
    no part of the text is balanced. *)
Lemma regex_search_unfold s :
  regex_search s =
    match match_here s with
    | Some m => Some m
    | None => match s with [] => None | _ :: s' => regex_search s' end
    end.
Proof. by destruct s. Qed.

Lemma regex_search_first pre m post :
  lbrace ∉ pre → balanced m → regex_search (pre ++ m ++ post) = Some m.
Proof.
  intros Hpre Hm. induction pre as [|c pre IH].
  - simpl. by rewrite regex_search_unfold, match_here_balanced.
  - apply not_elem_of_cons in Hpre as [Hc Hpre].
    rewrite regex_search_unfold. simpl. rewrite decide_False by done. by apply IH.
Qed.

Lemma regex_search_None s :
  regex_search s = None ↔ ∀ pre m post, s = pre ++ m ++ post → ¬ balanced m.
Proof.
  induction s as [|c s IH].
  - split; [|done]. intros _ pre m post Heq (b & -> & _).
    by destruct pre.
  - cbn [regex_search]. destruct (match_here (c :: s)) as [m|] eqn:Hmatch.
    + split; [done|]. intros Hnone.
      destruct (match_here_Some _ _ Hmatch) as [Hm [rest Hrest]].
      destruct (Hnone [] m rest); done.
    + rewrite IH. split.
      * intros Hnone [|c' pre] m post Heq Hm.
        -- simpl in Heq. rewrite Heq, match_here_balanced in Hmatch; done.
        -- injection Heq as -> ->. by eapply Hnone.
      * intros Hnone pre m post ->. by apply (Hnone (c :: pre) m post).
Qed.

Lemma regex_search_Some s m :
  regex_search s = Some m →
  balanced m ∧ ∃ pre post, s = pre ++ m ++ post ∧
    ∀ pre' m' post', s = pre' ++ m' ++ post' → balanced m' → length pre ≤ length pre'.
Proof.
  induction s as [|c s IH]; [done|].
  cbn [regex_search]. destruct (match_here (c :: s)) as [m'|] eqn:Hmatch.
  - intros [= ->]. destruct (match_here_Some _ _ Hmatch) as [Hm [rest Hrest]].
    split; [done|]. exists [], rest. split; [done|]. intros; simpl; lia.
  - intros Hs. destruct (IH Hs) as (Hm & pre & post & -> & Hfirst).
    split; [done|]. exists (c :: pre), post. split; [done|].
    intros [|c' pre'] m' post' Heq Hm'.
    + simpl in Heq. rewrite Heq, match_here_balanced in Hmatch; done.
    + injection Heq as -> Heq. simpl. apply le_n_S. by eapply Hfirst.
Qed.

(** Dropping a character other than a brace keeps a text balanced. *)
Lemma remove_char_body c b :
  c ≠ lbrace → c ≠ rbrace → body b → body (remove_char c b).
Proof.
  intros Hl Hr. unfold remove_char. induction 1 as [|c' b ? ? _ IH|b1 b2 _ IH1 _ IH2].
  - constructor.
  - rewrite filter_cons. case_decide; [by constructor|done].
  - rewrite filter_cons_True by done. rewrite filter_app, filter_cons_True by done.
    by constructor.
Qed.

Lemma remove_char_balanced c m :
  c ≠ lbrace → c ≠ rbrace → balanced m → balanced (remove_char c m).
Proof.
  intros Hl Hr (b & -> & Hb). exists (remove_char c b). split; [|by apply remove_char_body].
  unfold remove_char. rewrite filter_cons_True by done.
  by rewrite filter_app, (filter_cons_True _ rbrace) by done.
Qed.

Lemma raw_response_balanced m : balanced m → balanced (raw_response_of m).
Proof. intros. unfold raw_response_of. by do 2 (apply remove_char_balanced; [done..|]). Qed.

Lemma raw_response_app s1 s2 :
  raw_response_of (s1 ++ s2) = raw_response_of s1 ++ raw_response_of s2.
Proof. unfold raw_response_of, remove_char. by rewrite !filter_app. Qed.

Lemma raw_response_no_brace s : lbrace ∉ s → lbrace ∉ raw_response_of s.
Proof.
  unfold raw_response_of, remove_char. rewrite !list_elem_of_filter. tauto.
Qed.

Lemma locate_json_after_prose pre obj post :
  lbrace ∉ pre → balanced obj →
  locate_json (pre ++ obj ++ post) = Ok (raw_response_of obj).
Proof.
  intros Hpre Hobj. unfold locate_json. rewrite !raw_response_app.
  by rewrite regex_search_first by auto using raw_response_no_brace, raw_response_balanced.
Qed.

(** C7, amended: when the response holds a balanced-brace object after
    prose without an opening brace, the parser extracts the text of that
    object, less its spaces and newlines, whatever follows it, a
    second object included; and it fails, with [AttributeError], exactly
    when no part of the response is balanced. *)
Theorem locate_json_first_object :
  (∀ pre obj post, lbrace ∉ pre → balanced obj →
     locate_json (pre ++ obj ++ post) = Ok (raw_response_of obj)) ∧
  (∀ pre obj1 between obj2 post, lbrace ∉ pre → balanced obj1 → balanced obj2 →
     locate_json (pre ++ obj1 ++ between ++ obj2 ++ post) = Ok (raw_response_of obj1)) ∧
  (∀ s, locate_json s = Raise AttributeError ↔
        ∀ pre m post, raw_response_of s = pre ++ m ++ post → ¬ balanced m).
Proof.
  split_and!.
  - apply locate_json_after_prose.
  - intros pre obj1 between obj2 post Hpre Hobj1 _. by apply locate_json_after_prose.
  - intros s. rewrite <- regex_search_None. unfold locate_json.
    destruct (regex_search _); split; done.
Qed.

Lemma parse_response_first_object json_loads pre obj post :
  lbrace ∉ pre → balanced obj →
  parse_response json_loads (pre ++ obj ++ post) = json_loads (raw_response_of obj).
Proof.
  intros Hpre Hobj. unfold parse_response.
  by rewrite locate_json_after_prose.
Qed.

(** C7 as stated fails: on a response with two top-level objects the
    parser does not fail, it extracts the first object, as it does when the
    first object is the whole response. *)
Lemma second_object_is_ignored :
  locate_json two_objects = Ok first_object ∧
  locate_json first_object = Ok first_object ∧
  match_here second_object = Some second_object ∧
  ¬ ∃ e, locate_json two_objects = Raise e.
Proof. split_and!; [by vm_compute..|]. by intros [e He]; vm_compute in He. Qed.

(** Spaces go before the search, inside the strings of the object too. *)
Example spaces_inside_strings :
  locate_json (json_text "Sure: {'front_door':['dining room1']} Done.")
  = Ok (json_text "{'front_door':['diningroom1']}").
Proof. by vm_compute. Qed.

Lemma first_object_balanced : balanced first_object.
Proof. apply (match_here_Some first_object first_object). by vm_compute. Qed.

Lemma locate_json_first_object_witness :
  locate_json (json_text "Here is the floorplan: " ++ first_object ++ second_object)
  = Ok (raw_response_of first_object).
Proof.
  apply (proj1 locate_json_first_object).
  - apply (bool_decide_unpack _). by vm_compute.
  - exact first_object_balanced.
Defined.

Lemma refinement_rounds_witness :
  length scenario_log = 11 ∧
  scenario_log !! 0 = Some {| masks := None; fixed_nodes := [] |}.
Proof.
  destruct (refinement_rounds stub_infer scenario_nodes (graph_edges scenario_diagram) tt)
    as (Hlen & Hfirst & _).
  split; [exact Hlen|exact Hfirst].
Defined.

(** * The returned edges are in order *)

Lemma key_leb_total k1 k2 : key_leb k1 k2 = false → key_leb k2 k1 = true.
Proof.
  unfold key_leb. destruct k1 as [a b], k2 as [c e]. simpl.
  destruct (Nat.ltb_spec a c), (Nat.eqb_spec a c), (Nat.leb_spec b e),
    (Nat.ltb_spec c a), (Nat.eqb_spec c a), (Nat.leb_spec e b); simpl; try done; lia.
Qed.

Lemma key_leb_trans k1 k2 k3 :
  key_leb k1 k2 = true → key_leb k2 k3 = true → key_leb k1 k3 = true.
Proof.
  unfold key_leb. destruct k1 as [a b], k2 as [c e], k3 as [f g]. simpl.
  destruct (Nat.ltb_spec a c), (Nat.eqb_spec a c), (Nat.leb_spec b e),
    (Nat.ltb_spec c f), (Nat.eqb_spec c f), (Nat.leb_spec e g),
    (Nat.ltb_spec a f), (Nat.eqb_spec a f), (Nat.leb_spec b g); simpl; try done; lia.
Qed.

Lemma insert_sorted_key_le x l :
  StronglySorted key_le l → StronglySorted key_le (insert_sorted triple_key key_leb x l).
Proof.
  induction l as [|y l IH]; simpl; [by repeat constructor|].
  intros [Hy Hl]%StronglySorted_cons.
  destruct (key_leb (triple_key x) (triple_key y)) eqn:Hxy.
  - apply StronglySorted_cons. split; [|by apply StronglySorted_cons].
    constructor; [done|]. eapply Forall_impl; [exact Hy|].
    intros z Hz. by eapply key_leb_trans.
  - apply StronglySorted_cons. split; [|by apply IH].
    rewrite (insert_sorted_perm triple_key key_leb x l).
    constructor; [by apply key_leb_total|done].
Qed.

(** The returned triples are sorted by [(i, j)]. *)
Lemma graph_edges_sorted r d :
  generate_bubble_diagram r = Ok d → StronglySorted key_le (graph_edges d).
Proof.
  intros Hrun.
  destruct (generate_bubble_diagram_inv r d Hrun) as (_ & _ & _ & t2 & _ & _ & _ & -> & _).
  induction t2 as [|x t2 IH]; simpl; [constructor|by apply insert_sorted_key_le].
Qed.

(** The scenario of the spec: four nodes, [+1] between kitchen and bedroom,
    between each of them and the interior door 2, and between the kitchen
    and the front door 3. *)
Example scenario_graph :
  generate_bubble_diagram scenario = Ok scenario_diagram ∧
  room_list scenario_diagram
    = ["kitchen1"; "bedroom1"; "interior_door1"; "front_door1"]%string ∧
  graph_edges scenario_diagram
    = [(0, 1%Z, 1); (0, 1%Z, 2); (0, 1%Z, 3); (1, 1%Z, 2); (1, (-1)%Z, 3); (2, (-1)%Z, 3)].
Proof. by vm_compute. Qed.

(** * Further properties of the compiler *)

(** ** When the compiler returns *)

Lemma room_node_run r d name :
  generate_bubble_diagram r = Ok d →
  room_node d name =
    py_dict (zip (complete_room_list r) (modified_room_list r)) !! name ≫= λ room,
      make_room_dict (nodes_of (modified_room_list r) (length (connection r))
                        (length (front_door r))) !! room.
Proof.
  intros Hrun.
  destruct (generate_bubble_diagram_inv r d Hrun) as (? & ? & ? & ? & Hrnd & Hnodes & _).
  unfold room_node. by rewrite Hrnd, Hnodes.
Qed.

Lemma front_room_node_run r d k :
  generate_bubble_diagram r = Ok d →
  front_room_node r k = front_door r !! k ≫= room_node d.
Proof.
  intros Hrun. unfold front_room_node.
  destruct (front_door r !! k) as [name|]; simpl; [|done].
  by rewrite (room_node_run r d name Hrun).
Qed.

Lemma door_free_room_node_lt r d name i :
  door_free r → generate_bubble_diagram r = Ok d →
  room_node d name = Some i → i < length (modified_room_list r).
Proof.
  intros Hfree Hrun. rewrite (room_node_run r d name Hrun).
  destruct (py_dict _ !! name) as [room|] eqn:Hroom; simpl; [|done].
  intros Hi. apply room_name_dict_value in Hroom.
  destruct (real_room_node (modified_room_list r) (length (connection r))
              (length (front_door r)) room Hroom (Hfree room Hroom)) as (i' & Hi' & Hlt).
  rewrite Hi in Hi'. by injection Hi' as <-.
Qed.

Lemma py_maps_names_resolve r conn_std fd_std :
  let rnd := py_dict (zip (complete_room_list r) (modified_room_list r)) in
  py_map (translate_pair rnd) (connection r) = Ok conn_std →
  py_map (getitem rnd) (front_door r) = Ok fd_std →
  names_resolve r.
Proof.
  intros rnd Hconn%py_map_Ok Hfd%py_map_Ok. split.
  - intros a b [k Hk]%list_elem_of_lookup.
    destruct (Forall2_lookup_l _ _ _ _ _ Hconn Hk) as ([sa sb] & _ & Hres).
    apply bind_Ok in Hres as (? & Ha%getitem_Ok & Hres).
    apply bind_Ok in Hres as (? & Hb%getitem_Ok & _). simpl in Ha, Hb.
    fold rnd. rewrite Ha, Hb. eauto.
  - intros name [k Hk]%list_elem_of_lookup.
    destruct (Forall2_lookup_l _ _ _ _ _ Hfd Hk) as (room & _ & Hres%getitem_Ok).
    fold rnd. rewrite Hres. eauto.
Qed.

Lemma run_names_resolve r d : generate_bubble_diagram r = Ok d → names_resolve r.
Proof.
  intros Hrun. unfold generate_bubble_diagram in Hrun.
  apply bind_Ok in Hrun as (conn_std & Hconn_std & Hrun).
  apply bind_Ok in Hrun as (fd_std & Hfd_std & _).
  by eapply py_maps_names_resolve.
Qed.

Lemma run_front_rooms_precede r d :
  generate_bubble_diagram r = Ok d → front_rooms_precede r.
Proof.
  intros Hrun k i Hi. rewrite (front_room_node_run r d k Hrun) in Hi.
  destruct (front_door r !! k) as [name|] eqn:Hk; simpl in Hi; [|done].
  pose proof (generate_bubble_diagram_graph r d Hrun) as Hsc.
  assert (positive_edge r d i
            (length (modified_room_list r) + length (connection r) + k)) as Hpos.
  { right. by exists k, name. }
  apply (sc_pos _ _ _ Hsc) in Hpos. apply (sc_range _ _ _ Hsc) in Hpos. lia.
Qed.

Lemma resolved_run r :
  names_resolve r → front_rooms_precede r → ∃ d, generate_bubble_diagram r = Ok d.
Proof.
  intros [Hc Hf] Hp. apply generate_bubble_diagram_total; [done..|].
  intros k name room i Hk Hroom Hi. apply Hp. unfold front_room_node.
  rewrite Hk. simpl. rewrite Hroom. done.
Qed.

Lemma front_rooms_precede_check r :
  Forall (front_room_precedes r) (seq 0 (length (front_door r))) → front_rooms_precede r.
Proof.
  rewrite Forall_forall. intros Hall k i Hi.
  assert (k < length (front_door r)) as Hk.
  { unfold front_room_node in Hi.
    destruct (front_door r !! k) eqn:Hk; [by eapply lookup_lt_Some|done]. }
  specialize (Hall k). unfold front_room_precedes in Hall. rewrite Hi in Hall.
  apply Hall, elem_of_seq. lia.
Qed.

(** The exceptions of the compiler on a response whose keys are read and
    whose connection entries are pairs: [KeyError], on a name mentioned by
    a connection or a front-door entry that [room_name_dict] does not
    hold; and [ValueError], when every name resolves but the room of some
    front-door entry is not a node before that entry's front door, so the
    triple that line 315 removes was never there. *)
Lemma response_raises r e :
  generate_bubble_diagram r = Raise e →
  (∃ key, e = KeyError key ∧
     ((∃ a b, (a, b) ∈ connection r ∧ (key = a ∨ key = b)) ∨ key ∈ front_door r) ∧
     py_dict (zip (complete_room_list r) (modified_room_list r)) !! key = None) ∨
  (e = ValueError ∧ names_resolve r ∧
   ∃ k i, front_room_node r k = Some i ∧
     length (modified_room_list r) + length (connection r) + k ≤ i).
Proof.
  set (rnd := py_dict (zip (complete_room_list r) (modified_room_list r))).
  intros Hrun.
  destruct (py_map (translate_pair rnd) (connection r)) as [conn_std|e'] eqn:Hconn.
  - destruct (py_map (getitem rnd) (front_door r)) as [fd_std|e'] eqn:Hfd.
    + right.
      pose proof (py_maps_names_resolve r conn_std fd_std Hconn Hfd) as Hnames.
      split_and!; [|done|].
      * destruct (generate_bubble_diagram_front r conn_std fd_std Hconn Hfd)
          as (conn & t1 & _ & _ & Heq).
        rewrite Heq in Hrun. clear Heq.
        destruct (foldM _ t1 _) as [t2|e'] eqn:Hfold; [done|]. simpl in Hrun.
        injection Hrun as ->.
        apply foldM_Raise_inv in Hfold
          as (t & [i room] & [k Hk]%list_elem_of_lookup & Hstep).
        unfold enumerate1 in Hk. rewrite list_lookup_imap in Hk.
        destruct (fd_std !! k) as [room'|] eqn:Hroom; simplify_eq/=.
        apply py_map_Ok in Hfd.
        destruct (Forall2_lookup_r _ _ _ _ _ Hfd Hroom) as (name & Hname & Hres%getitem_Ok).
        apply room_name_dict_value in Hres.
        destruct (any_room_node _ (length (connection r)) (length (front_door r)) room Hres)
          as (i & Hi & _).
        unfold getitem in Hstep. rewrite Hi in Hstep. simpl in Hstep.
        rewrite front_door_node in Hstep.
        -- simpl in Hstep.
           destruct (list_remove (i, (-1)%Z, _) t) as [t'|e'] eqn:Hrm; [done|].
           simpl in Hstep. injection Hstep as ->. by apply list_remove_Raise in Hrm.
        -- rewrite (Forall2_length _ _ _ Hfd). by eapply lookup_lt_Some.
      * destruct (decide (Forall (front_room_precedes r) (seq 0 (length (front_door r)))))
          as [Hall|Hex].
        -- destruct (resolved_run r Hnames (front_rooms_precede_check r Hall)) as [d Hd].
           congruence.
        -- apply not_Forall_Exists in Hex; [|apply _].
           apply Exists_exists in Hex as (k & _ & Hk). simpl in Hk.
           unfold front_room_precedes in Hk.
           destruct (front_room_node r k) as [i|] eqn:Hi; [|done].
           exists k, i. split; [done|lia].
    + left. assert (e = e') as <-.
      { unfold generate_bubble_diagram in Hrun. fold rnd in Hrun.
        rewrite Hconn in Hrun. simpl in Hrun. rewrite Hfd in Hrun. by injection Hrun. }
      destruct (py_map_Raise_inv _ _ _ Hfd) as (name & Hin & Hres).
      unfold getitem in Hres. destruct (rnd !! name) eqn:Hname; [done|].
      injection Hres as <-. exists name. split_and!; [done|by right|done].
  - left. assert (e = e') as <-.
    { unfold generate_bubble_diagram in Hrun. fold rnd in Hrun.
      rewrite Hconn in Hrun. by injection Hrun. }
    destruct (py_map_Raise_inv _ _ _ Hconn) as ([a b] & Hin & Hres).
    apply translate_pair_Raise in Hres as (key & -> & Hkey & Hnone).
    exists key. split_and!; [done|left; by exists a, b|done].
Qed.

(** ** The object before its keys are read *)

Lemma translate_entry_pair rnd pair p :
  entry_pair pair = Some p → translate_entry rnd pair = translate_pair rnd p.
Proof. destruct pair as [|a [|b rest]]; [done..|]. by intros [= <-]. Qed.

Lemma py_map_translate_entry rnd entries pairs :
  mapM entry_pair entries = Some pairs →
  py_map (translate_entry rnd) entries = py_map (translate_pair rnd) pairs.
Proof.
  rewrite mapM_Some. induction 1 as [|pair p entries pairs Hp _ IH]; simpl; [done|].
  by rewrite (translate_entry_pair _ _ _ Hp), IH.
Qed.

(** On an object with the four keys and two names in every connection
    entry, the compiler does what it does on the response. *)
Lemma object_response o r :
  response_of o = Some r → generate_bubble_diagram_object o = generate_bubble_diagram r.
Proof.
  unfold response_of, generate_bubble_diagram_object, generate_bubble_diagram.
  destruct o as [[complete|] [modified|] [entries|] [front|]];
    cbn [object_complete_room_list object_modified_room_list object_connection
         object_front_door mbind option_bind]; try done.
  destruct (mapM entry_pair entries) as [pairs|] eqn:Hpairs; [|done].
  intros [= <-].
  cbn [complete_room_list modified_room_list connection front_door object_getitem
       mbind result_bind].
  by rewrite (py_map_translate_entry _ _ _ Hpairs).
Qed.

Lemma object_of_response r : response_of (object_of r) = Some r.
Proof.
  unfold response_of, object_of. simpl.
  assert (mapM entry_pair ((λ p : string * string, [p.1; p.2]) <$> connection r)
          = Some (connection r)) as ->.
  { apply mapM_Some. apply Forall2_fmap_l, Forall_Forall2_diag, Forall_forall.
    by intros [a b] _. }
  simpl. by destruct r.
Qed.

Lemma translate_entry_Ok rnd pair p : translate_entry rnd pair = Ok p → is_Some (entry_pair pair).
Proof.
  destruct pair as [|a [|b rest]]; [done| |by eexists].
  unfold translate_entry, list_getitem. simpl. by destruct (getitem rnd a).
Qed.

Lemma translate_entry_Raise rnd pair e :
  translate_entry rnd pair = Raise e →
  (e = IndexError ∧ length pair < 2) ∨
  (∃ key, e = KeyError key ∧ (pair !! 0 = Some key ∨ pair !! 1 = Some key) ∧
     rnd !! key = None).
Proof.
  unfold translate_entry, list_getitem, getitem.
  destruct pair as [|a [|b rest]]; simpl.
  - intros [= <-]. left. split; [done|lia].
  - destruct (rnd !! a) eqn:Ha; simpl; intros [= <-].
    + left. split; [done|lia].
    + right. exists a. eauto.
  - destruct (rnd !! a) eqn:Ha; simpl.
    + destruct (rnd !! b) eqn:Hb; simpl; [done|]. intros [= <-]. right. exists b. eauto.
    + intros [= <-]. right. exists a. eauto.
Qed.

Lemma entry_pair_Some pair a b :
  entry_pair pair = Some (a, b) ↔ pair !! 0 = Some a ∧ pair !! 1 = Some b.
Proof.
  destruct pair as [|x [|y rest]]; simpl; [split; [done|by intros [? ?]]..|].
  split; [by intros [= -> ->]|by intros [[= ->] [= ->]]].
Qed.

Lemma entry_pair_None pair : entry_pair pair = None ↔ length pair < 2.
Proof. destruct pair as [|x [|y rest]]; simpl; split; (done || lia). Qed.

(** The response of an object, field by field. *)
Lemma response_of_Some o r :
  response_of o = Some r ↔
  ∃ entries,
    object_complete_room_list o = Some (complete_room_list r) ∧
    object_modified_room_list o = Some (modified_room_list r) ∧
    object_connection o = Some entries ∧
    object_front_door o = Some (front_door r) ∧
    Forall2 (λ pair p, entry_pair pair = Some p) entries (connection r).
Proof.
  unfold response_of.
  destruct o as [[complete|] [modified|] [entries|] [front|]];
    cbn [object_complete_room_list object_modified_room_list object_connection
         object_front_door mbind option_bind];
    try (split; [done|by intros (? & ? & ? & ? & ? & ?)]).
  destruct (mapM entry_pair entries) as [pairs|] eqn:Hpairs; simpl.
  - split.
    + intros [= <-]. exists entries. by apply mapM_Some in Hpairs.
    + intros (entries' & [= ->] & [= ->] & [= <-] & [= ->] & Hall).
      apply mapM_Some in Hall. destruct r. simpl in *. congruence.
  - split; [done|]. intros (entries' & _ & _ & [= <-] & _ & Hall%mapM_Some). congruence.
Qed.

(** A name that the response mentions is a name that the object mentions. *)
Lemma response_mentions o r key :
  response_of o = Some r →
  (∃ a b, (a, b) ∈ connection r ∧ (key = a ∨ key = b)) ∨ key ∈ front_door r →
  object_mentions o key.
Proof.
  intros (entries & _ & _ & Hentries & Hfront & Hall)%response_of_Some [Hconn|Hin].
  - destruct Hconn as (a & b & [k Hk]%list_elem_of_lookup & Hkey).
    destruct (Forall2_lookup_r _ _ _ _ _ Hall Hk) as (pair & Hpair & [H0 H1]%entry_pair_Some).
    left. exists entries, pair. split_and!; [done|by eapply list_elem_of_lookup_2|].
    destruct Hkey as [->| ->]; eauto.
  - right. by exists (front_door r).
Qed.

Lemma object_mentions_response o r key :
  response_of o = Some r → object_mentions o key →
  (∃ a b, (a, b) ∈ connection r ∧ (key = a ∨ key = b)) ∨ key ∈ front_door r.
Proof.
  intros (entries & _ & _ & Hentries & Hfront & Hall)%response_of_Some [Hconn|Hin].
  - destruct Hconn as (entries' & pair & Heq & [k Hk]%list_elem_of_lookup & Hkey).
    rewrite Hentries in Heq. injection Heq as <-.
    destruct (Forall2_lookup_l _ _ _ _ _ Hall Hk) as ([a b] & Hp & [H0 H1]%entry_pair_Some).
    left. exists a, b. split; [by eapply list_elem_of_lookup_2|].
    destruct Hkey as [Hkey|Hkey]; [left|right]; congruence.
  - destruct Hin as (front & Heq & Hin). rewrite Hfront in Heq. injection Heq as <-.
    by right.
Qed.

Lemma object_room_name_dict_response o r :
  response_of o = Some r →
  object_room_name_dict o = py_dict (zip (complete_room_list r) (modified_room_list r)).
Proof.
  intros (entries & Hc & Hm & _)%response_of_Some.
  unfold object_room_name_dict. by rewrite Hc, Hm.
Qed.

(** Every connection entry that line 269 translates has two names. *)
Lemma py_map_translate_entry_Ok rnd entries conn :
  py_map (translate_entry rnd) entries = Ok conn → is_Some (mapM entry_pair entries).
Proof.
  intros Hall%py_map_Ok. apply mapM_is_Some, Forall_forall.
  intros pair [k Hk]%list_elem_of_lookup.
  destruct (Forall2_lookup_l _ _ _ _ _ Hall Hk) as (p & _ & Hp).
  by eapply translate_entry_Ok.
Qed.

(** The object that the compiler returns on holds a response. *)
Lemma object_run_response o d :
  generate_bubble_diagram_object o = Ok d → is_Some (response_of o).
Proof.
  unfold generate_bubble_diagram_object, response_of.
  destruct o as [[complete|] [modified|] [entries|] front];
    cbn [object_complete_room_list object_modified_room_list object_connection
         object_front_door mbind option_bind object_getitem result_bind]; try done.
  intros (conn & [pairs Hpairs]%py_map_translate_entry_Ok & Hrun)%bind_Ok.
  destruct front as [front|]; [|done].
  rewrite Hpairs. simpl. by eexists.
Qed.

(** X1: On a response object whose room lists and front-door list are
    lists of strings and whose connection is a list of lists of strings,
    any of the four keys possibly missing, [generate_bubble_diagram]
    returns a graph exactly when the object has the four keys, every
    connection entry has at least two names, every name that a connection
    or a front-door entry mentions is a key of [room_name_dict], and the
    room of every front-door entry is a node before that entry's front
    door. *)
Theorem returns_iff_resolved o :
  (∃ d, generate_bubble_diagram_object o = Ok d) ↔
  ∃ r, response_of o = Some r ∧ names_resolve r ∧ front_rooms_precede r.
Proof.
  split.
  - intros [d Hrun]. destruct (object_run_response o d Hrun) as [r Hr].
    rewrite (object_response o r Hr) in Hrun. exists r.
    split_and!; [done|by eapply run_names_resolve|by eapply run_front_rooms_precede].
  - intros (r & Hr & Hnames & Hfront). rewrite (object_response o r Hr).
    by apply resolved_run.
Qed.

(** X2: The exceptions of the compiler on a response object (lists of
    strings under the keys of the room lists and of the front doors, a
    list of lists of strings under [connection], any of the four keys
    possibly missing) are four. [KeyError] on the first of the four keys that the object lacks, in the
    order in which the code reads them ([front_door] is read after the
    connection entries are translated). [IndexError], on a connection
    entry of fewer than two names. [KeyError] on a name that a connection
    or a front-door entry mentions and [room_name_dict] does not hold. And
    [ValueError], when the object has the four keys, every entry has two
    names and every name resolves, but the room of some front-door entry
    is not a node before that entry's front door, so the triple that line
    315 removes was never there. *)
Theorem raises_KeyError_IndexError_or_ValueError o e :
  generate_bubble_diagram_object o = Raise e →
  (∃ key, e = KeyError key ∧ missing_key o key) ∨
  (e = IndexError ∧
   ∃ entries pair, object_connection o = Some entries ∧ pair ∈ entries ∧ length pair < 2) ∨
  (∃ key, e = KeyError key ∧ object_mentions o key ∧
     object_room_name_dict o !! key = None) ∨
  (e = ValueError ∧
   ∃ r, response_of o = Some r ∧ names_resolve r ∧
     ∃ k i, front_room_node r k = Some i ∧
       length (modified_room_list r) + length (connection r) + k ≤ i).
Proof.
  destruct (response_of o) as [r|] eqn:Hr.
  - rewrite (object_response o r Hr). intros [Hkey|Hvalue]%response_raises.
    + destruct Hkey as (key & -> & Hmentions & Hnone).
      right. right. left. exists key.
      split_and!; [done|by eapply response_mentions|].
      by rewrite (object_room_name_dict_response o r Hr).
    + destruct Hvalue as (-> & Hnames & Hfront). right. right. right. eauto.
  - revert Hr. unfold generate_bubble_diagram_object, response_of, missing_key,
      object_mentions, object_room_name_dict.
    destruct o as [[complete|] [modified|] [entries|] front];
      cbn [object_complete_room_list object_modified_room_list object_connection
           object_front_door mbind option_bind object_getitem result_bind default];
      try (intros _ [= <-]; left; by eexists).
    set (rnd := py_dict (zip complete modified)).
    destruct (py_map (translate_entry rnd) entries) as [conn|e'] eqn:Hconn.
    + destruct (py_map_translate_entry_Ok _ _ _ Hconn) as [pairs Hpairs].
      rewrite Hpairs. destruct front as [front|]; [done|].
      intros _ [= <-]. left. by eexists.
    + intros _ [= <-].
      destruct (py_map_Raise_inv _ _ _ Hconn) as (pair & Hin & Hpair).
      apply translate_entry_Raise in Hpair as [[-> Hlen]|(key & -> & Hkey & Hnone)].
      * right. left. split; [done|]. by exists entries, pair.
      * right. right. left. exists key. split_and!; [done| |done].
        left. by exists entries, pair.
Qed.

Lemma raises_KeyError_IndexError_or_ValueError_witness :
  generate_bubble_diagram_object short_entry = Raise IndexError ∧
  ((∃ key, IndexError = KeyError key ∧ missing_key short_entry key) ∨
   (IndexError = IndexError ∧
    ∃ entries pair, object_connection short_entry = Some entries ∧ pair ∈ entries ∧
      length pair < 2) ∨
   (∃ key, IndexError = KeyError key ∧ object_mentions short_entry key ∧
      object_room_name_dict short_entry !! key = None) ∨
   (IndexError = ValueError ∧
    ∃ r, response_of short_entry = Some r ∧ names_resolve r ∧
      ∃ k i, front_room_node r k = Some i ∧
        length (modified_room_list r) + length (connection r) + k ≤ i)).
Proof.
  split; [reflexivity|].
  apply (raises_KeyError_IndexError_or_ValueError short_entry IndexError). reflexivity.
Defined.

(** ** Names that are not listed *)




(** ** The order of the returned edges *)

Lemma StronglySorted_key_lt l :
  StronglySorted key_le l → NoDup (triple_key <$> l) → StronglySorted key_lt l.
Proof.
  induction 1 as [|x l Hl IH Hx]; intros Hnd; [constructor|].
  rewrite fmap_cons in Hnd. apply NoDup_cons in Hnd as [Hnotin Hnd].
  constructor; [by apply IH|].
  rewrite Forall_forall in Hx |- *. intros y Hy. specialize (Hx y Hy).
  assert (triple_key x ≠ triple_key y) as Hne.
  { intros Heq. apply Hnotin. rewrite Heq. by apply list_elem_of_fmap_2. }
  unfold key_le, key_leb, key_lt, triple_key in *.
  destruct x as [[x1 xs] x2], y as [[y1 ys] y2]; simpl in *.
  apply orb_true_iff in Hx as [Hx%Nat.ltb_lt|[Hx1%Nat.eqb_eq Hx2%Nat.leb_le]%andb_true_iff];
    [by left|].
  right. split; [done|]. destruct (decide (x2 = y2)) as [->|]; [|lia].
  by subst.
Qed.

(** X3: The returned triples are in strictly ascending order of [(i, j)]
    (line 318): no key comes twice and the list is the sorted one. *)
Theorem graph_edges_strictly_ascending r d :
  generate_bubble_diagram r = Ok d → StronglySorted key_lt (graph_edges d).
Proof.
  intros Hrun. apply StronglySorted_key_lt; [by eapply graph_edges_sorted|].
  by destruct (generate_bubble_diagram_graph r d Hrun).
Qed.

Lemma graph_edges_strictly_ascending_witness :
  StronglySorted key_lt (graph_edges scenario_diagram).
Proof. apply (graph_edges_strictly_ascending scenario). reflexivity. Defined.

(** ** Isolated nodes *)

Lemma positive_edge_mentioned r d u v :
  positive_edge r d u v →
  mentioned r d u ∧ (mentioned r d v ∨ length (modified_room_list r) ≤ v).
Proof.
  intros [(i & j & k & Hij & (a & b & Hk & Hab) & _ & Huv)|(k & name & Hk & Hu & ->)].
  - assert (mentioned r d i ∧ mentioned r d j) as [Hi Hj].
    { split; left; apply Exists_exists; exists (a, b);
        (split; [by eapply list_elem_of_lookup_2|]); simpl;
        destruct Hab as [[? ?]|[? ?]]; auto. }
    destruct Huv as [[-> ->]|[[-> ->]|[-> ->]]];
      (split; [done|]); [right; lia|right; lia|by left].
  - split; [|right; lia]. right. apply Exists_exists. exists name.
    split; [by eapply list_elem_of_lookup_2|done].
Qed.

Lemma negative_polarity n P l u x :
  signed_complete n P l → u < n → x < n → u ≠ x →
  ¬ P (u `min` x) (u `max` x) → polarity l u x (-1).
Proof.
  intros Hsc Hu Hx Hne HP. unfold polarity. eapply sc_neg_elem; [exact Hsc|lia|done].
Qed.

(** X4: A room that no connection and no front-door entry resolves to stays
    in the graph, at polarity [-1] with every other node: the compiler
    accepts a floorplan with unreachable rooms. *)
Theorem unmentioned_room_is_isolated r d x :
  generate_bubble_diagram r = Ok d →
  x < length (modified_room_list r) →
  ¬ mentioned r d x →
  ∀ u, u < length (modified_room_list r) + length (connection r) + length (front_door r) →
    u ≠ x → polarity (graph_edges d) u x (-1).
Proof.
  intros Hrun Hx Hno u Hu Hne.
  eapply negative_polarity; [by apply generate_bubble_diagram_graph|done|lia|done|].
  intros [Hm1 Hm2]%positive_edge_mentioned.
  destruct (decide (u < x)).
  - rewrite Nat.max_r in Hm2 by lia. destruct Hm2; [done|lia].
  - rewrite Nat.min_r in Hm1 by lia. done.
Qed.

Lemma unmentioned_room_is_isolated_witness :
  ∃ d, generate_bubble_diagram spare_room = Ok d ∧
    ∀ u, u < 5 → u ≠ 2 → polarity (graph_edges d) u 2 (-1).
Proof.
  eexists. split; [by vm_compute|].
  apply (unmentioned_room_is_isolated spare_room _ 2); [done|simpl; lia|].
  apply (bool_decide_unpack _). by vm_compute.
Defined.

(** X5: A connection of a room with itself makes no edge: its interior door
    node is there, at polarity [-1] with every other node. *)
Theorem self_loop_door_is_isolated r d k a :
  generate_bubble_diagram r = Ok d →
  door_free r →
  connection r !! k = Some (a, a) →
  let L := length (modified_room_list r) in
  ∀ u, u < L + length (connection r) + length (front_door r) →
    u ≠ L + k → polarity (graph_edges d) u (L + k) (-1).
Proof.
  intros Hrun Hfree Hk L u Hu Hne.
  pose proof (lookup_lt_Some _ _ _ Hk) as HkC.
  assert (∀ i j, connects r d k i j → i = j) as Hloop.
  { intros i j (a' & b' & Hk' & Hij). rewrite Hk in Hk'. injection Hk' as <- <-.
    destruct Hij as [[Hi Hj]|[Hi Hj]]; congruence. }
  eapply negative_polarity; [by apply generate_bubble_diagram_graph|done|lia|done|].
  fold L. intros [(i & j & k' & Hij & Hc & _ & Huv)|(k' & name & Hk' & Hu' & Hv)].
  - assert (k' ≠ k) by (intros ->; apply Hloop in Hc; lia). lia.
  - apply (door_free_room_node_lt r d name _ Hfree Hrun) in Hu'.
    apply lookup_lt_Some in Hk'. fold L in Hu'. lia.
Qed.

Lemma self_loop_door_is_isolated_witness :
  ∃ d, generate_bubble_diagram self_loop = Ok d ∧
    ∀ u, u < 4 → u ≠ 2 → polarity (graph_edges d) u 2 (-1).
Proof.
  eexists. split; [by vm_compute|].
  apply (self_loop_door_is_isolated self_loop _ 0 "kitchen1"); [done| |done].
  apply door_free_check, (bool_decide_unpack _). by vm_compute.
Defined.

(** X6: With no connection and no front door the compiler looks no name up
    and always returns: the nodes are the rooms of [modified_room_list] and
    every pair of them is at polarity [-1]. An empty room list gives the
    empty graph, not an error. *)
Theorem no_connection_no_front_door r :
  connection r = [] → front_door r = [] →
  ∃ d, generate_bubble_diagram r = Ok d ∧
    room_list d = modified_room_list r ∧
    ∀ i s j, (i, s, j) ∈ graph_edges d ↔
             i < j < length (modified_room_list r) ∧ s = (-1)%Z.
Proof.
  intros Hc Hf.
  destruct (resolved_run r) as [d Hrun].
  { split; [intros a b|intros name]; rewrite ?Hc, ?Hf; by intros ?%elem_of_nil. }
  { intros k i. unfold front_room_node. by rewrite Hf. }
  exists d. split; [done|].
  destruct (generate_bubble_diagram_inv r d Hrun) as (? & ? & ? & ? & _ & Hnodes & _).
  split.
  { rewrite Hnodes, Hc, Hf. unfold nodes_of, door_list. simpl. by rewrite app_nil_r. }
  intros i s j.
  rewrite (sc_elem _ _ _ i s j (generate_bubble_diagram_graph r d Hrun)).
  rewrite Hc, Hf. simpl. rewrite !Nat.add_0_r.
  assert (¬ positive_edge r d i j) as Hno.
  { intros [(? & ? & k & _ & (? & ? & Hk & _) & _)|(k & ? & Hk & _)];
      [rewrite Hc in Hk|rewrite Hf in Hk]; done. }
  split; [intros [Hij [[_ ?]|[-> _]]]|intros [Hij ->]]; [done|done|auto].
Qed.

Lemma no_connection_no_front_door_witness :
  ∃ d, generate_bubble_diagram empty_response = Ok d ∧
    room_list d = modified_room_list empty_response ∧
    ∀ i s j, (i, s, j) ∈ graph_edges d ↔
             i < j < length (modified_room_list empty_response) ∧ s = (-1)%Z.
Proof. apply (no_connection_no_front_door empty_response); reflexivity. Defined.

(** ** The graph is a function of the positive pairs *)

Lemma sc_sorted_unique n P l1 l2 :
  signed_complete n P l1 → signed_complete n P l2 →
  StronglySorted key_le l1 → StronglySorted key_le l2 → l1 = l2.
Proof.
  intros H1 H2 S1 S2.
  assert (l1 ≡ₚ l2) as Hperm.
  { apply NoDup_Permutation.
    - eapply NoDup_fmap_1, (sc_nodup _ _ _ H1).
    - eapply NoDup_fmap_1, (sc_nodup _ _ _ H2).
    - intros [[i s] j]. by rewrite (sc_elem _ _ _ i s j H1), (sc_elem _ _ _ i s j H2). }
  apply (StronglySorted_unique_strong key_le); [|done..].
  intros x1 x2 Hx1 Hx2 Hle1 Hle2. rewrite <- Hperm in Hx2.
  apply (NoDup_fmap_elem_inj triple_key l1); [apply H1|done..|].
  unfold key_le, key_leb in Hle1, Hle2.
  destruct (triple_key x1) as [a1 b1], (triple_key x2) as [a2 b2]. simpl in *.
  rewrite orb_true_iff, andb_true_iff, Nat.ltb_lt, Nat.eqb_eq, Nat.leb_le in Hle1, Hle2.
  f_equal; lia.
Qed.

Lemma diagram_eq d d' :
  room_list_indices d = room_list_indices d' → graph_edges d = graph_edges d' →
  room_name_dict d = room_name_dict d' → room_list d = room_list d' → d = d'.
Proof. destruct d, d'. simpl. by intros -> -> -> ->. Qed.

Lemma front_room_node_swap k r k' :
  front_room_node (swap_connection k r) k' = front_room_node r k'.
Proof.
  unfold front_room_node, swap_connection.
  cbn [complete_room_list modified_room_list connection front_door].
  by rewrite length_alter.
Qed.

(** X7: The two names of a connection come in no order: with the names of
    any entry of [connection] exchanged, the compiler returns the same
    graph, node for node and triple for triple. *)
Theorem connection_orientation_is_irrelevant r d k :
  generate_bubble_diagram r = Ok d →
  generate_bubble_diagram (swap_connection k r) = Ok d.
Proof.
  intros Hrun. set (r' := swap_connection k r).
  assert (length (connection r') = length (connection r)) as HC by apply length_alter.
  destruct (resolved_run r') as [d' Hrun'].
  { destruct (run_names_resolve r d Hrun) as [Hc Hf]. split; [|exact Hf].
    intros a b [k' Hk']%list_elem_of_lookup.
    unfold r', swap_connection in Hk'. cbn [connection] in Hk'.
    destruct (decide (k = k')) as [<-|Hne].
    - rewrite list_lookup_alter_eq in Hk'.
      destruct (connection r !! k) as [[a' b']|] eqn:E; simplify_eq/=.
      destruct (Hc b a); [by eapply list_elem_of_lookup_2|done].
    - rewrite list_lookup_alter_ne in Hk' by done.
      apply Hc. by eapply list_elem_of_lookup_2. }
  { intros k' i. unfold front_rooms_precede. rewrite HC. unfold r'.
    rewrite front_room_node_swap. by apply (run_front_rooms_precede r d Hrun). }
  rewrite Hrun'. f_equal.
  destruct (generate_bubble_diagram_inv r d Hrun)
    as (? & ? & ? & ? & Hrnd & Hnodes & Hidx & _).
  destruct (generate_bubble_diagram_inv r' d' Hrun')
    as (? & ? & ? & ? & Hrnd' & Hnodes' & Hidx' & _).
  rewrite HC in Hnodes', Hidx'.
  assert (∀ name, room_node d' name = room_node d name) as Hnode.
  { intros name. unfold room_node. by rewrite Hrnd, Hrnd', Hnodes, Hnodes'. }
  assert (∀ k' i j, connects r' d' k' i j ↔ connects r d k' i j) as Hconn.
  { intros k' i j. unfold connects, r', swap_connection. cbn [connection].
    setoid_rewrite Hnode. destruct (decide (k = k')) as [<-|Hne].
    - setoid_rewrite list_lookup_alter_eq.
      destruct (connection r !! k) as [[a b]|]; simpl.
      + split; intros (a' & b' & [= <- <-] & H); [exists a, b|exists b, a];
          (split; [done|tauto]).
      + split; intros (? & ? & ? & _); done.
    - by setoid_rewrite (list_lookup_alter_ne _ _ _ _ Hne). }
  apply diagram_eq; [by rewrite Hidx, Hidx'| |by rewrite Hrnd, Hrnd'|by rewrite Hnodes, Hnodes'].
  pose proof (generate_bubble_diagram_graph r d Hrun) as Hsc.
  pose proof (generate_bubble_diagram_graph r' d' Hrun') as Hsc'.
  rewrite HC in Hsc'.
  eapply sc_sorted_unique; [exact Hsc'| |by eapply graph_edges_sorted..].
  eapply sc_iff; [exact Hsc|]. intros u v. unfold positive_edge. rewrite HC.
  setoid_rewrite Hnode. by setoid_rewrite Hconn.
Qed.

Lemma connection_orientation_is_irrelevant_witness :
  generate_bubble_diagram (swap_connection 0 scenario) = Ok scenario_diagram.
Proof. apply (connection_orientation_is_irrelevant scenario). reflexivity. Defined.

(** ** Compiling the printed state again *)

Lemma zip_app_short {A B} (l : list A) (k k' : list B) :
  length l ≤ length k → zip l (k ++ k') = zip l k.
Proof.
  intros Hlen. rewrite zip_with_app_r, take_ge, drop_ge by done.
  simpl. apply app_nil_r.
Qed.

Lemma lift_lt L m x y : x < y ↔ lift L m x < lift L m y.
Proof. unfold lift. repeat case_decide; lia. Qed.

Section printed_state.
Context (r : Response) (d : Diagram).
Hypothesis Hrun : generate_bubble_diagram r = Ok d.
Hypothesis Hlen : length (complete_room_list r) ≤ length (modified_room_list r).
Hypothesis Hfree : door_free r.
Let L := length (modified_room_list r).
Let C := length (connection r).
Let F := length (front_door r).
Let r2 := response_at_return r d.

Lemma printed_room_list : modified_room_list r2 = nodes_of (modified_room_list r) C F.
Proof using Hrun.
  destruct (generate_bubble_diagram_inv r d Hrun) as (? & ? & ? & ? & _ & Hnodes & _).
  exact Hnodes.
Qed.

Lemma printed_length : length (modified_room_list r2) = L + C + F.
Proof using Hrun. by rewrite printed_room_list, length_nodes_of. Qed.

Lemma printed_room_name_dict :
  py_dict (zip (complete_room_list r2) (modified_room_list r2))
  = py_dict (zip (complete_room_list r) (modified_room_list r)).
Proof using Hrun Hlen.
  rewrite printed_room_list. unfold nodes_of. simpl. by rewrite zip_app_short.
Qed.

Lemma printed_room_dict room :
  room ∈ modified_room_list r →
  make_room_dict (nodes_of (modified_room_list r2) C F) !! room
  = make_room_dict (nodes_of (modified_room_list r) C F) !! room.
Proof using Hrun Hfree.
  intros Hin. rewrite real_room_lookup, printed_room_list; [done| |by apply Hfree].
  rewrite printed_room_list. unfold nodes_of. apply elem_of_app. by left.
Qed.

Lemma printed_front_room_node k : front_room_node r2 k = front_room_node r k.
Proof using Hrun Hlen Hfree.
  unfold front_room_node. rewrite printed_room_name_dict.
  change (front_door r2) with (front_door r). change (connection r2) with (connection r).
  destruct (front_door r !! k) as [name|]; simpl; [|done].
  destruct (py_dict _ !! name) as [room|] eqn:Hroom; simpl; [|done].
  apply printed_room_dict. by eapply room_name_dict_value.
Qed.

Lemma printed_run : ∃ d2, generate_bubble_diagram r2 = Ok d2.
Proof using Hrun Hlen Hfree.
  apply resolved_run.
  - unfold names_resolve. rewrite printed_room_name_dict.
    exact (run_names_resolve r d Hrun).
  - intros k i. rewrite printed_front_room_node, printed_length.
    intros Hi%(run_front_rooms_precede r d Hrun). fold L C.
    change (connection r2) with (connection r). lia.
Qed.

Context (d2 : Diagram).
Hypothesis Hrun2 : generate_bubble_diagram r2 = Ok d2.

Lemma printed_room_node name : room_node d2 name = room_node d name.
Proof using Hrun Hlen Hfree Hrun2.
  rewrite (room_node_run r2 d2 name Hrun2), (room_node_run r d name Hrun).
  rewrite printed_room_name_dict.
  destruct (py_dict _ !! name) as [room|] eqn:Hroom; simpl; [|done].
  apply printed_room_dict. by eapply room_name_dict_value.
Qed.

Lemma printed_connects k i j : connects r2 d2 k i j ↔ connects r d k i j.
Proof using Hrun Hlen Hfree Hrun2.
  unfold connects. change (connection r2) with (connection r).
  by setoid_rewrite printed_room_node.
Qed.

Lemma printed_positive_edge_ends u v :
  positive_edge r2 d2 u v → u < L ∧ (v < L ∨ L + C + F ≤ v).
Proof using Hrun Hlen Hfree Hrun2.
  unfold positive_edge. rewrite printed_length. change (connection r2) with (connection r).
  change (front_door r2) with (front_door r).
  intros [(i & j & k & Hij & Hc & _ & Huv)|(k & name & Hk & Hu & ->)].
  - apply printed_connects in Hc as (a & b & _ & Hab).
    assert (i < L ∧ j < L) as [Hi Hj].
    { destruct Hab as [[Hi Hj]|[Hi Hj]];
        apply (door_free_room_node_lt r d _ _ Hfree Hrun) in Hi, Hj; done. }
    lia.
  - rewrite printed_room_node in Hu.
    apply (door_free_room_node_lt r d _ _ Hfree Hrun) in Hu. fold L in Hu. lia.
Qed.

Lemma printed_positive_edge u v :
  positive_edge r2 d2 (lift L (C + F) u) (lift L (C + F) v) ↔ positive_edge r d u v.
Proof using Hrun Hlen Hfree Hrun2.
  assert (∀ k i j, connects r d k i j → i < L ∧ j < L) as Hreal.
  { intros k i j (a & b & _ & Hab).
    destruct Hab as [[Hi Hj]|[Hi Hj]];
      apply (door_free_room_node_lt r d _ _ Hfree Hrun) in Hi, Hj; done. }
  unfold positive_edge. rewrite printed_length. change (connection r2) with (connection r).
  change (front_door r2) with (front_door r). fold L C.
  setoid_rewrite printed_connects. setoid_rewrite printed_room_node.
  unfold lift. split.
  - intros [(i & j & k & Hij & Hc & Hfirst & Huv)|(k & name & Hk & Hu & Hv)].
    + left. exists i, j, k. destruct (Hreal _ _ _ Hc).
      split_and!; [lia|lia|done|done|]. repeat case_decide; lia.
    + right. exists k, name. split; [done|].
      pose proof (door_free_room_node_lt r d _ _ Hfree Hrun Hu) as Hlt. fold L in Hlt.
      repeat case_decide; (split; [first [done|lia]|lia]).
  - intros [(i & j & k & Hij & Hc & Hfirst & Huv)|(k & name & Hk & Hu & Hv)].
    + left. exists i, j, k. split_and!; [lia|lia|done|done|]. repeat case_decide; lia.
    + right. exists k, name. split; [done|].
      pose proof (door_free_room_node_lt r d _ _ Hfree Hrun Hu) as Hlt. fold L in Hlt.
      repeat case_decide; (split; [first [done|lia]|lia]).
Qed.
End printed_state.

(** X8: The state that [generate_bubble_diagram] prints for the next editing
    round (line 324) is the response with the door names appended to
    [modified_room_list] (lines 262, 276, 278). Compiling that state again
    succeeds but does not give the same graph: the [C + F] door nodes of the
    first graph are kept as nodes that are linked to nothing, [C + F] fresh
    door nodes are appended, and the first graph lives on with its doors
    moved to the fresh nodes. *)
Theorem printed_state_keeps_stale_doors r d :
  generate_bubble_diagram r = Ok d →
  length (complete_room_list r) ≤ length (modified_room_list r) →
  door_free r →
  let L := length (modified_room_list r) in
  let m := length (connection r) + length (front_door r) in
  ∃ d2, generate_bubble_diagram (response_at_return r d) = Ok d2 ∧
    length (room_list_indices d2) = L + m + m ∧
    (∀ x u, L ≤ x < L + m → u < L + m + m → u ≠ x →
       polarity (graph_edges d2) u x (-1)) ∧
    (∀ u s v, (u, s, v) ∈ graph_edges d ↔
              (lift L m u, s, lift L m v) ∈ graph_edges d2).
Proof.
  intros Hrun Hlen Hfree L m.
  destruct (printed_run r d Hrun Hlen Hfree) as [d2 Hrun2]. exists d2. split; [done|].
  pose proof (generate_bubble_diagram_graph r d Hrun) as Hsc.
  pose proof (generate_bubble_diagram_graph _ d2 Hrun2) as Hsc2.
  pose proof (length_room_list_indices _ d2 Hrun2) as Hn2.
  rewrite (printed_length r d Hrun) in Hsc2, Hn2.
  change (connection (response_at_return r d)) with (connection r) in Hsc2, Hn2.
  change (front_door (response_at_return r d)) with (front_door r) in Hsc2, Hn2.
  fold L in Hsc, Hsc2, Hn2. split_and!.
  - unfold m. lia.
  - intros x u Hx Hu Hne.
    eapply negative_polarity; [exact Hsc2|unfold m in *; lia..|done|].
    intros Hends%(printed_positive_edge_ends r d Hrun Hlen Hfree d2 Hrun2).
    fold L in Hends. unfold m in *. lia.
  - intros u s v. rewrite (sc_elem _ _ _ u s v Hsc), (sc_elem _ _ _ _ s _ Hsc2).
    rewrite <- (printed_positive_edge r d Hrun Hlen Hfree d2 Hrun2 u v). fold L.
    change (length (connection r) + length (front_door r)) with m.
    rewrite <- (lift_lt L m u v).
    assert (v < L + length (connection r) + length (front_door r)
            ↔ lift L m v < L + length (connection r) + length (front_door r)
                           + length (connection r) + length (front_door r)) as Hv.
    { unfold lift, m. case_decide; lia. }
    tauto.
Qed.

Lemma printed_state_keeps_stale_doors_witness :
  ∃ d2, generate_bubble_diagram (response_at_return scenario scenario_diagram) = Ok d2 ∧
    length (room_list_indices d2) = 2 + 2 + 2 ∧
    (∀ x u, 2 ≤ x < 2 + 2 → u < 2 + 2 + 2 → u ≠ x →
       polarity (graph_edges d2) u x (-1)) ∧
    (∀ u s v, (u, s, v) ∈ graph_edges scenario_diagram ↔
              (lift 2 2 u, s, lift 2 2 v) ∈ graph_edges d2).
Proof.
  apply (printed_state_keeps_stale_doors scenario scenario_diagram).
  - reflexivity.
  - simpl. lia.
  - apply door_free_check, (bool_decide_unpack _). by vm_compute.
Defined.

(** ** Names, positions and type codes *)

(** X9: With distinct names in both room lists and no room named like a
    door, the [i]-th name of [complete_room_list] is bound to the [i]-th
    standardized name, and that one to node [i]: dictionary lookups give
    back the positions the lists were built from. *)
Theorem rooms_resolve_to_their_positions r d i name :
  generate_bubble_diagram r = Ok d →
  NoDup (complete_room_list r) → NoDup (modified_room_list r) → door_free r →
  complete_room_list r !! i = Some name → i < length (modified_room_list r) →
  room_name_dict d !! name = modified_room_list r !! i ∧
  room_node d name = Some i ∧
  room_list d !! i = modified_room_list r !! i.
Proof.
  intros Hrun Hnd1 Hnd2 Hfree Hname Hi.
  destruct (lookup_lt_is_Some_2 (modified_room_list r) i Hi) as [room Hroom].
  destruct (generate_bubble_diagram_inv r d Hrun) as (? & ? & ? & ? & Hrnd & Hnodes & _).
  assert (room_name_dict d !! name = Some room) as Hbound.
  { rewrite Hrnd. apply py_dict_lookup_Some. exists i. split.
    - rewrite lookup_zip_with, Hname. simpl. by rewrite Hroom.
    - intros j v' Hlt Hj. rewrite lookup_zip_with in Hj.
      destruct (complete_room_list r !! j) as [name'|] eqn:Hj'; simplify_eq/=.
      destruct (modified_room_list r !! j); simplify_eq/=.
      pose proof (NoDup_lookup _ _ _ _ Hnd1 Hname Hj'). lia. }
  assert (room_list d !! i = Some room) as Hnode.
  { rewrite Hnodes. unfold nodes_of. by rewrite lookup_app_l. }
  rewrite Hroom. split_and!; [done| |done].
  unfold room_node. rewrite Hbound. simpl. apply make_room_dict_lookup.
  split; [done|]. intros j Hlt Hj. rewrite Hnodes in Hj. unfold nodes_of in Hj.
  destruct (decide (j < length (modified_room_list r))) as [Hj'|Hj'].
  - rewrite lookup_app_l in Hj by done.
    pose proof (NoDup_lookup _ _ _ _ Hnd2 Hroom Hj). lia.
  - rewrite lookup_app_r in Hj by lia.
    apply (Hfree room); [by eapply list_elem_of_lookup_2|].
    by eapply list_elem_of_lookup_2.
Qed.

Lemma rooms_resolve_to_their_positions_witness :
  room_name_dict scenario_diagram !! "bedroom1"%string = modified_room_list scenario !! 1 ∧
  room_node scenario_diagram "bedroom1" = Some 1 ∧
  room_list scenario_diagram !! 1 = modified_room_list scenario !! 1.
Proof.
  apply (rooms_resolve_to_their_positions scenario scenario_diagram 1 "bedroom1").
  - reflexivity.
  - apply (bool_decide_unpack _). by vm_compute.
  - apply (bool_decide_unpack _). by vm_compute.
  - apply door_free_check, (bool_decide_unpack _). by vm_compute.
  - reflexivity.
  - simpl. lia.
Defined.

Lemma type_list_codes s c :
  type_list !! s = Some c → c ∈ [1; 2; 3; 4; 5; 6; 7; 8; 10; 15; 16; 17].
Proof.
  intros Hin%py_dict_lookup_elem. by apply (list_elem_of_fmap_2 snd) in Hin.
Qed.

Lemma room_type_index_codes room :
  room_type_index room ∈ [1; 2; 3; 4; 5; 6; 7; 8; 10; 15; 16; 17].
Proof.
  unfold room_type_index. destruct (type_list !! but_last room) as [c|] eqn:Hc.
  - by eapply type_list_codes.
  - set_solver.
Qed.

(** X10: The type codes of the nodes: node [i] of a real room carries the
    code of the [i]-th standardized name; each of the first nine interior
    doors carries 17 and each of the first nine front doors 15; and every
    code is one of the twelve values of [type_list], so never 0 and at most
    17. *)
Theorem node_type_codes r d :
  generate_bubble_diagram r = Ok d →
  let L := length (modified_room_list r) in
  let C := length (connection r) in
  let F := length (front_door r) in
  (∀ i room, modified_room_list r !! i = Some room →
     room_list_indices d !! i = Some (room_type_index room)) ∧
  (∀ k, k < C → k < 9 → room_list_indices d !! (L + k) = Some 17) ∧
  (∀ k, k < F → k < 9 → room_list_indices d !! (L + C + k) = Some 15) ∧
  Forall (λ c, c ∈ [1; 2; 3; 4; 5; 6; 7; 8; 10; 15; 16; 17]) (room_list_indices d).
Proof.
  intros Hrun L C F.
  destruct (generate_bubble_diagram_inv r d Hrun) as (? & ? & ? & ? & _ & _ & Hidx & _).
  fold C F in Hidx. rewrite Hidx. unfold nodes_of. split_and!.
  - intros i room Hi. rewrite list_lookup_fmap, lookup_app_l by by eapply lookup_lt_Some.
    by rewrite Hi.
  - intros k HkC Hk. rewrite list_lookup_fmap, lookup_app_r by (fold L; lia).
    replace (L + k - length (modified_room_list r)) with k by (fold L; lia).
    rewrite lookup_app_l by by rewrite length_door_list.
    rewrite (proj2 (door_list_lookup _ _ _) HkC). cbn [fmap option_fmap option_map].
    f_equal. exact (proj1 (one_digit_door_codes k Hk)).
  - intros k HkF Hk. rewrite list_lookup_fmap, lookup_app_r by (fold L; lia).
    rewrite lookup_app_r by (rewrite length_door_list; fold L C; lia).
    rewrite length_door_list.
    replace (L + C + k - length (modified_room_list r) - C) with k by (fold L; lia).
    rewrite (proj2 (door_list_lookup _ _ _) HkF). cbn [fmap option_fmap option_map].
    f_equal. exact (proj2 (one_digit_door_codes k Hk)).
  - apply Forall_fmap, Forall_forall. intros room _. apply room_type_index_codes.
Qed.

Lemma node_type_codes_witness :
  (∀ i room, modified_room_list scenario !! i = Some room →
     room_list_indices scenario_diagram !! i = Some (room_type_index room)) ∧
  (∀ k, k < 1 → k < 9 → room_list_indices scenario_diagram !! (2 + k) = Some 17) ∧
  (∀ k, k < 1 → k < 9 → room_list_indices scenario_diagram !! (2 + 1 + k) = Some 15) ∧
  Forall (λ c, c ∈ [1; 2; 3; 4; 5; 6; 7; 8; 10; 15; 16; 17])
    (room_list_indices scenario_diagram).
Proof. apply (node_type_codes scenario scenario_diagram). reflexivity. Defined.

(** ** From type codes to one-hot rows and back *)

Lemma where_eq_imap `{EqDecision A} (g : nat → nat) (l : list A) t :
  fst <$> filter (λ ix : nat * A, ix.2 = t) (imap (λ i x, (g i, x)) l)
  = g <$> where_eq l t.
Proof.
  unfold where_eq. revert g. induction l as [|x l IH]; intros g; [done|].
  rewrite !imap_cons, !filter_cons. simpl.
  pose proof (IH (g ∘ S)) as IHg. pose proof (IH S) as IHS. unfold compose in *.
  case_decide; rewrite ?fmap_cons; simpl; rewrite IHg, IHS, <- !list_fmap_compose; done.
Qed.

Lemma where_eq_cons `{EqDecision A} (x : A) (l : list A) t :
  where_eq (x :: l) t = (if decide (x = t) then [0] else []) ++ (S <$> where_eq l t).
Proof.
  unfold where_eq at 1. rewrite imap_cons, filter_cons. simpl.
  pose proof (where_eq_imap S l t) as HS.
  case_decide; rewrite ?fmap_cons; simpl; [f_equal|]; exact HS.
Qed.

Lemma where_eq_one_hot a n c :
  where_eq ((λ j, if decide (j = c) then 1%Z else 0%Z) <$> seq a n) 1%Z
  = if decide (a ≤ c < a + n) then [c - a] else [].
Proof.
  revert a. induction n as [|n IH]; intros a; simpl.
  { by rewrite decide_False by lia. }
  rewrite where_eq_cons, IH.
  repeat case_decide; simpl; try done; try lia; f_equal; lia.
Qed.

Lemma real_nodes_of_one_hot num_classes labels :
  Forall (λ c, 1 ≤ c < num_classes) labels →
  real_nodes_of (drop 1 <$> one_hot_embedding num_classes labels) = pred <$> labels.
Proof.
  unfold real_nodes_of, one_hot_embedding.
  induction 1 as [|c labels Hc _ IH]; [done|].
  rewrite !fmap_cons, bind_cons, IH. clear IH.
  rewrite <- fmap_drop, drop_seq, where_eq_one_hot.
  rewrite decide_True by lia. simpl. f_equal. lia.
Qed.

(** X11: Reading the node types back from the one-hot rows, as
    [generate_layout_masks] does with [np.where(nodes == 1)[-1]] (line 341),
    gives one column for every node, its type code less one, in the order of
    the nodes: every code is at least 1, so dropping column 0 (line 320)
    loses nothing. The rows are those of [one_hot_embedding], of any width
    above 17. *)
Theorem node_types_read_back r d num_classes :
  generate_bubble_diagram r = Ok d → 17 < num_classes →
  real_nodes_of (graph_nodes num_classes d) = pred <$> room_list_indices d.
Proof.
  intros Hrun Hn. apply real_nodes_of_one_hot.
  destruct (generate_bubble_diagram_inv r d Hrun) as (? & ? & ? & ? & _ & _ & -> & _).
  apply Forall_fmap, Forall_forall. intros room _. simpl.
  pose proof (room_type_index_codes room) as Hc.
  repeat (apply elem_of_cons in Hc as [->|Hc]; [lia|]). by apply elem_of_nil in Hc.
Qed.

Lemma node_types_read_back_witness :
  real_nodes_of (graph_nodes 19 scenario_diagram) = pred <$> room_list_indices scenario_diagram.
Proof. apply (node_types_read_back scenario); [reflexivity|lia]. Defined.

(** * Further properties of the located text *)

Lemma remove_char_notin c s : c ∉ remove_char c s.
Proof. unfold remove_char. by intros [? _]%list_elem_of_filter. Qed.

Lemma remove_char_elem c x s : x ∈ remove_char c s → x ∈ s.
Proof. unfold remove_char. by intros [_ ?]%list_elem_of_filter. Qed.

Lemma remove_char_id c s : c ∉ s → remove_char c s = s.
Proof.
  unfold remove_char. induction s as [|x s IH]; [done|].
  rewrite not_elem_of_cons. intros [Hne Hnotin].
  rewrite filter_cons, decide_True by done. by rewrite IH.
Qed.

Lemma raw_response_no_blank s :
  (space ∉ raw_response_of s) ∧ (newline ∉ raw_response_of s).
Proof.
  unfold raw_response_of. split; [apply remove_char_notin|].
  intros Hin%remove_char_elem. by apply remove_char_notin in Hin.
Qed.

Lemma raw_response_idemp s : raw_response_of (raw_response_of s) = raw_response_of s.
Proof.
  destruct (raw_response_no_blank s) as [Hs Hn].
  unfold raw_response_of at 1. by rewrite (remove_char_id newline), remove_char_id.
Qed.

(** X12: Whatever text the search hands to [json.loads] is a piece of the
    stripped response that is brace-balanced, holds no space and no newline,
    and starts at the first position of the stripped response where a
    balanced text starts. *)
Theorem located_text_is_balanced s m :
  locate_json s = Ok m →
  balanced m ∧ (space ∉ m) ∧ (newline ∉ m) ∧
  ∃ pre post, raw_response_of s = pre ++ m ++ post ∧
    ∀ pre' m' post', raw_response_of s = pre' ++ m' ++ post' → balanced m' →
      length pre ≤ length pre'.
Proof.
  unfold locate_json. destruct (regex_search _) as [m'|] eqn:Hsearch; [|done].
  intros [= ->]. apply regex_search_Some in Hsearch as (Hbal & pre & post & Heq & Hfirst).
  destruct (raw_response_no_blank s) as [Hs Hn]. rewrite Heq in Hs, Hn.
  rewrite !elem_of_app in Hs, Hn. split_and!; [done|tauto|tauto|].
  by exists pre, post.
Qed.

Lemma located_text_is_balanced_witness :
  balanced first_object ∧ (space ∉ first_object) ∧ (newline ∉ first_object) ∧
  ∃ pre post, raw_response_of two_objects = pre ++ first_object ++ post ∧
    ∀ pre' m' post', raw_response_of two_objects = pre' ++ m' ++ post' → balanced m' →
      length pre ≤ length pre'.
Proof. apply (located_text_is_balanced two_objects first_object). by vm_compute. Defined.

(** * Further properties of the freeze schedule *)

Lemma NoDup_where_eq `{EqDecision A} (l : list A) t : NoDup (where_eq l t).
Proof.
  induction l as [|x l IH]; [by apply NoDup_nil|].
  rewrite where_eq_cons. apply NoDup_app. split_and!.
  - case_decide; [apply NoDup_singleton|apply NoDup_nil_2].
  - intros i Hi [j [-> _]]%list_elem_of_fmap.
    case_decide; [by apply list_elem_of_singleton in Hi|by apply elem_of_nil in Hi].
  - by apply (NoDup_fmap_2 S).
Qed.

Lemma NoDup_fixed_nodes_of real_nodes _types :
  NoDup _types → NoDup (fixed_nodes_of real_nodes _types).
Proof.
  intros Hnd. unfold fixed_nodes_of. case_bool_decide; [|apply NoDup_nil_2].
  apply NoDup_bind; [|intros; apply NoDup_where_eq|done].
  intros t1 t2 i _ _ H1%elem_of_where_eq H2%elem_of_where_eq. congruence.
Qed.

Lemma NoDup_take {A} (l : list A) k : NoDup l → NoDup (take k l).
Proof. intros Hnd. eapply sublist_NoDup; [done|apply sublist_take]. Qed.

(** X13: In every pass the list of fixed nodes names no node twice and only
    nodes of the graph; and when the graph has at most ten distinct node
    types, the last pass fixes every node. *)
Theorem fixed_nodes_are_distinct {Masks World : Type}
    (_infer : Graph → State Masks → World → Masks * World) nodes edges w :
  let real_nodes := real_nodes_of nodes in
  let log := (generate_layout_masks _infer nodes edges (w, [])).2.2 in
  (∀ k st, log !! k = Some st →
     NoDup (fixed_nodes st) ∧ ∀ i, i ∈ fixed_nodes st → i < length real_nodes) ∧
  (length (sorted_set real_nodes) ≤ 10 →
   ∃ st, log !! 10 = Some st ∧ fixed_nodes st ≡ₚ seq 0 (length real_nodes)).
Proof.
  intros real_nodes log.
  destruct (sorted_set_spec real_nodes) as [Hsorted Htypes].
  pose proof (StronglySorted_lt_NoDup _ Hsorted) as Hnd.
  assert (∀ ts, NoDup ts →
            NoDup (fixed_nodes_of real_nodes ts) ∧
            ∀ i, i ∈ fixed_nodes_of real_nodes ts → i < length real_nodes) as Hfixed.
  { intros ts Hts. split; [by apply NoDup_fixed_nodes_of|].
    intros i (t & Hi & _)%elem_of_fixed_nodes_of. by eapply lookup_lt_Some. }
  split.
  - intros k st Hk. unfold log in Hk.
    destruct (generate_layout_masks_log _infer nodes edges (w, [])) as (ms & Hlen & Hlog).
    rewrite Hlog in Hk. simpl in Hk. destruct k as [|k]; simpl in Hk.
    { injection Hk as <-. simpl. split; [apply NoDup_nil_2|]. by intros i ?%elem_of_nil. }
    rewrite lookup_zip_with in Hk.
    destruct (ms !! k) as [m|]; [|done]. simpl in Hk.
    destruct (selected_types _ !! k) as [ts|] eqn:Hts; [|done]. injection Hk as <-. simpl.
    apply Hfixed. unfold selected_types in Hts. rewrite list_lookup_fmap in Hts.
    destruct (seq 0 10 !! k); [|done]. injection Hts as <-. by apply NoDup_take.
  - intros Hle.
    destruct (generate_layout_masks_round _infer nodes edges w 9) as [m Hm]; [lia|].
    eexists. split; [exact Hm|]. simpl. rewrite take_ge by (fold real_nodes; lia).
    apply NoDup_Permutation; [by apply Hfixed|apply NoDup_seq|].
    intros i. rewrite elem_of_fixed_nodes_of, elem_of_seq. split.
    + intros (t & Hi%lookup_lt_Some & _). fold real_nodes in Hi. lia.
    + intros [_ Hi]. destruct (lookup_lt_is_Some_2 real_nodes i) as [t Ht]; [lia|].
      exists t. split; [done|]. apply Htypes. by eapply list_elem_of_lookup_2.
Qed.

Lemma fixed_nodes_are_distinct_witness :
  ∃ st, scenario_log !! 10 = Some st ∧
    fixed_nodes st ≡ₚ seq 0 (length (real_nodes_of scenario_nodes)).
Proof.
  apply (fixed_nodes_are_distinct stub_infer scenario_nodes
           (graph_edges scenario_diagram) tt).
  vm_compute. lia.
Defined.

Section passes.
Context {Masks World : Type} (_infer : Graph → State Masks → World → Masks * World).
Context (graph : Graph) (real_nodes : list nat).

Lemma passes_fold tss m0 w0 log0 :
  let res := foldl (λ (acc : Masks * (World * list (State Masks))) ts,
                      call_infer _infer graph
                        {| masks := Some acc.1;
                           fixed_nodes := fixed_nodes_of real_nodes ts |} acc.2)
                   (m0, (w0, log0)) tss in
  ∃ sts, res.2.2 = log0 ++ sts ∧ length sts = length tss ∧
    (∀ k st, sts !! k = Some st →
       masks st = (m0 :: (passes _infer graph w0 sts).*1) !! k) ∧
    last ((m0, w0) :: passes _infer graph w0 sts) = Some (res.1, res.2.1).
Proof using Type.
  revert m0 w0 log0. induction tss as [|ts tss IH]; intros m0 w0 log0; simpl.
  { exists []. split_and!; [by rewrite app_nil_r|done..]. }
  set (st := {| masks := Some m0; fixed_nodes := fixed_nodes_of real_nodes ts |}).
  destruct (_infer graph st w0) as [m1 w1] eqn:Hcall.
  assert (call_infer _infer graph st (w0, log0) = (m1, (w1, log0 ++ [st]))) as ->.
  { unfold call_infer. simpl. by rewrite Hcall. }
  destruct (IH m1 w1 (log0 ++ [st])) as (sts & Hlog & Hlen & Hmasks & Hlast).
  exists (st :: sts). simpl. rewrite Hcall. split_and!.
  - by rewrite Hlog, <- app_assoc.
  - by rewrite Hlen.
  - intros [|k] st' Hk; simpl in *; [by injection Hk as <-|]. by apply Hmasks.
  - exact Hlast.
Qed.
End passes.

(** X14: The passes are chained: replaying [_infer] on the logged states
    gives eleven results; the state of every pass after the first carries
    the masks that the pass before it returned; and the function returns the
    masks of the last pass, with the world it left. *)
Theorem passes_are_chained {Masks World : Type}
    (_infer : Graph → State Masks → World → Masks * World) nodes edges w :
  let run := generate_layout_masks _infer nodes edges (w, []) in
  let outs := passes _infer (nodes, edges) w run.2.2 in
  length outs = 11 ∧
  (∀ k st, run.2.2 !! S k = Some st → masks st = outs.*1 !! k) ∧
  last outs = Some (run.1, run.2.1).
Proof.
  intros run outs. unfold outs, run, generate_layout_masks. clear run outs.
  set (st0 := {| masks := None; fixed_nodes := [] |}).
  destruct (_infer (nodes, edges) st0 w) as [m0 w0] eqn:Hcall.
  assert (call_infer _infer (nodes, edges) st0 (w, []) = (m0, (w0, [st0]))) as ->.
  { unfold call_infer. simpl. by rewrite Hcall. }
  destruct (passes_fold _infer (nodes, edges) (real_nodes_of nodes)
              (selected_types (sorted_set (real_nodes_of nodes))) m0 w0 [st0])
    as (sts & Hlog & Hlen & Hmasks & Hlast).
  assert (∀ (l : list (State Masks)) w1,
            length (passes _infer (nodes, edges) w1 l) = length l) as Hpl.
  { induction l as [|st l IH]; intros w1; simpl; [done|].
    destruct (_infer _ st w1). simpl. by rewrite IH. }
  cbv zeta in Hlog, Hlast. rewrite Hlog.
  change ([st0] ++ sts) with (st0 :: sts). cbn [passes]. rewrite Hcall.
  split_and!.
  - cbn [length]. rewrite Hpl, Hlen. done.
  - intros k st Hk. rewrite fmap_cons. by apply Hmasks.
  - exact Hlast.
Qed.

(** * The callers *)

(** ** The door nodes that generate_floorplan names *)

Lemma fst_zip_take {A B} (l : list A) (k : list B) : (zip l k).*1 = take (length k) l.
Proof.
  revert k. induction l as [|x l IH]; intros [|y k]; simpl; [done..|]. by rewrite IH.
Qed.

Lemma length_remove_dups_le `{EqDecision A} (l : list A) :
  length (remove_dups l) ≤ length l.
Proof.
  induction l as [|x l IH]; simpl; [done|]. case_decide; simpl; lia.
Qed.

Lemma length_remove_dups_NoDup `{EqDecision A} (l : list A) :
  length (remove_dups l) = length l ↔ NoDup l.
Proof.
  induction l as [|x l IH]; simpl.
  { split; [intros _; apply NoDup_nil_2|done]. }
  pose proof (length_remove_dups_le l) as Hle. rewrite NoDup_cons.
  case_decide as Hin; simpl.
  - split; [lia|]. by intros [? _].
  - rewrite <- IH. split; [intros [= ?]; done|intros [_ ->]; done].
Qed.

Lemma size_py_dict `{Countable K} {V} (l : list (K * V)) :
  size (py_dict l) = length (remove_dups l.*1).
Proof.
  rewrite <- size_dom, <- (size_list_to_set (C := gset K)) by apply NoDup_remove_dups.
  f_equal. apply set_eq. intros k.
  rewrite elem_of_dom, py_dict_is_Some, elem_of_list_to_set, elem_of_remove_dups. done.
Qed.

(** X15: The list of door nodes that [generate_floorplan] hands to the
    validator and to the border map is counted from the size of
    [room_name_dict]. It always holds every door node, and it is exactly the
    door nodes when, and only when, the names of [complete_room_list] that
    are paired with a room are distinct and no room lacks one: otherwise the
    list begins among the real rooms. *)
Theorem door_indices_are_the_doors r d :
  generate_bubble_diagram r = Ok d →
  let L := length (modified_room_list r) in
  let C := length (connection r) in
  let F := length (front_door r) in
  (∀ x, L ≤ x < L + C + F → x ∈ door_indices (room_name_dict d) (room_list d)) ∧
  (door_indices (room_name_dict d) (room_list d) = seq L (C + F) ↔
   NoDup (take L (complete_room_list r)) ∧ L ≤ length (complete_room_list r)).
Proof.
  intros Hrun L C F.
  destruct (generate_bubble_diagram_inv r d Hrun) as (? & ? & ? & ? & Hrnd & Hnodes & _).
  unfold door_indices. rewrite Hrnd, Hnodes, length_nodes_of, size_py_dict, fst_zip_take.
  fold L C F. set (t := take L (complete_room_list r)).
  pose proof (length_remove_dups_le t) as Hle.
  assert (length t = L `min` length (complete_room_list r)) as Ht by apply length_take.
  split.
  - intros y Hy. apply elem_of_seq. lia.
  - rewrite <- (length_remove_dups_NoDup t). split.
    + intros Heq. apply (f_equal length) in Heq. rewrite !length_seq in Heq. lia.
    + intros [Heq Hlen]. rewrite Heq. f_equal; lia.
Qed.

Lemma door_indices_are_the_doors_witness :
  (∀ x, 2 ≤ x < 2 + 1 + 1 →
     x ∈ door_indices (room_name_dict scenario_diagram) (room_list scenario_diagram)) ∧
  (door_indices (room_name_dict scenario_diagram) (room_list scenario_diagram)
     = seq 2 (1 + 1) ↔
   NoDup (take 2 (complete_room_list scenario)) ∧ 2 ≤ length (complete_room_list scenario)).
Proof. apply (door_indices_are_the_doors scenario scenario_diagram). reflexivity. Defined.

(** ** The monad of the callers *)

Lemma M_bind_Return {E A B} (m : M E A) (f : A → M E B) env b env' :
  (m ≫= f) env = Return b env' ↔
  ∃ a env1, m env = Return a env1 ∧ f a env1 = Return b env'.
Proof.
  unfold mbind, M_bind.
  destruct (m env) as [a env1| |]; [|split; [done|by intros (? & ? & ? & _)]..].
  split; [by exists a, env1|]. by intros (? & ? & [= <- <-] & ?).
Qed.

(** ** The attempts of generate_floorplan *)

Section generate_floorplan.
Context `{Externals}.
Context (nodes : list (list Z)) (edges : list triple).
Context (rnd : gmap string string) (rl : list string).

Lemma length_generate_layout_masks_log (w : Outside) (log : list (State Tensor)) :
  length (generate_layout_masks infer nodes edges (w, log)).2.2 = length log + 11.
Proof using Type.
  destruct (generate_layout_masks_log infer nodes edges (w, log)) as (ms & Hlen & ->).
  simpl. rewrite length_app. simpl. rewrite length_zip_with, Hlen. simpl. lia.
Qed.

Lemma generate_floorplan_loop_S fuel env :
  FloorplanGenerator.generate_floorplan_loop (S fuel) nodes edges rnd rl env =
    let run := generate_layout_masks infer nodes edges (outside env, infer_log env) in
    let checked := utils_check_post_processing nodes edges run.1
                     (door_indices rnd rl) 256 run.2.1 in
    let env' := {| outside := checked.2; infer_log := run.2.2; prompts := prompts env;
                   debug_output := debug_output env;
                   description_file := description_file env;
                   images :=
                     {| input_graph_png := Some (draw_graph (real_nodes_of nodes) edges);
                        init_fp_png :=
                          Some (draw_masks
                                  (infer (nodes, edges) {| masks := None; fixed_nodes := [] |}
                                     (outside env)).1 (real_nodes_of nodes));
                        final_fp_png := Some (draw_masks run.1 (real_nodes_of nodes)) |} |} in
    if checked.1.1.1.1 then Return (checked.1.1.2, checked.1.2) env'
    else FloorplanGenerator.generate_floorplan_loop fuel nodes edges rnd rl env'.
Proof using Type.
  cbn [FloorplanGenerator.generate_floorplan_loop].
  unfold mbind, M_bind, call_generate_layout_masks, call.
  cbn [outside infer_log].
  destruct (generate_layout_masks _ _ _ _) as [masks [w log]].
  cbn [fst snd outside infer_log prompts debug_output description_file images].
  destruct (utils_check_post_processing _ _ _ _ _ _) as [[[[status rm] rmnd] rmasks] w'].
  cbn [fst snd]. by destruct status.
Qed.
End generate_floorplan.

(** X16: The loop of [generate_floorplan] returns the maps of an attempt
    that the validator accepted, its first: the masks of that attempt are
    those of a full run of the schedule, and the validator said yes to them.
    Every attempt, the [t] rejected ones too, calls [_infer] eleven times
    and writes input_graph.png, init_fp.png and final_fp.png anew, so the
    three images that the loop leaves are those of the accepted attempt:
    the graph, the masks of its first pass and the masks that the validator
    accepted. No attempt sends a prompt or writes debug_output.txt or
    floorplan_description.json. Any fuel above [t] gives the same result. *)
Theorem accepted_attempt_is_returned `{Externals} fuel nodes edges rnd rl env
    result_map_no_doors result_masks env' :
  FloorplanGenerator.generate_floorplan_loop fuel nodes edges rnd rl env
    = Return (result_map_no_doors, result_masks) env' →
  ∃ t w0 log0 result_map,
    t < fuel ∧
    (let run := generate_layout_masks infer nodes edges (w0, log0) in
     let first_pass := infer (nodes, edges) {| masks := None; fixed_nodes := [] |} w0 in
     utils_check_post_processing nodes edges run.1 (door_indices rnd rl) 256 run.2.1
       = ((true, result_map, result_map_no_doors, result_masks), outside env') ∧
     infer_log env' = run.2.2 ∧
     input_graph_png (images env') = Some (draw_graph (real_nodes_of nodes) edges) ∧
     init_fp_png (images env') = Some (draw_masks first_pass.1 (real_nodes_of nodes)) ∧
     final_fp_png (images env') = Some (draw_masks run.1 (real_nodes_of nodes))) ∧
    length (infer_log env') = length (infer_log env) + 11 * S t ∧
    prompts env' = prompts env ∧ debug_output env' = debug_output env ∧
    description_file env' = description_file env ∧
    ∀ fuel', t < fuel' →
      FloorplanGenerator.generate_floorplan_loop fuel' nodes edges rnd rl env
        = Return (result_map_no_doors, result_masks) env'.
Proof.
  revert env. induction fuel as [|fuel IH]; intros env; [done|].
  rewrite generate_floorplan_loop_S. cbv zeta.
  pose proof (length_generate_layout_masks_log nodes edges (outside env) (infer_log env))
    as Hlog.
  destruct (utils_check_post_processing _ _ _ _ _ _)
    as [[[[status rm] rmnd] rmasks] w'] eqn:Hcheck.
  cbn [fst snd]. destruct status.
  - intros [= <- <- <-]. exists 0, (outside env), (infer_log env), rm.
    cbn [outside infer_log prompts debug_output description_file images].
    split_and!; [lia|by rewrite Hcheck|done|done|done|done|lia|done..|].
    intros [|fuel'] Hlt; [lia|]. rewrite generate_floorplan_loop_S. cbv zeta.
    by rewrite Hcheck.
  - intros Hloop. destruct (IH _ Hloop)
      as (t & w0 & log0 & rm' & Ht & (Hacc & Hlog' & Hgraph & Hinit & Hfinal) & Hlen
          & Hp & Hd & Hf & Hfuel).
    cbn [outside infer_log prompts debug_output description_file images] in *.
    exists (S t), w0, log0, rm'.
    split_and!; [lia|exact Hacc|exact Hlog'|exact Hgraph|exact Hinit|exact Hfinal
                |lia|done..|].
    intros [|fuel'] Hlt; [lia|]. rewrite generate_floorplan_loop_S. cbv zeta.
    rewrite Hcheck. cbn [fst snd]. apply Hfuel. lia.
Qed.

Lemma accepted_attempt_is_returned_witness :
  ∃ t, t < 5 ∧
    length (infer_log stub_env_accepted) = length (infer_log stub_env) + 11 * S t ∧
    final_fp_png (images stub_env_accepted) = Some ().
Proof.
  destruct (accepted_attempt_is_returned (H := stub_externals) 5 [] [] ∅ [] stub_env () ()
              stub_env_accepted)
    as (t & w0 & log0 & _ & Ht & (_ & _ & _ & _ & Himage) & Hlen & _).
  { vm_compute. reflexivity. }
  exists t. split; [exact Ht|]. split; [exact Hlen|exact Himage].
Defined.

(** ** The rounds of generate_house_mesh *)

Section generate_house_mesh.
Context `{Externals}.

Lemma call_prompts {A} (f : Outside → A * Outside) env a env' :
  call f env = Return a env' → prompts env' = prompts env.
Proof using Type. unfold call. destruct (f _). by intros [= <- <-]. Qed.

Lemma generate_floorplan_loop_prompts fuel nodes edges rnd rl env v env' :
  FloorplanGenerator.generate_floorplan_loop fuel nodes edges rnd rl env = Return v env' →
  prompts env' = prompts env.
Proof using Type.
  revert env. induction fuel as [|fuel IH]; intros env; [done|].
  rewrite generate_floorplan_loop_S. cbv zeta.
  destruct (utils_check_post_processing _ _ _ _ _ _) as [[[[status rm] rmnd] rmasks] w'].
  cbn [fst snd]. destruct status; [by intros [= <- <-]|].
  by intros ->%IH.
Qed.

Lemma generate_floorplan_prompts fuel nodes edges rnd rl env v env' :
  FloorplanGenerator.generate_floorplan fuel nodes edges rnd rl env = Return v env' →
  prompts env' = prompts env.
Proof using Type.
  unfold FloorplanGenerator.generate_floorplan.
  intros ([rmnd rmasks] & env1 & H1%generate_floorplan_loop_prompts & Hrest)%M_bind_Return.
  apply M_bind_Return in Hrest as ([border start] & env2 & H2%call_prompts & Hrest).
  apply M_bind_Return in Hrest as ([bxs ctrs] & env3 & H3%call_prompts & Hrest).
  apply M_bind_Return in Hrest as ([] & env4 & H4%call_prompts & [= _ <-]).
  congruence.
Qed.

Lemma generate_bubble_diagram_Return description is_edit edit_description edit_fp
    env d s env' :
  FloorplanGenerator.generate_bubble_diagram description is_edit edit_description edit_fp env
    = Return (d, s) env' →
  ∃ r, generate_bubble_diagram r = Ok d ∧ s = str_response (response_at_return r d) ∧
    prompts env' = prompts env ++ [prompt_content description is_edit edit_description edit_fp].
Proof using Type.
  unfold FloorplanGenerator.generate_bubble_diagram.
  intros (response_str & env1 & Hask & Hrest)%M_bind_Return.
  apply M_bind_Return in Hrest as ([] & env2 & Hdebug & Hrest).
  apply M_bind_Return in Hrest as (r & env3 & Hparse & Hrest).
  apply M_bind_Return in Hrest as (d' & env4 & Hcompile & [= <- <- <-]).
  unfold ask in Hask. destruct (chat_completion _ _) as [answer w]. injection Hask as <- <-.
  injection Hdebug as <-.
  unfold of_result in Hparse, Hcompile.
  destruct (parse_response _ _) as [r'|]; [|done]. injection Hparse as <- <-.
  destruct (generate_bubble_diagram r') as [d''|] eqn:Hrun; [|done].
  injection Hcompile as <- <-. by exists r'.
Qed.

Lemma bubble_diagram_and_floorplan_Return fuel description is_edit edit_description edit_fp
    env round env' :
  FloorplanGenerator.bubble_diagram_and_floorplan fuel description is_edit edit_description
    edit_fp env = Return round env' →
  ∃ r d, generate_bubble_diagram r = Ok d ∧
    FloorplanGenerator.floorplan_str round = str_response (response_at_return r d) ∧
    FloorplanGenerator.round_room_name_dict round = room_name_dict d ∧
    prompts env' = prompts env ++ [prompt_content description is_edit edit_description edit_fp].
Proof using Type.
  unfold FloorplanGenerator.bubble_diagram_and_floorplan.
  intros ([d s] & env1 & (r & Hrun & -> & Hp)%generate_bubble_diagram_Return & Hrest)%M_bind_Return.
  apply M_bind_Return in Hrest
    as ([[border bxs] ctrs] & env2 & Hp2%generate_floorplan_prompts & [= <- <-]).
  exists r, d. cbn. split_and!; [done..|congruence].
Qed.

End generate_house_mesh.



(** X18: Without editing, [generate_house_mesh] reads no line of the input
    and sends one prompt, the description's; what it returns does not depend
    on the input. *)
Theorem no_edit_reads_no_input `{Externals} fuel description inputs env out rest env' :
  FloorplanGenerator.generate_house_mesh fuel description false inputs env
    = Return (out, rest) env' →
  rest = inputs ∧
  prompts env' = prompts env ++ [context_msg_format description] ∧
  ∀ inputs', FloorplanGenerator.generate_house_mesh fuel description false inputs' env
             = Return (out, inputs') env'.
Proof.
  unfold FloorplanGenerator.generate_house_mesh.
  intros (round0 & env0 & Hround & Hrest)%M_bind_Return.
  pose proof Hround as (r0 & d0 & _ & _ & _ & Hp0)%bubble_diagram_and_floorplan_Return.
  apply M_bind_Return in Hrest as ([round1 rest'] & env1 & [= <- <- <-] & Hrest).
  apply M_bind_Return in Hrest as (segments & env2 & Hseg & Hrest).
  apply M_bind_Return in Hrest as ([hv hf] & env3 & Hobj & [= <- <- <-]).
  split_and!; [done| |].
  - apply call_prompts in Hseg, Hobj. unfold prompt_content in Hp0. simpl in Hp0.
    congruence.
  - intros inputs'. apply M_bind_Return. exists round0, env0. split; [done|].
    apply M_bind_Return. exists (round0, inputs'), env0. split; [done|].
    apply M_bind_Return. exists segments, env2. split; [done|].
    apply M_bind_Return. exists (hv, hf), env3. split; [done|]. done.
Qed.

Lemma no_edit_reads_no_input_witness :
  ∃ out rest env', stub_unedited = Return (out, rest) env' ∧
    rest = stub_inputs ∧
    prompts env' = prompts stub_env ++ [context_msg_format (Externals := stub_externals) []] ∧
    ∀ inputs', FloorplanGenerator.generate_house_mesh (H := stub_externals) 5 [] false
                 inputs' stub_env
               = Return (out, inputs') env'.
Proof.
  do 3 eexists. split; [reflexivity|].
  eapply (no_edit_reads_no_input (H := stub_externals) 5 [] stub_inputs stub_env).
  vm_compute. reflexivity.
Defined.

(** ** The batch script *)

Section floorplan_graph_gen.
Context `{Externals}.

Lemma replies_app contents contents' w :
  replies (contents ++ contents') w
  = replies contents w ++ replies contents' (outside_after contents w).
Proof using Type.
  revert w. induction contents as [|c contents IH]; intros w; simpl; [done|].
  destruct (chat_completion c w) as [answer w']. simpl. by rewrite IH.
Qed.

Lemma length_replies contents w : length (replies contents w) = length contents.
Proof using Type.
  revert w. induction contents as [|c contents IH]; intros w; simpl; [done|].
  destruct (chat_completion c w) as [answer w']. simpl. by rewrite IH.
Qed.

(** One entry with a description: the request, the two keys, the file. *)
Lemma process_entry_described other before floorplan after env content :
  entry_prompt floorplan = Some content →
  let answer := (chat_completion content (outside env)).1 in
  let floorplan' := with_graph floorplan answer in
  let env' := {| outside := (chat_completion content (outside env)).2;
                 infer_log := infer_log env; prompts := prompts env ++ [content];
                 debug_output := debug_output env;
                 description_file :=
                   Some {| floorplans := Some (before ++ floorplan' :: after);
                           other_keys := other |};
                 images := images env |} in
  floorplan_graph_gen.process_entry other before floorplan after env =
    match floorplan !! "id" with
    | Some _ => Return floorplan' env'
    | None => Raises (Raised (KeyError "id")) env'
    end.
Proof using Type.
  intros Hprompt. cbv zeta. unfold entry_prompt in Hprompt.
  destruct (floorplan !! "description") as [v|] eqn:Hv; [|done]. injection Hprompt as <-.
  unfold floorplan_graph_gen.process_entry, floorplan_graph_gen.entry_getitem.
  rewrite Hv. unfold mbind at 1, M_bind at 1, of_result at 1.
  unfold FloorplanGenerator.generate_floorplan_from_description, prompt_content.
  cbn [negb]. unfold mbind at 1, M_bind at 1, mbind at 1, M_bind at 1, ask.
  destruct (chat_completion _ _) as [answer w']. cbn [fst snd mret M_ret].
  unfold mbind at 1, M_bind at 1, write_description_file.
  cbn [outside infer_log prompts debug_output description_file images].
  rewrite !lookup_insert_ne by done.
  unfold mbind, M_bind, of_result. by destruct (floorplan !! "id").
Qed.

Lemma process_entries_complete other before good contents after env :
  Forall2 complete_entry good contents →
  let enriched := zip_with with_graph good (replies contents (outside env)) in
  ∃ env1,
    floorplan_graph_gen.process_entries other before (good ++ after) env
      = floorplan_graph_gen.process_entries other (before ++ enriched) after env1 ∧
    outside env1 = outside_after contents (outside env) ∧
    prompts env1 = prompts env ++ contents ∧
    description_file env1 =
      match good with
      | [] => description_file env
      | _ => Some {| floorplans := Some (before ++ enriched ++ after); other_keys := other |}
      end.
Proof using Type.
  intros Hgood. revert before env.
  induction Hgood as [|floorplan content good contents [Hprompt [id Hid]] Hgood IH];
    intros before env; simpl.
  { exists env. by rewrite !app_nil_r. }
  unfold mbind at 1, M_bind at 1.
  rewrite (process_entry_described _ _ _ _ _ content Hprompt), Hid. cbv zeta.
  destruct (chat_completion content (outside env)) as [answer w'] eqn:Hchat.
  cbn [fst snd].
  set (env' := Build_Env _ _ _ _ _ _ _).
  destruct (IH (before ++ [with_graph floorplan answer]) env')
    as (env1 & Heq & Hout & Hp & Hfile).
  subst env'. cbn [outside prompts description_file] in Hout, Hp, Hfile, Heq.
  exists env1. rewrite Heq, Hout, Hp, Hfile, <- !app_assoc. split_and!; [done..|].
  by destruct good.
Qed.
End floorplan_graph_gen.

(** X19: When every entry of the description file has a description and an
    id, the script sends one request for every entry, in order, whether or
    not the entry already held a graph, and leaves the file with every entry
    set at [graph_str] to the answer and at [graph_raw] to the answer
    without spaces and newlines; the other keys are as they were. *)
Theorem batch_writes_every_entry `{Externals} env doc entries contents :
  description_file env = Some doc →
  floorplans doc = Some entries →
  Forall2 complete_entry entries contents →
  ∃ env', floorplan_graph_gen.main env = Return () env' ∧
    prompts env' = prompts env ++ contents ∧
    description_file env' =
      Some {| floorplans := Some (zip_with with_graph entries (replies contents (outside env)));
              other_keys := other_keys doc |}.
Proof.
  intros Hfile Hentries Hall. unfold floorplan_graph_gen.main. rewrite Hfile, Hentries.
  destruct (process_entries_complete (other_keys doc) [] entries contents [] env Hall)
    as (env1 & Heq & _ & Hp & Hfile1).
  rewrite app_nil_r in Heq. rewrite Heq. simpl. exists env1. split_and!; [done..|].
  rewrite Hfile1. destruct entries; [|by rewrite app_nil_r].
  apply Forall2_nil_inv_l in Hall as ->. simpl. rewrite Hfile. f_equal.
  destruct doc. simpl in *. by subst.
Qed.

Lemma batch_writes_every_entry_witness :
  ∃ env', floorplan_graph_gen.main (stub_description (take 1 stub_entries))
          = Return () env' ∧
    prompts env' = prompts (stub_description (take 1 stub_entries))
                   ++ [String.list_ascii_of_string "a flat"] ∧
    description_file env' =
      Some {| floorplans :=
                Some (zip_with with_graph (take 1 stub_entries)
                        (replies [String.list_ascii_of_string "a flat"]
                           (outside (stub_description (take 1 stub_entries)))));
              other_keys := () |}.
Proof.
  apply (batch_writes_every_entry (H := stub_externals)
           (stub_description (take 1 stub_entries))
           {| floorplans := Some (take 1 stub_entries); other_keys := () |}
           (take 1 stub_entries) [String.list_ascii_of_string "a flat"]).
  - reflexivity.
  - reflexivity.
  - repeat constructor. eexists. by vm_compute.
Defined.

(** X20: The script stops at the first entry that lacks a description or an
    id, with [KeyError], and the file keeps the work done so far: the
    entries before it are enriched, those after it untouched. An entry
    without a description is left as it was and no request is sent for it;
    an entry without an id has had its request sent and its graph written
    before the error. *)
Theorem batch_stops_at_first_incomplete_entry `{Externals} env doc good contents bad rest :
  description_file env = Some doc →
  floorplans doc = Some (good ++ bad :: rest) →
  Forall2 complete_entry good contents →
  let enriched := zip_with with_graph good (replies contents (outside env)) in
  (bad !! "description" = None →
   ∃ env', floorplan_graph_gen.main env = Raises (Raised (KeyError "description")) env' ∧
     prompts env' = prompts env ++ contents ∧
     description_file env' =
       Some {| floorplans := Some (enriched ++ bad :: rest); other_keys := other_keys doc |}) ∧
  (∀ content, entry_prompt bad = Some content → bad !! "id" = None →
   ∃ env', floorplan_graph_gen.main env = Raises (Raised (KeyError "id")) env' ∧
     prompts env' = prompts env ++ contents ++ [content] ∧
     description_file env' =
       Some {| floorplans :=
                 Some (zip_with with_graph (good ++ [bad])
                         (replies (contents ++ [content]) (outside env)) ++ rest);
               other_keys := other_keys doc |}).
Proof.
  intros Hfile Hentries Hall enriched. unfold floorplan_graph_gen.main.
  rewrite Hfile, Hentries.
  destruct (process_entries_complete (other_keys doc) [] good contents (bad :: rest) env Hall)
    as (env1 & Heq & Hout & Hp & Hfile1).
  rewrite Heq. clear Heq. simpl. fold enriched. fold enriched in Hfile1.
  assert (description_file env1 =
            Some {| floorplans := Some (enriched ++ bad :: rest);
                    other_keys := other_keys doc |}) as Hfile2.
  { rewrite Hfile1. destruct good; [|done].
    apply Forall2_nil_inv_l in Hall as ->. simpl. rewrite Hfile. f_equal.
    destruct doc. simpl in *. by subst. }
  split.
  - intros Hbad. exists env1. split_and!; [|done..].
    unfold mbind at 1, M_bind at 1, floorplan_graph_gen.process_entry,
      floorplan_graph_gen.entry_getitem. rewrite Hbad.
    by unfold mbind, M_bind, of_result.
  - intros content Hprompt Hid. unfold mbind at 1, M_bind at 1.
    rewrite (process_entry_described _ _ _ _ _ content Hprompt), Hid. cbv zeta.
    eexists. split; [reflexivity|]. cbn [prompts description_file].
    rewrite Hp, <- app_assoc. split; [done|]. do 2 f_equal.
    pose proof (Forall2_length _ _ _ Hall) as Hlen.
    rewrite replies_app, zip_with_app by by rewrite length_replies.
    rewrite <- app_assoc. fold enriched. f_equal. simpl. rewrite <- Hout.
    by destruct (chat_completion content (outside env1)).
Qed.

Lemma batch_stops_at_first_incomplete_entry_witness :
  ∃ env', floorplan_graph_gen.main (stub_description stub_entries)
          = Raises (Raised (KeyError "description")) env' ∧
    prompts env' = prompts (stub_description stub_entries)
                   ++ [String.list_ascii_of_string "a flat"] ∧
    description_file env' =
      Some {| floorplans :=
                Some (zip_with with_graph (take 1 stub_entries)
                        (replies [String.list_ascii_of_string "a flat"]
                           (outside (stub_description stub_entries)))
                      ++ drop 1 stub_entries);
              other_keys := () |}.
Proof.
  apply (batch_stops_at_first_incomplete_entry (H := stub_externals)
           (stub_description stub_entries)
           {| floorplans := Some stub_entries; other_keys := () |}
           (take 1 stub_entries) [String.list_ascii_of_string "a flat"]
           {[ "id" := JStr (String.list_ascii_of_string "2") ]} []).
  - reflexivity.
  - reflexivity.
  - repeat constructor. eexists. by vm_compute.
  - by vm_compute.
Defined.

(** ** Names beyond the standardized list, and the stripped answer *)



(** X22: The second text that [generate_floorplan_from_description] returns,
    the answer without spaces and newlines, is as good as the first for what
    follows: stripping it again changes nothing, and the search and
    [json.loads] find in it what they find in the answer itself. *)
Theorem stripped_answer_parses_alike (json_loads : text → result Response) s :
  raw_response_of (raw_response_of s) = raw_response_of s ∧
  locate_json (raw_response_of s) = locate_json s ∧
  parse_response json_loads (raw_response_of s) = parse_response json_loads s.
Proof.
  pose proof (raw_response_idemp s) as Hidemp.
  assert (locate_json (raw_response_of s) = locate_json s) as Hlocate.
  { unfold locate_json. by rewrite Hidemp. }
  split_and!; [done..|]. unfold parse_response. by rewrite Hlocate.
Qed.
